(** * Investment Hub: portfolio analytics, embedded and verified

    A shallow embedding of the analytics code of the repository
    ([lib/mockData.ts]: mock positions and ledger, snapshot synthesis,
    performance metrics, sector and asset allocation;
    [app/transactions/page.tsx]: transaction filter, statistics and
    most-traded ranking; the holdings, research, dashboard and analytics
    pages: filter, sort, selection and chart data), together with the
    properties its specification states about it and further properties
    read off the code.

    Numbers.  A JavaScript [number] is modelled by [num]: a real number or
    one of the three IEEE special values [Infinity], [-Infinity], [NaN].
    Arithmetic on finite values is exact (rounding and overflow of binary64
    are not modelled, and the two zeros are identified, a division by zero
    being a division by [+0]); the special values follow IEEE 754 as
    ECMAScript prescribes, so that every division by zero, [0/0] and
    [Infinity - Infinity] of the source is visible in the model.  Where a
    property depends on the rounding, the code is embedded a second time
    over an arithmetic that is a parameter ([Generic]), of which [Exact] and
    the binary64 numbers of the kernel ([Binary64]) are two instances.

    Strings.  A string is the sequence of its code units;
    [String.prototype.toLowerCase] is a parameter of the code that calls it.

    Objects.  A plain object is the table of its own properties together
    with the members it inherits from [Object.prototype].

    Exceptions.  Reading a property of [undefined] throws a [TypeError];
    code that can do so lives in the [result] monad. *)

From Stdlib Require Import Reals Lra Lia ZArith List String Ascii Bool.
From Stdlib Require Import Permutation Sorted DecimalString DecimalNat.
From Stdlib Require Floats Uint63.
Import ListNotations.

(* ================================================================= *)
(** ** JavaScript numbers *)

Module Num.

Local Open Scope R_scope.

Inductive num : Type :=
| Fin (r : R)
| PInf
| NInf
| NaN.

(** Three-way comparison of two reals. *)
Definition Rcmp (a b : R) : comparison :=
  match total_order_T a b with
  | inleft (left _) => Lt
  | inleft (right _) => Eq
  | inright _ => Gt
  end.

Arguments Rcmp : simpl never.

Definition neg (x : num) : num :=
  match x with
  | Fin a => Fin (- a)
  | PInf => NInf
  | NInf => PInf
  | NaN => NaN
  end.

(** [x + y] *)
Definition add (x y : num) : num :=
  match x, y with
  | NaN, _ | _, NaN => NaN
  | Fin a, Fin b => Fin (a + b)
  | PInf, NInf | NInf, PInf => NaN
  | PInf, _ | _, PInf => PInf
  | NInf, _ | _, NInf => NInf
  end.

(** [x - y] *)
Definition sub (x y : num) : num := add x (neg y).

(** The infinity whose sign is that of the real [a]; [NaN] for zero. *)
Definition inf_of_sign (a : R) : num :=
  match Rcmp a 0 with
  | Gt => PInf
  | Lt => NInf
  | Eq => NaN
  end.

(** [x * y] *)
Definition mul (x y : num) : num :=
  match x, y with
  | NaN, _ | _, NaN => NaN
  | Fin a, Fin b => Fin (a * b)
  | Fin a, PInf | PInf, Fin a => inf_of_sign a
  | Fin a, NInf | NInf, Fin a => inf_of_sign (- a)
  | PInf, PInf | NInf, NInf => PInf
  | PInf, NInf | NInf, PInf => NInf
  end.

(** [x / y]; a zero divisor is [+0]. *)
Definition div (x y : num) : num :=
  match x, y with
  | NaN, _ | _, NaN => NaN
  | Fin a, Fin b =>
      match Rcmp b 0 with
      | Eq => inf_of_sign a
      | _ => Fin (a / b)
      end
  | Fin _, PInf | Fin _, NInf => Fin 0
  | PInf, Fin b =>
      match Rcmp b 0 with Lt => NInf | _ => PInf end
  | NInf, Fin b =>
      match Rcmp b 0 with Lt => PInf | _ => NInf end
  | PInf, PInf | PInf, NInf | NInf, PInf | NInf, NInf => NaN
  end.

(** [x > y]: false as soon as one side is [NaN]. *)
Definition gt (x y : num) : bool :=
  match x, y with
  | NaN, _ | _, NaN => false
  | Fin a, Fin b => match Rcmp a b with Gt => true | _ => false end
  | PInf, PInf => false
  | PInf, _ => true
  | NInf, _ => false
  | Fin _, NInf => true
  | Fin _, PInf => false
  end.

(** [ToBoolean] on a number: [0] and [NaN] are falsy. *)
Definition truthy (x : num) : bool :=
  match x with
  | NaN => false
  | Fin a => match Rcmp a 0 with Eq => false | _ => true end
  | PInf | NInf => true
  end.

(** [Math.sqrt] *)
Definition Math_sqrt (x : num) : num :=
  match x with
  | Fin a => match Rcmp a 0 with Lt => NaN | _ => Fin (sqrt a) end
  | PInf => PInf
  | NInf | NaN => NaN
  end.

(** [Math.pow(x, n)] for a natural exponent [n]; [Math.pow(x, 0)] is [1]
    for every [x], [NaN] included. *)
Fixpoint Math_pow (x : num) (n : nat) : num :=
  match n with
  | O => Fin 1
  | S n' => mul x (Math_pow x n')
  end.

(** A number of elements, as a number. *)
Definition of_nat (n : nat) : num := Fin (INR n).

Definition is_finite (x : num) : Prop :=
  match x with Fin _ => True | _ => False end.

(** The real number behind a finite number. *)
Definition to_R (x : num) : R :=
  match x with Fin a => a | _ => 0 end.

End Num.
Export Num.

(* ================================================================= *)
(** ** Exceptions *)

Inductive exn : Type :=
| TypeError.

Inductive result (A : Type) : Type :=
| Ok (a : A)
| Throw (e : exn).

Arguments Ok {A} a.
Arguments Throw {A} e.

Definition bind {A B : Type} (m : result A) (k : A -> result B) : result B :=
  match m with
  | Ok a => k a
  | Throw e => Throw e
  end.

Notation "x <- m ;; k" := (bind m (fun x => k))
  (at level 61, m at next level, right associativity).

(** [o.f] where [o] may be [undefined]. *)
Definition prop {A B : Type} (o : option A) (f : A -> B) : result B :=
  match o with
  | Some a => Ok (f a)
  | None => Throw TypeError
  end.

(** [o?.f] *)
Definition opt_chain {A B : Type} (o : option A) (f : A -> B) : option B :=
  option_map f o.

(** [v || d] where [v] is a number or [undefined]. *)
Definition or_num (v : option num) (d : num) : num :=
  match v with
  | Some x => if truthy x then x else d
  | None => d
  end.

(** [o || d] where [o] is an object or [undefined]. *)
Definition or_obj {A : Type} (o : option A) (d : option A) : option A :=
  match o with
  | Some a => Some a
  | None => d
  end.

(* ================================================================= *)
(** ** Arrays *)

(** [a[i]] for an integer [i], negative or not. *)
Definition index {A : Type} (a : list A) (i : Z) : option A :=
  if (i <? 0)%Z then None else nth_error a (Z.to_nat i).

(** [a.length] as an integer. *)
Definition len {A : Type} (a : list A) : Z := Z.of_nat (List.length a).

(** [a.reduce(f, init)] *)
Definition reduce {A B : Type} (f : B -> A -> B) (init : B) (a : list A) : B :=
  fold_left f a init.

(** [a.map((x, idx) => f x idx)] with a callback that may throw. *)
Fixpoint map_idx_from {A B : Type} (f : A -> nat -> result B)
         (i : nat) (a : list A) : result (list B) :=
  match a with
  | [] => Ok []
  | x :: a' =>
      y <- f x i ;;
      ys <- map_idx_from f (S i) a' ;;
      Ok (y :: ys)
  end.

Definition map_idx {A B : Type} (f : A -> nat -> result B) (a : list A)
  : result (list B) :=
  map_idx_from f 0 a.

(** [a.slice(1)] *)
Definition slice1 {A : Type} (a : list A) : list A := tl a.

(* ================================================================= *)
(** ** Data model ([types/portfolio.ts]) *)

(** A [Date]: its time value in milliseconds, [None] for an invalid date. *)
Definition Date : Type := option Z.

(** [a >= b] on two dates: false as soon as one of them is invalid. *)
Definition date_ge (a b : Date) : bool :=
  match a, b with
  | Some x, Some y => (y <=? x)%Z
  | _, _ => false
  end.

(** [a <= b] on two dates. *)
Definition date_le (a b : Date) : bool :=
  match a, b with
  | Some x, Some y => (x <=? y)%Z
  | _, _ => false
  end.

Inductive AssetType : Type := stock | etf | bond | crypto | cash.

Module Position.
Record t : Type := mk {
  symbol : string;
  name : string;
  quantity : num;
  costBasis : num;
  currentPrice : num;
  marketValue : num;
  gainLoss : num;
  gainLossPercent : num;
  sector : string;
  assetType : AssetType
}.
End Position.

Module PortfolioSnapshot.
Record t : Type := mk {
  date : Date;
  totalValue : num;
  cashBalance : num;
  positions : list Position.t
}.
End PortfolioSnapshot.

Module PerformanceMetrics.
Record t : Type := mk {
  totalReturn : num;
  totalReturnPercent : num;
  dailyReturn : num;
  dailyReturnPercent : num;
  monthlyReturn : num;
  monthlyReturnPercent : num;
  ytdReturn : num;
  ytdReturnPercent : num;
  volatility : num;
  sharpeRatio : num;
  maxDrawdown : num;
  beta : num
}.
End PerformanceMetrics.

(* ================================================================= *)
(** ** The metrics engine ([calculateMockMetrics]) *)

Module Metrics.

Import PortfolioSnapshot.
Local Open Scope R_scope.

(** [positions.reduce((sum, p) => sum + p.marketValue, 0)] *)
Definition sumMarketValue (positions : list Position.t) : num :=
  reduce (fun sum p => add sum (Position.marketValue p)) (Fin 0) positions.

(** [positions.reduce((sum, p) => sum + p.costBasis * p.quantity, 0)] *)
Definition sumCost (positions : list Position.t) : num :=
  reduce (fun sum p => add sum (mul (Position.costBasis p) (Position.quantity p)))
         (Fin 0) positions.

(** The daily returns: [snapshots.slice(1).map((snapshot, idx) => ...)],
    where the callback reads [snapshots[idx].totalValue]. *)
Definition dailyReturnsOf (snapshots : list t) : result (list num) :=
  map_idx (fun snapshot idx =>
             prevValue <- prop (index snapshots (Z.of_nat idx)) totalValue ;;
             Ok (div (sub (totalValue snapshot) prevValue) prevValue))
          (slice1 snapshots).

(** [dailyReturns.reduce((sum, r) => sum + r, 0) / dailyReturns.length] *)
Definition avgReturnOf (dailyReturns : list num) : num :=
  div (reduce (fun sum r => add sum r) (Fin 0) dailyReturns)
      (of_nat (List.length dailyReturns)).

(** [dailyReturns.reduce((sum, r) => sum + Math.pow(r - avgReturn, 2), 0)
     / dailyReturns.length] *)
Definition varianceOf (dailyReturns : list num) : num :=
  let avgReturn := avgReturnOf dailyReturns in
  div (reduce (fun sum r => add sum (Math_pow (sub r avgReturn) 2)) (Fin 0)
              dailyReturns)
      (of_nat (List.length dailyReturns)).

(** [Math.sqrt(variance * 252) * 100] *)
Definition volatilityOf (variance : num) : num :=
  mul (Math_sqrt (mul variance (Fin 252))) (Fin 100).

Definition riskFreeRate : num := Fin 0.04.

(** One turn of the [forEach] of the drawdown scan; the state is
    [(maxDrawdown, peak)]. *)
Definition drawdownStep (st : num * num) (snapshot : t) : num * num :=
  let '(maxDrawdown, peak) := st in
  let peak := if gt (totalValue snapshot) peak then totalValue snapshot else peak in
  let drawdown := mul (div (sub peak (totalValue snapshot)) peak) (Fin 100) in
  let maxDrawdown := if gt drawdown maxDrawdown then drawdown else maxDrawdown in
  (maxDrawdown, peak).

(** [yearStart] is [new Date(new Date().getFullYear(), 0, 1)], read from the
    clock by the source and an input here. *)
Definition calculateMockMetrics (yearStart : Date)
           (positions : list Position.t) (snapshots : list t)
  : result PerformanceMetrics.t :=
  let currentValue := sumMarketValue positions in
  let totalCost := sumCost positions in
  let totalReturn := sub currentValue totalCost in
  let totalReturnPercent := mul (div totalReturn totalCost) (Fin 100) in
  let yesterdayValue :=
    or_num (opt_chain (index snapshots (len snapshots - 2)) totalValue)
           currentValue in
  let dailyReturn := sub currentValue yesterdayValue in
  let dailyReturnPercent := mul (div dailyReturn yesterdayValue) (Fin 100) in
  let monthAgoValue :=
    or_num (opt_chain (index snapshots (len snapshots - 30)) totalValue)
           currentValue in
  let monthlyReturn := sub currentValue monthAgoValue in
  let monthlyReturnPercent := mul (div monthlyReturn monthAgoValue) (Fin 100) in
  let ytdSnapshot :=
    or_obj (find (fun s => date_ge (date s) yearStart) snapshots)
           (index snapshots 0) in
  ytdValue <- prop ytdSnapshot totalValue ;;
  let ytdReturn := sub currentValue ytdValue in
  ytdValue' <- prop ytdSnapshot totalValue ;;
  let ytdReturnPercent := mul (div ytdReturn ytdValue') (Fin 100) in
  dailyReturns <- dailyReturnsOf snapshots ;;
  let variance := varianceOf dailyReturns in
  let volatility := volatilityOf variance in
  let excessReturn := sub (div totalReturnPercent (Fin 100)) riskFreeRate in
  let sharpeRatio := div excessReturn (div volatility (Fin 100)) in
  peak0 <- prop (index snapshots 0) totalValue ;;
  let '(maxDrawdown, _) := reduce drawdownStep (Fin 0, peak0) snapshots in
  Ok (PerformanceMetrics.mk
        totalReturn totalReturnPercent
        dailyReturn dailyReturnPercent
        monthlyReturn monthlyReturnPercent
        ytdReturn ytdReturnPercent
        volatility sharpeRatio maxDrawdown
        (Fin 0.95)).

End Metrics.

(* ================================================================= *)
(** ** Insertion-ordered tables and sorting *)

(** A [Map] with string keys, and the own string-keyed properties of a plain
    object, are association lists in insertion order: an update keeps the
    place of the key, a new key goes last. *)
Fixpoint assoc_get {V : Type} (k : string) (m : list (string * V)) : option V :=
  match m with
  | [] => None
  | (k', v) :: m' => if String.eqb k k' then Some v else assoc_get k m'
  end.

Fixpoint assoc_set {V : Type} (k : string) (v : V) (m : list (string * V))
  : list (string * V) :=
  match m with
  | [] => [(k, v)]
  | (k', v') :: m' =>
      if String.eqb k k' then (k', v) :: m' else (k', v') :: assoc_set k v m'
  end.

(** [Array.prototype.sort(compareFn)]: a stable sort, an element moving
    behind another one only when [compareFn] says so with a result [> 0]
    (a [NaN] result counts as [0]).  For a comparator that is not a
    consistent order the engine's result is implementation-defined; the
    model then still returns a permutation. *)
Fixpoint sort_insert {A : Type} (compareFn : A -> A -> num) (x : A) (l : list A)
  : list A :=
  match l with
  | [] => [x]
  | y :: l' =>
      if gt (compareFn x y) (Fin 0%R)
      then y :: sort_insert compareFn x l'
      else x :: l
  end.

Fixpoint Array_sort {A : Type} (compareFn : A -> A -> num) (l : list A) : list A :=
  match l with
  | [] => []
  | x :: l' => sort_insert compareFn x (Array_sort compareFn l')
  end.

(* ================================================================= *)
(** ** The allocation engine *)

Module SectorAllocation.
Record t : Type := mk {
  sector : string;
  value : num;
  percentage : num;
  count : num
}.
End SectorAllocation.

Module AssetAllocation.
Record t : Type := mk {
  assetType : string;
  value : num;
  percentage : num
}.
End AssetAllocation.

Module Allocation.

Import Metrics.

(** The string behind an asset-type tag. *)
Definition AssetType_str (a : AssetType) : string :=
  match a with
  | stock => "stock"
  | etf => "etf"
  | bond => "bond"
  | crypto => "crypto"
  | cash => "cash"
  end.

(** The entry of [sectorMap]: [{ value, count }]. *)
Definition sectorData : Type := (num * num)%type.

(** The body of the [forEach] of [calculateSectorAllocations]. *)
Definition sectorStep (sectorMap : list (string * sectorData)) (position : Position.t)
  : list (string * sectorData) :=
  let existing :=
    match assoc_get (Position.sector position) sectorMap with
    | Some d => d
    | None => (Fin 0%R, Fin 0%R)
    end in
  assoc_set (Position.sector position)
            (add (fst existing) (Position.marketValue position),
             add (snd existing) (Fin 1%R))
            sectorMap.

Definition calculateSectorAllocations (positions : list Position.t)
  : list SectorAllocation.t :=
  let totalValue := sumMarketValue positions in
  let sectorMap := fold_left sectorStep positions [] in
  Array_sort
    (fun a b => sub (SectorAllocation.value b) (SectorAllocation.value a))
    (map (fun '(sector, data) =>
            SectorAllocation.mk sector (fst data)
              (mul (div (fst data) totalValue) (Fin 100%R))
              (snd data))
         sectorMap).

(** The body of the [forEach] of [calculateAssetAllocations]. *)
Definition assetStep (assetMap : list (string * num)) (position : Position.t)
  : list (string * num) :=
  let key := AssetType_str (Position.assetType position) in
  let existing := or_num (assoc_get key assetMap) (Fin 0%R) in
  assoc_set key (add existing (Position.marketValue position)) assetMap.

Definition calculateAssetAllocations (positions : list Position.t)
  : list AssetAllocation.t :=
  let totalValue := sumMarketValue positions in
  let assetMap := fold_left assetStep positions [] in
  Array_sort
    (fun a b => sub (AssetAllocation.value b) (AssetAllocation.value a))
    (map (fun '(assetType, value) =>
            AssetAllocation.mk assetType value
              (mul (div value totalValue) (Fin 100%R)))
         assetMap).

End Allocation.

(* ================================================================= *)
(** ** The snapshot generator ([generateMockHistoricalSnapshots]) *)

Module Generator.

Import Metrics.
Local Open Scope R_scope.

Definition daysBack : nat := 365.

(** Milliseconds in a day: [date.setDate(date.getDate() - i)] moves the
    clock reading [now] back by [i] days. *)
Definition msPerDay : Z := 86400000.

(** [{ ...p, currentPrice: p.currentPrice / growthFactor,
       marketValue: p.marketValue / growthFactor }] *)
Definition scalePosition (growthFactor : num) (p : Position.t) : Position.t :=
  Position.mk (Position.symbol p) (Position.name p) (Position.quantity p)
              (Position.costBasis p)
              (div (Position.currentPrice p) growthFactor)
              (div (Position.marketValue p) growthFactor)
              (Position.gainLoss p) (Position.gainLossPercent p)
              (Position.sector p) (Position.assetType p).

(** One turn of the [for] loop.  [Math.random()] is the [k]-th draw of the
    source of randomness [rnd]; the state is the array built so far and the
    number of draws made. *)
Definition genStep (now : Z) (rnd : nat -> R) (positions : list Position.t)
           (totalValue : num)
           (st : list PortfolioSnapshot.t * nat) (i : nat)
  : list PortfolioSnapshot.t * nat :=
  let '(snapshots, k) := st in
  let date : Date := Some (now - Z.of_nat i * msPerDay)%Z in
  let growthFactor :=
    add (add (Fin 1) (mul (sub (of_nat daysBack) (of_nat i)) (Fin 0.0003)))
        (mul (sub (Fin (rnd k)) (Fin 0.5)) (Fin 0.02)) in
  let snapshotValue := div totalValue growthFactor in
  let cashBalance := add (Fin 5000) (mul (Fin (rnd (S k))) (Fin 2000)) in
  (snapshots ++
     [PortfolioSnapshot.mk date snapshotValue cashBalance
        (map (scalePosition growthFactor) positions)],
   S (S k)).

(** The values of [i] the loop runs through: [daysBack], ..., [1], [0]. *)
Definition loopIndices : list nat := rev (seq 0 (S daysBack)).

Definition generateMockHistoricalSnapshots (now : Z) (rnd : nat -> R)
           (positions : list Position.t) : list PortfolioSnapshot.t :=
  let totalValue := sumMarketValue positions in
  fst (fold_left (genStep now rnd positions totalValue) loopIndices ([], O)).

End Generator.

(* ================================================================= *)
(** ** Strings *)

(** A string is the sequence of its code units.  [String.prototype.toLowerCase]
    maps every cased code point of Unicode and is not defined here: the code
    that calls it takes it as the parameter [toLowerCase].  What it does on
    a string of ASCII characters is [toLowerCaseASCII]: the letters [A]-[Z]
    become [a]-[z] and every other character stays. *)
Definition lower_ascii (c : ascii) : ascii :=
  let n := nat_of_ascii c in
  if ((65 <=? n) && (n <=? 90))%nat then ascii_of_nat (n + 32) else c.

Fixpoint toLowerCaseASCII (s : string) : string :=
  match s with
  | EmptyString => EmptyString
  | String c s' => String (lower_ascii c) (toLowerCaseASCII s')
  end.

(** The strings all of whose characters are ASCII characters. *)
Fixpoint is_ascii_string (s : string) : bool :=
  match s with
  | EmptyString => true
  | String c s' => (nat_of_ascii c <? 128)%nat && is_ascii_string s'
  end.

(** [toLowerCase] is [String.prototype.toLowerCase] as far as ASCII strings
    tell. *)
Definition lowers_ascii (toLowerCase : string -> string) : Prop :=
  forall s, is_ascii_string s = true -> toLowerCase s = toLowerCaseASCII s.

(** [s.startsWith(q)] *)
Fixpoint startsWith (s q : string) : bool :=
  match q, s with
  | EmptyString, _ => true
  | String c q', String d s' => Ascii.eqb c d && startsWith s' q'
  | String _ _, EmptyString => false
  end.

(** [s.includes(q)] *)
Fixpoint includes (s q : string) : bool :=
  startsWith s q ||
  match s with
  | EmptyString => false
  | String _ s' => includes s' q
  end.

(* ================================================================= *)
(** ** Transaction analytics ([TransactionsPage]) *)

(** The [type] of a transaction: ['buy' | 'sell' | 'dividend']. *)
Inductive TxType : Type := buy | sell | dividend.

(** [type TransactionType = 'all' | 'buy' | 'sell' | 'dividend'], the type
    of the filter choice. *)
Inductive TransactionType : Type :=
| all
| only (ty : TxType).

Module Transaction.
Record t : Type := mk {
  id : string;
  date : Date;
  symbol : string;
  type : TxType;
  quantity : num;
  price : num;
  total : num;
  fees : num
}.
End Transaction.

(** What the accumulator of the ranking holds under a key, and so the
    [total] of an entry of the ranking: a number, or a string.  A string is
    met only for a symbol that names a member of [Object.prototype]; its
    text is not modelled: it starts with the text of a function, so that it
    is never empty and never reads as a number. *)
Inductive jsvalue : Type :=
| Number (x : num)
| Text.

(** [ToNumber] *)
Definition ToNumber (v : jsvalue) : num :=
  match v with
  | Number x => x
  | Text => NaN
  end.

(** An entry of the ranking of the most traded symbols. *)
Module TopTraded.
Record t : Type := mk {
  symbol : string;
  total : jsvalue
}.
End TopTraded.

Module Transactions.

Import Transaction.

Definition TxType_eqb (a b : TxType) : bool :=
  match a, b with
  | buy, buy | sell, sell | dividend, dividend => true
  | _, _ => false
  end.

(** The filter state of the page: the five [useState] cells read by the
    filter. *)
Record FilterState : Type := mkFilter {
  filterType : TransactionType;
  filterSymbol : string;
  searchQuery : string;
  dateFrom : string;
  dateTo : string
}.

(** The initial state: no predicate chosen. *)
Definition noFilter : FilterState :=
  mkFilter all "all" EmptyString EmptyString EmptyString.

(** The callback of [transactions.filter].  [newDate s] is [new Date(s)] on
    a string: the date it parses to, invalid when it does not parse;
    [toLowerCase s] is [s.toLowerCase()]. *)
Definition matchesFilter (newDate : string -> Date) (toLowerCase : string -> string)
           (f : FilterState) (transaction : t) : bool :=
  let matchesType :=
    match filterType f with
    | all => true
    | only ty => TxType_eqb (type transaction) ty
    end in
  let matchesSymbol :=
    String.eqb (filterSymbol f) "all" ||
    String.eqb (symbol transaction) (filterSymbol f) in
  let matchesSearch :=
    String.eqb (searchQuery f) EmptyString ||
    includes (toLowerCase (symbol transaction)) (toLowerCase (searchQuery f)) ||
    includes (toLowerCase (id transaction)) (toLowerCase (searchQuery f)) in
  let transactionDate : Date := date transaction in
  let matchesDateFrom :=
    String.eqb (dateFrom f) EmptyString || date_ge transactionDate (newDate (dateFrom f)) in
  let matchesDateTo :=
    String.eqb (dateTo f) EmptyString || date_le transactionDate (newDate (dateTo f)) in
  matchesType && matchesSymbol && matchesSearch && matchesDateFrom && matchesDateTo.

Definition filteredTransactions (newDate : string -> Date)
           (toLowerCase : string -> string) (f : FilterState)
           (transactions : list t) : list t :=
  filter (matchesFilter newDate toLowerCase f) transactions.

(** *** Most traded stocks *)

(** The names of the members of [Object.prototype], which the accumulator
    [{}] inherits: functions, and the accessor [__proto__], whose getter
    gives an object and whose setter ignores a number or a string. *)
Definition Object_prototype : list string :=
  [ "constructor"; "__defineGetter__"; "__defineSetter__"; "hasOwnProperty";
    "__lookupGetter__"; "__lookupSetter__"; "isPrototypeOf";
    "propertyIsEnumerable"; "toString"; "valueOf"; "__proto__";
    "toLocaleString" ]%string.

Definition inherited (k : string) : bool :=
  existsb (String.eqb k) Object_prototype.

(** What [acc[k]] reads: an own property of the accumulator, else a member
    of [Object.prototype] (a function or an object), else [undefined]. *)
Inductive property : Type :=
| Own (v : jsvalue)
| Inherited
| Undefined.

Definition Get (acc : list (string * jsvalue)) (k : string) : property :=
  match assoc_get k acc with
  | Some v => Own v
  | None => if inherited k then Inherited else Undefined
  end.

(** [!x]: [undefined], [0] and [NaN] are falsy; a function, an object and a
    string that is not empty are not. *)
Definition falsy_prop (x : property) : bool :=
  match x with
  | Own (Number v) => negb (truthy v)
  | Own Text => false
  | Inherited => false
  | Undefined => true
  end.

(** [x + v] for a number [v]: the sum of two numbers; the concatenation of
    two strings when [x] is a string, a function or an object. *)
Definition plus (x : property) (v : num) : jsvalue :=
  match x with
  | Own (Number a) => Number (add a v)
  | Own Text => Text
  | Inherited => Text
  | Undefined => Number NaN
  end.

(** [acc[k] = v] for a number or a string [v]: an own property is made or
    updated, but for the key [__proto__], whose setter ignores [v]. *)
Definition Put (k : string) (v : jsvalue) (acc : list (string * jsvalue))
  : list (string * jsvalue) :=
  if String.eqb k "__proto__" then acc else assoc_set k v acc.

(** The callback of the [reduce] that builds [symbolVolume]:
    [if (!acc[t.symbol]) acc[t.symbol] = 0; acc[t.symbol] += t.total]. *)
Definition volumeStep (acc : list (string * jsvalue)) (t0 : t)
  : list (string * jsvalue) :=
  let acc1 :=
    if falsy_prop (Get acc (symbol t0))
    then Put (symbol t0) (Number (Fin 0%R)) acc
    else acc in
  Put (symbol t0) (plus (Get acc1 (symbol t0)) (total t0)) acc1.

Definition symbolVolume (transactions : list t) : list (string * jsvalue) :=
  reduce volumeStep [] transactions.

(** The value of a decimal digit. *)
Definition digit (c : ascii) : option N :=
  let n := N_of_ascii c in
  if ((48 <=? n) && (n <=? 57))%N then Some (n - 48)%N else None.

Fixpoint digits_value (acc : N) (s : string) : option N :=
  match s with
  | EmptyString => Some acc
  | String c s' =>
      match digit c with
      | Some d => digits_value (acc * 10 + d)%N s'
      | None => None
      end
  end.

(** A property key is an array index when it is the canonical decimal
    writing of an integer between [0] and [2^32 - 2]. *)
Definition array_index (s : string) : option N :=
  match s with
  | EmptyString => None
  | String "0"%char EmptyString => Some 0%N
  | String "0"%char _ => None
  | _ =>
      match digits_value 0 s with
      | Some n => if (n <? 4294967295)%N then Some n else None
      | None => None
      end
  end.

Definition is_array_index (s : string) : bool :=
  match array_index s with Some _ => true | None => false end.

Fixpoint insert_index {V : Type} (n : N) (kv : string * V)
         (l : list (N * (string * V))) : list (N * (string * V)) :=
  match l with
  | [] => [(n, kv)]
  | (m, kv') :: l' =>
      if (n <? m)%N then (n, kv) :: l else (m, kv') :: insert_index n kv l'
  end.

(** The properties whose key is an array index, by ascending index. *)
Fixpoint index_props {V : Type} (o : list (string * V)) : list (N * (string * V)) :=
  match o with
  | [] => []
  | kv :: o' =>
      match array_index (fst kv) with
      | Some n => insert_index n kv (index_props o')
      | None => index_props o'
      end
  end.

(** [Object.entries(o)]: the array-index keys first, in ascending numeric
    order, then the other keys in the order of their creation. *)
Definition Object_entries {V : Type} (o : list (string * V)) : list (string * V) :=
  map snd (index_props o) ++ filter (fun kv => negb (is_array_index (fst kv))) o.

(** [.slice(0, n)] *)
Definition slice0 {A : Type} (n : nat) (a : list A) : list A := firstn n a.

Definition topTradedStocks (transactions : list t) : list TopTraded.t :=
  slice0 5
    (Array_sort
       (fun a b => sub (ToNumber (TopTraded.total b)) (ToNumber (TopTraded.total a)))
       (map (fun '(symbol, total) => TopTraded.mk symbol total)
            (Object_entries (symbolVolume transactions)))).

End Transactions.

(* ================================================================= *)
(** * The allocation engine and the snapshot generator over any arithmetic

    The numbers of [Num] are exact, and sums and quotients of exact numbers
    obey laws that the numbers of the program do not: in binary64 every
    operation rounds.  The two functions whose properties depend on it,
    [calculateSectorAllocations] and [generateMockHistoricalSnapshots], are
    therefore embedded here over a number type and operations that are
    parameters.  What is proved of them for every arithmetic holds of the
    program; [Exact] is the arithmetic of [Num] and [Binary64] that of the
    floating-point numbers of the kernel, which are the binary64 numbers of
    IEEE 754, rounded to nearest, ties to even, as those of JavaScript. *)

Module Arithmetic.

(** The numeric literals the two functions write. *)
Inductive literal : Type :=
| lit_0 | lit_1 | lit_100 | lit_0_0003 | lit_0_5 | lit_0_02 | lit_5000 | lit_2000.

Record t : Type := mk {
  number : Type;
  lit : literal -> number;
  (** an integer of the source, such as a loop counter, as a number *)
  of_nat : nat -> number;
  add : number -> number -> number;
  sub : number -> number -> number;
  mul : number -> number -> number;
  div : number -> number -> number;
  (** [x > y] *)
  gt : number -> number -> bool
}.

End Arithmetic.

(** The arithmetic of [Num]. *)
Definition Exact : Arithmetic.t :=
  Arithmetic.mk num
    (fun l => match l with
              | Arithmetic.lit_0 => Fin 0%R
              | Arithmetic.lit_1 => Fin 1%R
              | Arithmetic.lit_100 => Fin 100%R
              | Arithmetic.lit_0_0003 => Fin 0.0003%R
              | Arithmetic.lit_0_5 => Fin 0.5%R
              | Arithmetic.lit_0_02 => Fin 0.02%R
              | Arithmetic.lit_5000 => Fin 5000%R
              | Arithmetic.lit_2000 => Fin 2000%R
              end)
    Num.of_nat Num.add Num.sub Num.mul Num.div Num.gt.

(** The arithmetic of the program: a literal is the binary64 number nearest
    to what is written. *)
Module Binary64.
Import PrimFloat.
Set Warnings "-inexact-float".
Definition arithmetic : Arithmetic.t :=
  Arithmetic.mk float
    (fun l => match l with
              | Arithmetic.lit_0 => 0%float
              | Arithmetic.lit_1 => 1%float
              | Arithmetic.lit_100 => 100%float
              | Arithmetic.lit_0_0003 => 0.0003%float
              | Arithmetic.lit_0_5 => 0.5%float
              | Arithmetic.lit_0_02 => 0.02%float
              | Arithmetic.lit_5000 => 5000%float
              | Arithmetic.lit_2000 => 2000%float
              end)
    (fun n => PrimFloat.of_uint63 (Uint63.of_Z (Z.of_nat n)))
    PrimFloat.add PrimFloat.sub PrimFloat.mul PrimFloat.div
    (fun x y => PrimFloat.ltb y x).
Set Warnings "+inexact-float".
End Binary64.

Module Generic.

(** The data model, the numbers being of any type. *)
Module Position.
Record t (number : Type) : Type := mk {
  symbol : string;
  name : string;
  quantity : number;
  costBasis : number;
  currentPrice : number;
  marketValue : number;
  gainLoss : number;
  gainLossPercent : number;
  sector : string;
  assetType : AssetType
}.
Arguments mk {number}.
Arguments symbol {number}.
Arguments name {number}.
Arguments quantity {number}.
Arguments costBasis {number}.
Arguments currentPrice {number}.
Arguments marketValue {number}.
Arguments gainLoss {number}.
Arguments gainLossPercent {number}.
Arguments sector {number}.
Arguments assetType {number}.
End Position.

Module PortfolioSnapshot.
Record t (number : Type) : Type := mk {
  date : Date;
  totalValue : number;
  cashBalance : number;
  positions : list (Position.t number)
}.
Arguments mk {number}.
Arguments date {number}.
Arguments totalValue {number}.
Arguments cashBalance {number}.
Arguments positions {number}.
End PortfolioSnapshot.

Module SectorAllocation.
Record t (number : Type) : Type := mk {
  sector : string;
  value : number;
  percentage : number;
  count : number
}.
Arguments mk {number}.
Arguments sector {number}.
Arguments value {number}.
Arguments percentage {number}.
Arguments count {number}.
End SectorAllocation.

(** [Array.prototype.sort(compareFn)] as [Array_sort], the test
    [compareFn(x, y) > 0] being the parameter [after]. *)
Fixpoint sort_insert {A : Type} (after : A -> A -> bool) (x : A) (l : list A)
  : list A :=
  match l with
  | [] => [x]
  | y :: l' => if after x y then y :: sort_insert after x l' else x :: l
  end.

Fixpoint Array_sort {A : Type} (after : A -> A -> bool) (l : list A) : list A :=
  match l with
  | [] => []
  | x :: l' => sort_insert after x (Array_sort after l')
  end.

Section Code.

Variable N : Arithmetic.t.

Local Abbreviation number := (Arithmetic.number N).
Local Abbreviation lit := (Arithmetic.lit N).
Local Abbreviation add := (Arithmetic.add N).
Local Abbreviation sub := (Arithmetic.sub N).
Local Abbreviation mul := (Arithmetic.mul N).
Local Abbreviation div := (Arithmetic.div N).
Local Abbreviation gt := (Arithmetic.gt N).

(** [positions.reduce((sum, p) => sum + p.marketValue, 0)] *)
Definition sumMarketValue (positions : list (Position.t number)) : number :=
  reduce (fun sum p => add sum (Position.marketValue p)) (lit Arithmetic.lit_0)
         positions.

(** [a.reduce((sum, x) => sum + x.value, 0)] *)
Definition sumValue (a : list (SectorAllocation.t number)) : number :=
  reduce (fun sum x => add sum (SectorAllocation.value x)) (lit Arithmetic.lit_0) a.

(** The body of the [forEach] of [calculateSectorAllocations]. *)
Definition sectorStep (sectorMap : list (string * (number * number)))
           (position : Position.t number) : list (string * (number * number)) :=
  let existing :=
    match assoc_get (Position.sector position) sectorMap with
    | Some d => d
    | None => (lit Arithmetic.lit_0, lit Arithmetic.lit_0)
    end in
  assoc_set (Position.sector position)
            (add (fst existing) (Position.marketValue position),
             add (snd existing) (lit Arithmetic.lit_1))
            sectorMap.

Definition calculateSectorAllocations (positions : list (Position.t number))
  : list (SectorAllocation.t number) :=
  let totalValue := sumMarketValue positions in
  let sectorMap := fold_left sectorStep positions [] in
  Array_sort
    (fun a b => gt (sub (SectorAllocation.value b) (SectorAllocation.value a))
                   (lit Arithmetic.lit_0))
    (map (fun '(sector, data) =>
            SectorAllocation.mk sector (fst data)
              (mul (div (fst data) totalValue) (lit Arithmetic.lit_100))
              (snd data))
         sectorMap).

(** [{ ...p, currentPrice: p.currentPrice / growthFactor,
       marketValue: p.marketValue / growthFactor }] *)
Definition scalePosition (growthFactor : number) (p : Position.t number)
  : Position.t number :=
  Position.mk (Position.symbol p) (Position.name p) (Position.quantity p)
              (Position.costBasis p)
              (div (Position.currentPrice p) growthFactor)
              (div (Position.marketValue p) growthFactor)
              (Position.gainLoss p) (Position.gainLossPercent p)
              (Position.sector p) (Position.assetType p).

(** [1 + (daysBack - i) * 0.0003 + (Math.random() - 0.5) * 0.02], [random]
    being the number drawn. *)
Definition growthFactor (i : nat) (random : number) : number :=
  add (add (lit Arithmetic.lit_1)
           (mul (sub (Arithmetic.of_nat N Generator.daysBack) (Arithmetic.of_nat N i))
                (lit Arithmetic.lit_0_0003)))
      (mul (sub random (lit Arithmetic.lit_0_5)) (lit Arithmetic.lit_0_02)).

(** One turn of the [for] loop, [rnd k] being the [k]-th number drawn; the
    state is the array built so far and the number of draws made. *)
Definition genStep (now : Z) (rnd : nat -> number)
           (positions : list (Position.t number)) (totalValue : number)
           (st : list (PortfolioSnapshot.t number) * nat) (i : nat)
  : list (PortfolioSnapshot.t number) * nat :=
  let '(snapshots, k) := st in
  let date : Date := Some (now - Z.of_nat i * Generator.msPerDay)%Z in
  let growthFactor := growthFactor i (rnd k) in
  let snapshotValue := div totalValue growthFactor in
  let cashBalance :=
    add (lit Arithmetic.lit_5000) (mul (rnd (S k)) (lit Arithmetic.lit_2000)) in
  (snapshots ++
     [PortfolioSnapshot.mk date snapshotValue cashBalance
        (map (scalePosition growthFactor) positions)],
   S (S k)).

Definition generateMockHistoricalSnapshots (now : Z) (rnd : nat -> number)
           (positions : list (Position.t number))
  : list (PortfolioSnapshot.t number) :=
  let totalValue := sumMarketValue positions in
  fst (fold_left (genStep now rnd positions totalValue) Generator.loopIndices ([], O)).

(** The positions of the sector [s]. *)
Definition inSector (s : string) (positions : list (Position.t number))
  : list (Position.t number) :=
  filter (fun p => String.eqb (Position.sector p) s) positions.

(** The count the code keeps for [n] positions: [0 + 1 + ... + 1]. *)
Definition counted (positions : list (Position.t number)) : number :=
  fold_left (fun c _ => add c (lit Arithmetic.lit_1)) positions (lit Arithmetic.lit_0).

(** The snapshot of the day [i] days back, for the two numbers drawn on
    that day. *)
Definition snapshotOfDay (now : Z) (positions : list (Position.t number))
           (i : nat) (random random' : number) : PortfolioSnapshot.t number :=
  PortfolioSnapshot.mk (Some (now - Z.of_nat i * Generator.msPerDay)%Z)
    (div (sumMarketValue positions) (growthFactor i random))
    (add (lit Arithmetic.lit_5000) (mul random' (lit Arithmetic.lit_2000)))
    (map (scalePosition (growthFactor i random)) positions).

End Code.

End Generic.

(** The records of the exact model, read as records over [num]. *)
Definition exact_position (p : Position.t) : Generic.Position.t num :=
  Generic.Position.mk (Position.symbol p) (Position.name p) (Position.quantity p)
    (Position.costBasis p) (Position.currentPrice p) (Position.marketValue p)
    (Position.gainLoss p) (Position.gainLossPercent p) (Position.sector p)
    (Position.assetType p).

Definition exact_allocation (a : SectorAllocation.t) : Generic.SectorAllocation.t num :=
  Generic.SectorAllocation.mk (SectorAllocation.sector a) (SectorAllocation.value a)
    (SectorAllocation.percentage a) (SectorAllocation.count a).

Definition exact_snapshot (s : PortfolioSnapshot.t) : Generic.PortfolioSnapshot.t num :=
  Generic.PortfolioSnapshot.mk (PortfolioSnapshot.date s)
    (PortfolioSnapshot.totalValue s) (PortfolioSnapshot.cashBalance s)
    (map exact_position (PortfolioSnapshot.positions s)).


(* ================================================================= *)
(** ** More of the runtime: rounding, indexing by a number, dates *)

(** [Math.floor] *)
Definition Math_floor (x : num) : num :=
  match x with
  | Fin a => Fin (IZR (Int_part a))
  | _ => x
  end.

(** [a[x]] for a number [x]: a property that exists only when [x] is an
    integer within the array. *)
Definition index_num {A : Type} (a : list A) (x : num) : option A :=
  match x with
  | Fin r =>
      match Rcmp (IZR (Int_part r)) r with
      | Eq => index a (Int_part r)
      | _ => None
      end
  | _ => None
  end.

(** [d.getTime()] *)
Definition Date_getTime (d : Date) : num :=
  match d with
  | Some z => Fin (IZR z)
  | None => NaN
  end.

(** [Math.abs] *)
Definition Math_abs (x : num) : num :=
  match x with
  | Fin a => Fin (Rabs a)
  | PInf | NInf => PInf
  | NaN => NaN
  end.

(** [d = new Date(); d.setDate(d.getDate() - n)] for the clock reading
    [now]: [n] days back, [n] being an integer at every call of the source;
    an invalid date when [n] is not a finite number. *)
Definition Date_daysBefore (now : Z) (n : num) : Date :=
  match n with
  | Fin r => Some (now - Int_part r * 86400000)%Z
  | _ => None
  end.

(** [`${i}`] for a natural number [i]. *)
Definition string_of_nat (i : nat) : string :=
  NilEmpty.string_of_uint (Nat.to_uint i).

(* ================================================================= *)
(** ** The mock data ([generateMockPositions], [generateMockTransactions],
       [generateMockPortfolioData]) *)

Module MockStock.
Record t : Type := mk {
  symbol : string;
  name : string;
  sector : string;
  type : AssetType
}.
End MockStock.

Module PortfolioData.
Record t : Type := mk {
  currentSnapshot : PortfolioSnapshot.t;
  historicalSnapshots : list PortfolioSnapshot.t;
  transactions : list Transaction.t;
  metrics : PerformanceMetrics.t;
  sectorAllocations : list SectorAllocation.t;
  assetAllocations : list AssetAllocation.t
}.
End PortfolioData.

Module MockData.

Local Open Scope R_scope.

Definition mockStocks : list MockStock.t :=
  [ MockStock.mk "AAPL" "Apple Inc." "Technology" stock;
    MockStock.mk "MSFT" "Microsoft Corporation" "Technology" stock;
    MockStock.mk "GOOGL" "Alphabet Inc." "Technology" stock;
    MockStock.mk "AMZN" "Amazon.com Inc." "Consumer Cyclical" stock;
    MockStock.mk "NVDA" "NVIDIA Corporation" "Technology" stock;
    MockStock.mk "JPM" "JPMorgan Chase & Co." "Financial Services" stock;
    MockStock.mk "V" "Visa Inc." "Financial Services" stock;
    MockStock.mk "JNJ" "Johnson & Johnson" "Healthcare" stock;
    MockStock.mk "PG" "Procter & Gamble Co." "Consumer Defensive" stock;
    MockStock.mk "XOM" "Exxon Mobil Corporation" "Energy" stock;
    MockStock.mk "SPY" "SPDR S&P 500 ETF" "Diversified" etf;
    MockStock.mk "QQQ" "Invesco QQQ Trust" "Technology" etf ].

(** [generateRandomPrice(base, volatility)], [r] being the draw of
    [Math.random()]. *)
Definition generateRandomPrice (r : R) (base volatility : num) : num :=
  mul base (add (Fin 1) (mul (sub (Fin r) (Fin 0.5)) volatility)).

(** The callback of the [map] of [generateMockPositions], on the stock of
    index [idx]; it draws twice, from the [k]-th draw on. *)
Definition mockPosition (rnd : nat -> R) (k : nat) (stock : MockStock.t) (idx : nat)
  : Position.t :=
  let basePrice := add (Fin 100) (mul (of_nat idx) (Fin 50)) in
  let quantity := add (Math_floor (mul (Fin (rnd k)) (Fin 50))) (Fin 10) in
  let costBasis := mul basePrice quantity in
  let currentPrice := generateRandomPrice (rnd (S k)) basePrice (Fin 0.15) in
  let marketValue := mul currentPrice quantity in
  let gainLoss := sub marketValue costBasis in
  let gainLossPercent := mul (div gainLoss costBasis) (Fin 100) in
  Position.mk (MockStock.symbol stock) (MockStock.name stock)
              quantity (div costBasis quantity) currentPrice marketValue
              gainLoss gainLossPercent
              (MockStock.sector stock) (MockStock.type stock).

(** [stocks.map((stock, idx) => ...)], the draws being made in the order of
    the array. *)
Fixpoint mapPositions (rnd : nat -> R) (k : nat) (idx : nat) (stocks : list MockStock.t)
  : list Position.t * nat :=
  match stocks with
  | [] => ([], k)
  | s0 :: stocks' =>
      let p := mockPosition rnd k s0 idx in
      let '(ps, k') := mapPositions rnd (S (S k)) (S idx) stocks' in
      (p :: ps, k')
  end.

(** [generateMockPositions()], from the [k]-th draw on; the number of
    draws made comes with the result. *)
Definition generateMockPositions (rnd : nat -> R) (k : nat) : list Position.t * nat :=
  mapPositions rnd k 0 (Transactions.slice0 10 mockStocks).

(** One turn of the loop of [generateMockTransactions]: five draws. *)
Definition mockTransaction (now : Z) (rnd : nat -> R) (k : nat)
           (stocks : list MockStock.t) (i : nat) : result Transaction.t :=
  let daysAgo := Math_floor (mul (Fin (rnd k)) (Fin 365)) in
  let date := Date_daysBefore now daysAgo in
  let stock :=
    index_num stocks
      (Math_floor (mul (Fin (rnd (S k))) (of_nat (List.length stocks)))) in
  let isBuy := gt (Fin (rnd (S (S k)))) (Fin 0.3) in
  let quantity := add (Math_floor (mul (Fin (rnd (S (S (S k))))) (Fin 20))) (Fin 1) in
  let price := add (Fin 100) (mul (Fin (rnd (S (S (S (S k)))))) (Fin 300)) in
  let total := mul quantity price in
  symbol <- prop stock MockStock.symbol ;;
  Ok (Transaction.mk (String.append "txn-" (string_of_nat i)) date symbol
        (if isBuy then buy else sell)
        quantity price total (mul total (Fin 0.001))).

(** The loop [for (let i = 0; i < n; i++)], from [i] on, pushing to
    [transactions]. *)
Fixpoint transactionsLoop (now : Z) (rnd : nat -> R) (stocks : list MockStock.t)
         (n : nat) (i : nat) (k : nat) (transactions : list Transaction.t)
  : result (list Transaction.t * nat) :=
  match n with
  | O => Ok (transactions, k)
  | S n' =>
      t0 <- mockTransaction now rnd k stocks i ;;
      transactionsLoop now rnd stocks n' (S i) (5 + k) (transactions ++ [t0])
  end.

Definition generateMockTransactions (now : Z) (rnd : nat -> R) (k : nat)
  : result (list Transaction.t * nat) :=
  let stocks := Transactions.slice0 8 mockStocks in
  r <- transactionsLoop now rnd stocks 50 0 k [] ;;
  let '(transactions, k') := r in
  Ok (Array_sort
        (fun a b => sub (Date_getTime (Transaction.date b))
                        (Date_getTime (Transaction.date a)))
        transactions,
      k').

(** [generateMockPortfolioData()]: the positions, then the transactions,
    then the history, each taking its draws after the former. *)
Definition generateMockPortfolioData (now : Z) (yearStart : Date) (rnd : nat -> R)
  : result PortfolioData.t :=
  let '(positions, k1) := generateMockPositions rnd 0 in
  r <- generateMockTransactions now rnd k1 ;;
  let '(transactions, k2) := r in
  let historicalSnapshots :=
    Generator.generateMockHistoricalSnapshots now (fun k => rnd (k2 + k)%nat) positions in
  metrics <- Metrics.calculateMockMetrics yearStart positions historicalSnapshots ;;
  let sectorAllocations := Allocation.calculateSectorAllocations positions in
  let assetAllocations := Allocation.calculateAssetAllocations positions in
  let currentSnapshot :=
    PortfolioSnapshot.mk (Some now) (Metrics.sumMarketValue positions) (Fin 7500)
                         positions in
  Ok (PortfolioData.mk currentSnapshot historicalSnapshots transactions metrics
                       sectorAllocations assetAllocations).

End MockData.

(** What a transaction of the mock ledger looks like, [now] being the
    clock reading: a buy or a sell of one of the first eight stocks, dated
    within the last 365 days, of 1 to 20 units at a price from 100 to 400,
    its total being quantity x price and its fees a thousandth of it. *)
Definition mock_transaction (now : Z) (t0 : Transaction.t) : Prop :=
  (Transaction.type t0 = buy \/ Transaction.type t0 = sell) /\
  In (Transaction.symbol t0)
     ["AAPL"; "MSFT"; "GOOGL"; "AMZN"; "NVDA"; "JPM"; "V"; "JNJ"]%string /\
  (exists d : Z, (0 <= d <= 364)%Z /\
                 Transaction.date t0 = Some (now - d * 86400000)%Z) /\
  exists (q : Z) (pr : R),
    (1 <= q <= 20)%Z /\ (100 <= pr < 400)%R /\
    Transaction.quantity t0 = Fin (IZR q) /\
    Transaction.price t0 = Fin pr /\
    Transaction.total t0 = Fin (IZR q * pr)%R /\
    Transaction.fees t0 = Fin (IZR q * pr * 0.001)%R.

(** A ledger in the order of [generateMockTransactions]: the most recent
    date first. *)
Definition not_older (a b : Transaction.t) : Prop :=
  exists x y : Z, Transaction.date a = Some x /\ Transaction.date b = Some y /\
                  (y <= x)%Z.

(* ================================================================= *)
(** ** The statistics of the transactions page ([TransactionsPage]) *)

(** A slice of the pie chart of the transaction types. *)
Module TypeSlice.
Record t : Type := mk {
  name : string;
  value : nat;
  amount : num
}.
End TypeSlice.

Module TransactionsPage.

Import Transaction Transactions.

(** [set.add(x)]: a set lists its elements in the order of their first
    insertion. *)
Definition Set_add (s : list string) (x : string) : list string :=
  if existsb (String.eqb x) s then s else s ++ [x].

(** [Array.from(new Set(a))] *)
Definition Array_from_Set (a : list string) : list string :=
  fold_left Set_add a [].

(** The comparator of [a.sort()] on strings: the order of the code units. *)
Definition compareDefault (x y : string) : num :=
  match String.compare x y with
  | Lt => Fin (-1)%R
  | Eq => Fin 0%R
  | Gt => Fin 1%R
  end.

Definition uniqueSymbols (transactions : list t) : list string :=
  Array_sort compareDefault (Array_from_Set (map symbol transactions)).

(** [transactions.filter(t => t.type === ty)] *)
Definition ofType (ty : TxType) (transactions : list t) : list t :=
  filter (fun t0 => TxType_eqb (type t0) ty) transactions.

(** [a.reduce((sum, t) => sum + t.total, 0)] *)
Definition sumTotal (a : list t) : num :=
  reduce (fun sum t0 => add sum (total t0)) (Fin 0%R) a.

Definition totalBuys (transactions : list t) : nat :=
  List.length (ofType buy transactions).
Definition totalSells (transactions : list t) : nat :=
  List.length (ofType sell transactions).
Definition totalDividends (transactions : list t) : nat :=
  List.length (ofType dividend transactions).

Definition totalBuyAmount (transactions : list t) : num :=
  sumTotal (ofType buy transactions).
Definition totalSellAmount (transactions : list t) : num :=
  sumTotal (ofType sell transactions).
Definition totalDividendAmount (transactions : list t) : num :=
  sumTotal (ofType dividend transactions).


Definition transactionTypeData (transactions : list t) : list TypeSlice.t :=
  filter (fun item => (0 <? TypeSlice.value item)%nat)
    [ TypeSlice.mk "Buys" (totalBuys transactions) (totalBuyAmount transactions);
      TypeSlice.mk "Sells" (totalSells transactions) (totalSellAmount transactions);
      TypeSlice.mk "Dividends" (totalDividends transactions)
                   (totalDividendAmount transactions) ].



(** The widths, in percent, of the bars of the five most traded stocks:
    [(stock.total / topTradedStocks[0].total) * 100] for each of them. *)
Definition barWidths (transactions : list t) : result (list num) :=
  let top := topTradedStocks transactions in
  map_idx (fun entry _ =>
             first <- prop (index top 0) TopTraded.total ;;
             Ok (mul (div (ToNumber (TopTraded.total entry)) (ToNumber first)) (Fin 100%R)))
          top.

End TransactionsPage.

(* ================================================================= *)
(** ** The holdings page ([HoldingsPage]) *)

Module HoldingsPage.

Inductive SortField : Type :=
| by_symbol | by_marketValue | by_gainLoss | by_gainLossPercent | by_quantity.

Inductive SortDirection : Type := asc | desc.

Definition SortField_eqb (a b : SortField) : bool :=
  match a, b with
  | by_symbol, by_symbol | by_marketValue, by_marketValue
  | by_gainLoss, by_gainLoss | by_gainLossPercent, by_gainLossPercent
  | by_quantity, by_quantity => true
  | _, _ => false
  end.

(** The filter cells of the page. *)
Record FilterState : Type := mkFilter {
  filterSector : string;
  filterAssetType : string;
  searchQuery : string
}.

Definition noFilter : FilterState := mkFilter "all" "all" EmptyString.

(** The callback of [currentSnapshot.positions.filter]; [toLowerCase s] is
    [s.toLowerCase()]. *)
Definition matchesFilter (toLowerCase : string -> string) (f : FilterState)
           (position : Position.t) : bool :=
  let matchesSector :=
    String.eqb (filterSector f) "all" ||
    String.eqb (Position.sector position) (filterSector f) in
  let matchesAssetType :=
    String.eqb (filterAssetType f) "all" ||
    String.eqb (Allocation.AssetType_str (Position.assetType position))
               (filterAssetType f) in
  let matchesSearch :=
    String.eqb (searchQuery f) EmptyString ||
    includes (toLowerCase (Position.symbol position)) (toLowerCase (searchQuery f)) ||
    includes (toLowerCase (Position.name position)) (toLowerCase (searchQuery f)) in
  matchesSector && matchesAssetType && matchesSearch.

Definition filteredPositions (toLowerCase : string -> string) (f : FilterState)
           (positions : list Position.t) : list Position.t :=
  filter (matchesFilter toLowerCase f) positions.

(** [a[sortField]]: a string or a number. *)
Definition fieldOf (sortField : SortField) (p : Position.t) : string + num :=
  match sortField with
  | by_symbol => inl (Position.symbol p)
  | by_marketValue => inr (Position.marketValue p)
  | by_gainLoss => inr (Position.gainLoss p)
  | by_gainLossPercent => inr (Position.gainLossPercent p)
  | by_quantity => inr (Position.quantity p)
  end.

(** [x > y] on two strings or on two numbers, the strings in lower case as
    the comparator makes them. *)
Definition key_gt (toLowerCase : string -> string) (x y : string + num) : bool :=
  match x, y with
  | inl s, inl s' =>
      match String.compare (toLowerCase s) (toLowerCase s') with
      | Gt => true
      | _ => false
      end
  | inr a, inr b => gt a b
  | _, _ => false
  end.

(** The comparator of the sort. *)
Definition comparePositions (toLowerCase : string -> string)
           (sortField : SortField) (sortDirection : SortDirection)
           (a b : Position.t) : num :=
  let aValue := fieldOf sortField a in
  let bValue := fieldOf sortField b in
  match sortDirection with
  | asc => if key_gt toLowerCase aValue bValue then Fin 1%R else Fin (-1)%R
  | desc => if key_gt toLowerCase bValue aValue then Fin 1%R else Fin (-1)%R
  end.

Definition sortedPositions (toLowerCase : string -> string)
           (sortField : SortField) (sortDirection : SortDirection)
           (positions : list Position.t) : list Position.t :=
  Array_sort (comparePositions toLowerCase sortField sortDirection) positions.

(** [handleSort(field)]: the next sort field and direction. *)
Definition handleSort (st : SortField * SortDirection) (field : SortField)
  : SortField * SortDirection :=
  let '(sortField, sortDirection) := st in
  if SortField_eqb sortField field
  then (sortField, match sortDirection with asc => desc | desc => asc end)
  else (field, desc).

Definition totalGainLoss (positions : list Position.t) : num :=
  reduce (fun sum p => add sum (Position.gainLoss p)) (Fin 0%R) positions.

Definition totalCost (positions : list Position.t) : num :=
  reduce (fun sum p => add sum (mul (Position.costBasis p) (Position.quantity p)))
         (Fin 0%R) positions.

(** *** Winners and losers among the positions shown *)

(** [filteredPositions.filter(p => p.gainLoss > 0)] *)
Definition winners (filteredPositions : list Position.t) : list Position.t :=
  filter (fun p => gt (Position.gainLoss p) (Fin 0%R)) filteredPositions.

(** [filteredPositions.filter(p => p.gainLoss < 0)] *)
Definition losers (filteredPositions : list Position.t) : list Position.t :=
  filter (fun p => gt (Fin 0%R) (Position.gainLoss p)) filteredPositions.

Definition winnersValue (filteredPositions : list Position.t) : num :=
  reduce (fun sum p => add sum (Position.gainLoss p)) (Fin 0%R)
         (winners filteredPositions).

Definition losersValue (filteredPositions : list Position.t) : num :=
  Math_abs (reduce (fun sum p => add sum (Position.gainLoss p)) (Fin 0%R)
                   (losers filteredPositions)).

(** The widths, in percent, of the two bars. *)
Definition winnersWidth (filteredPositions : list Position.t) : num :=
  mul (div (winnersValue filteredPositions)
           (add (winnersValue filteredPositions) (losersValue filteredPositions)))
      (Fin 100%R).

Definition losersWidth (filteredPositions : list Position.t) : num :=
  mul (div (losersValue filteredPositions)
           (add (winnersValue filteredPositions) (losersValue filteredPositions)))
      (Fin 100%R).

(** [[...filteredPositions].sort((a, b) => b.gainLossPercent -
    a.gainLossPercent).slice(0, 5)] *)
Definition topPerformers (filteredPositions : list Position.t) : list Position.t :=
  Transactions.slice0 5
    (Array_sort (fun a b => sub (Position.gainLossPercent b)
                                (Position.gainLossPercent a))
                filteredPositions).

End HoldingsPage.

(* ================================================================= *)
(** ** The research, dashboard and analytics pages *)

(** A row of the screening table. *)
Module StockData.
Record t : Type := mk {
  symbol : string;
  name : string;
  sector : string;
  price : num;
  change : num;
  changePercent : num;
  marketCap : num;
  pe : num;
  dividend : num;
  volume : num;
  fiftyTwoWeekHigh : num;
  fiftyTwoWeekLow : num
}.
End StockData.

Module ResearchPage.

(** [handleStockSelection(symbol)]: the next selection. *)
Definition handleStockSelection (selectedStocks : list string) (symbol : string)
  : list string :=
  if existsb (String.eqb symbol) selectedStocks
  then filter (fun s => negb (String.eqb s symbol)) selectedStocks
  else if (List.length selectedStocks <? 4)%nat
       then selectedStocks ++ [symbol]
       else selectedStocks.

(** [mockStockData.filter(s => selectedStocks.includes(s.symbol))], for the
    table [stocks]. *)
Definition comparisonStocks (stocks : list StockData.t) (selectedStocks : list string)
  : list StockData.t :=
  filter (fun s => existsb (String.eqb (StockData.symbol s)) selectedStocks) stocks.

End ResearchPage.

Module ChartPoint.
Record t : Type := mk {
  date : string;
  value : num
}.
End ChartPoint.

Module DashboardPage.

(** [a.filter((_, idx) => idx % 7 === 0)], from the index [i] on. *)
Fixpoint everySeventh {A : Type} (i : nat) (a : list A) : list A :=
  match a with
  | [] => []
  | x :: a' =>
      if (i mod 7 =? 0)%nat then x :: everySeventh (S i) a' else everySeventh (S i) a'
  end.

(** The points of the performance chart; [dayLabel d] is
    [d.toLocaleDateString('en-US', { month: 'short', day: 'numeric' })]. *)
Definition performanceData (dayLabel : Date -> string)
           (historicalSnapshots : list PortfolioSnapshot.t) : list ChartPoint.t :=
  map (fun snapshot =>
         ChartPoint.mk (dayLabel (PortfolioSnapshot.date snapshot))
                       (add (PortfolioSnapshot.totalValue snapshot)
                            (PortfolioSnapshot.cashBalance snapshot)))
      (everySeventh 0 historicalSnapshots).

End DashboardPage.

Module PositionReturn.
Record t : Type := mk {
  symbol : string;
  ret : num;
  value : num;
  volatility : num
}.
End PositionReturn.

Module AnalyticsPage.



End AnalyticsPage.

(** The order of two sort keys of the holdings table: strings in lower case
    by their code units, finite numbers by their value. *)
Definition key_le (toLowerCase : string -> string) (x y : string + num) : Prop :=
  match x, y with
  | inl s, inl s' => String.compare (toLowerCase s) (toLowerCase s') <> Gt
  | inr a, inr b => (to_R a <= to_R b)%R
  | _, _ => False
  end.

(** A sort key that is a string or a finite number. *)
Definition key_ok (x : string + num) : Prop :=
  match x with
  | inl _ => True
  | inr a => is_finite a
  end.

(** The positions of the sector [s], and those of the asset type named [s]. *)
Definition inSector (s : string) (positions : list Position.t) : list Position.t :=
  filter (fun p => String.eqb (Position.sector p) s) positions.

Definition ofAssetType (s : string) (positions : list Position.t) : list Position.t :=
  filter (fun p => String.eqb (Allocation.AssetType_str (Position.assetType p)) s)
         positions.

(** The positions of the mock portfolio, made with the first twenty draws,
    and its history, made with the draws left by the positions and the
    ledger. *)
Definition mock_positions (rnd : nat -> R) : list Position.t :=
  fst (MockData.generateMockPositions rnd 0).

Definition mock_history (now : Z) (rnd : nat -> R) : list PortfolioSnapshot.t :=
  Generator.generateMockHistoricalSnapshots now (fun k => rnd (270 + k)%nat)
                                            (mock_positions rnd).

(* ================================================================= *)
(** * The specification's vocabulary

    The notions below follow the words of the specification, not the code;
    the properties compare the code with them. *)

Module Spec.

Import PortfolioSnapshot.
Local Open Scope R_scope.

(** A series is chronologically ordered when its timestamps are valid and
    strictly increasing. *)
Definition before (a b : PortfolioSnapshot.t) : Prop :=
  match date a, date b with
  | Some x, Some y => (x < y)%Z
  | _, _ => False
  end.

Definition chronological (snapshots : list PortfolioSnapshot.t) : Prop :=
  StronglySorted before snapshots.

(** The per-period fractional returns between consecutive values,
    [(v[i] - v[i-1]) / v[i-1]]. *)
Fixpoint fractional_returns (v : list num) : list num :=
  match v with
  | [] => []
  | a :: v' =>
      match v' with
      | [] => []
      | b :: _ => div (sub b a) a :: fractional_returns v'
      end
  end.

Definition sum (l : list num) : num := fold_right add (Fin 0) l.

Definition mean (l : list num) : num := div (sum l) (of_nat (List.length l)).

(** The sum of the squared deviations from the mean. *)
Definition squared_deviations (l : list num) : num :=
  sum (map (fun r => mul (sub r (mean l)) (sub r (mean l))) l).

(** The population variance divides by [n]. *)
Definition population_variance (l : list num) : num :=
  div (squared_deviations l) (of_nat (List.length l)).

(** The sample variance divides by [n - 1]. *)
Definition sample_variance (l : list num) : num :=
  div (squared_deviations l) (sub (of_nat (List.length l)) (Fin 1)).

(** The sample standard deviation of the returns, times [sqrt 252], as a
    percentage. *)
Definition sample_volatility (v : list num) : num :=
  mul (mul (Math_sqrt (sample_variance (fractional_returns v)))
           (Math_sqrt (Fin 252)))
      (Fin 100).

(** The same with the population standard deviation. *)
Definition population_volatility (v : list num) : num :=
  mul (mul (Math_sqrt (population_variance (fractional_returns v)))
           (Math_sqrt (Fin 252)))
      (Fin 100).

(** The running peak of a series of values at position [i]: the largest of
    the values at positions [0] to [i]. *)
Fixpoint peak_at (v : list R) (i : nat) : R :=
  match i with
  | O => nth 0 v 0
  | S j => Rmax (peak_at v j) (nth (S j) v 0)
  end.

(** The drawdown at position [i]: [(peak - value) / peak * 100]. *)
Definition drawdown_at (v : list R) (i : nat) : R :=
  (peak_at v i - nth i v 0) / peak_at v i * 100.

(** [d] is the largest drawdown of the series. *)
Definition is_max_drawdown (v : list R) (d : R) : Prop :=
  (exists i, (i < List.length v)%nat /\ d = drawdown_at v i) /\
  (forall i, (i < List.length v)%nat -> drawdown_at v i <= d).

(** A series that never goes down. *)
Definition increasing (v : list R) : Prop :=
  forall i, (S i < List.length v)%nat -> nth i v 0 <= nth (S i) v 0.

(** The value [k] snapshots back from the latest one, or the oldest value
    when the series is too short for that. *)
Definition value_back (v : list num) (k : nat) : num :=
  if (k <? List.length v)%nat
  then nth (List.length v - 1 - k) v NaN
  else hd NaN v.

(** The latest value minus the value 30 snapshots back. *)
Definition monthly_return (v : list num) : num :=
  sub (last v NaN) (value_back v 30).

End Spec.

Module SpecTx.

Import Transaction Transactions.

(** [l] is a subsequence of [l']: some elements dropped, the order kept. *)
Inductive subseq {A : Type} : list A -> list A -> Prop :=
| subseq_nil : subseq [] []
| subseq_keep (x : A) (l l' : list A) : subseq l l' -> subseq (x :: l) (x :: l')
| subseq_skip (x : A) (l l' : list A) : subseq l l' -> subseq l (x :: l').

Definition is_upper (c : ascii) : Prop :=
  (65 <= nat_of_ascii c <= 90)%nat.

(** Two characters that are equal up to the case of an ASCII letter. *)
Definition same_letter (c d : ascii) : Prop :=
  c = d \/
  (is_upper c /\ nat_of_ascii d = nat_of_ascii c + 32)%nat \/
  (is_upper d /\ nat_of_ascii c = nat_of_ascii d + 32)%nat.

(** Two strings that are equal up to case. *)
Inductive ci_eq : string -> string -> Prop :=
| ci_empty : ci_eq EmptyString EmptyString
| ci_char (c d : ascii) (s s' : string) :
    same_letter c d -> ci_eq s s' -> ci_eq (String c s) (String d s').

(** [q] occurs in [s], up to case. *)
Definition ci_substring (q s : string) : Prop :=
  exists pre mid post : string, s = (pre ++ mid ++ post)%string /\ ci_eq mid q.

Definition matches_type (f : FilterState) (t0 : t) : Prop :=
  match filterType f with
  | all => True
  | only ty => type t0 = ty
  end.

Definition matches_symbol (f : FilterState) (t0 : t) : Prop :=
  filterSymbol f = "all"%string \/ symbol t0 = filterSymbol f.

Definition matches_text (f : FilterState) (t0 : t) : Prop :=
  searchQuery f = EmptyString \/
  ci_substring (searchQuery f) (symbol t0) \/
  ci_substring (searchQuery f) (id t0).

Definition matches_from (newDate : string -> Date) (f : FilterState) (t0 : t) : Prop :=
  dateFrom f = EmptyString \/
  exists x y : Z, date t0 = Some x /\ newDate (dateFrom f) = Some y /\ (y <= x)%Z.

Definition matches_to (newDate : string -> Date) (f : FilterState) (t0 : t) : Prop :=
  dateTo f = EmptyString \/
  exists x y : Z, date t0 = Some x /\ newDate (dateTo f) = Some y /\ (x <= y)%Z.

(** Every predicate supplied holds. *)
Definition matches_all (newDate : string -> Date) (f : FilterState) (t0 : t) : Prop :=
  matches_type f t0 /\ matches_symbol f t0 /\ matches_text f t0 /\
  matches_from newDate f t0 /\ matches_to newDate f t0.

(** [q] occurs in [s]. *)
Definition substring (q s : string) : Prop :=
  exists pre post : string, s = (pre ++ q ++ post)%string.

(** The text predicate on any strings: the query, in lower case, occurs in
    the symbol or in the id, in lower case. *)
Definition matches_lowered (toLowerCase : string -> string)
           (f : FilterState) (t0 : t) : Prop :=
  searchQuery f = EmptyString \/
  substring (toLowerCase (searchQuery f)) (toLowerCase (symbol t0)) \/
  substring (toLowerCase (searchQuery f)) (toLowerCase (id t0)).

Definition matches_all_lowered (newDate : string -> Date)
           (toLowerCase : string -> string) (f : FilterState) (t0 : t) : Prop :=
  matches_type f t0 /\ matches_symbol f t0 /\ matches_lowered toLowerCase f t0 /\
  matches_from newDate f t0 /\ matches_to newDate f t0.

(** The traded volume of a symbol: the sum of the [total] of its
    transactions, whatever their type, added from 0 in the order of the
    transactions. *)
Definition volume_of (s : string) (transactions : list t) : num :=
  fold_left (fun v t0 => add v (total t0))
            (filter (fun t0 => String.eqb (symbol t0) s) transactions)
            (Fin 0%R).

(** The volume as the accumulator of the code holds it: the sum of the
    [total] of the transactions of the symbol, started again from 0 at each
    transaction that finds it at 0 or [NaN]. *)
Definition running_volume (s : string) (transactions : list t) : num :=
  fold_left (fun v t0 =>
               if String.eqb (symbol t0) s
               then add (if truthy v then v else Fin 0%R) (total t0)
               else v)
            transactions (Fin 0%R).

(** The symbols traded, each one once. *)
Definition distinct_symbols (transactions : list t) : list string :=
  nodup string_dec (map symbol transactions).

(** The symbols in the order in which they are first met. *)
Fixpoint first_seen (l : list string) : list string :=
  match l with
  | [] => []
  | s :: l' => s :: filter (fun s' => negb (String.eqb s' s)) (first_seen l')
  end.

(** The position of the first transaction of a symbol. *)
Fixpoint first_occurrence (s : string) (transactions : list t) : nat :=
  match transactions with
  | [] => O
  | t0 :: l => if String.eqb (symbol t0) s then O else S (first_occurrence s l)
  end.

(** [x] stands somewhere before [y] in [l]. *)
Definition comes_before {A : Type} (x y : A) (l : list A) : Prop :=
  exists l1 l2 l3 : list A, l = l1 ++ x :: l2 ++ y :: l3.

(** The order of a stable descending sort of [input] by [vol]: a larger
    volume first, and among equal volumes the order of [input]. *)
Definition ranks_before {A : Type} (vol : A -> R) (input : list A) (a b : A) : Prop :=
  (vol b < vol a)%R \/ (vol a = vol b /\ comes_before a b input).

End SpecTx.

(* ================================================================= *)
(** * Properties *)

(* ================================================================= *)
(** ** Arithmetic of [num] *)

Section NumFacts.

Local Open Scope R_scope.

Lemma Rcmp_lt (a b : R) : a < b -> Rcmp a b = Lt.
Proof.
  intros H. unfold Rcmp.
  destruct (total_order_T a b) as [[Hlt | Heq] | Hgt]; trivial; lra.
Qed.

Lemma Rcmp_eq (a b : R) : a = b -> Rcmp a b = Eq.
Proof.
  intros H. unfold Rcmp.
  destruct (total_order_T a b) as [[Hlt | Heq] | Hgt]; trivial; lra.
Qed.

Lemma Rcmp_gt (a b : R) : b < a -> Rcmp a b = Gt.
Proof.
  intros H. unfold Rcmp.
  destruct (total_order_T a b) as [[Hlt | Heq] | Hgt]; trivial; lra.
Qed.

Lemma Rcmp_cases (a b : R) :
  (a < b /\ Rcmp a b = Lt) \/ (a = b /\ Rcmp a b = Eq) \/ (b < a /\ Rcmp a b = Gt).
Proof.
  unfold Rcmp.
  destruct (total_order_T a b) as [[Hlt | Heq] | Hgt]; auto.
Qed.

End NumFacts.

(** [rcmp] decides every comparison of the goal that [lra] can settle. *)
Ltac rcmp :=
  repeat match goal with
    | |- context [Rcmp ?a ?b] =>
        first [ rewrite (Rcmp_lt a b) by lra
              | rewrite (Rcmp_eq a b) by lra
              | rewrite (Rcmp_gt a b) by lra ]
    end.

(** [rcases a b] splits on the order of [a] and [b]. *)
Ltac rcases a b :=
  let H := fresh "Hcmp" in
  let E := fresh "Ecmp" in
  destruct (Rcmp_cases a b) as [[H E] | [[H E] | [H E]]];
  rewrite ?E in *.

(** [ncompute] evaluates a closed expression over [num] as far as [lra]
    decides its comparisons. *)
Ltac ncompute := repeat progress (cbn; unfold inf_of_sign; rcmp).

(** [rval c] replaces the real compared with zero by its value [c]. *)
Ltac rval c :=
  match goal with
  | |- context [Rcmp ?a 0%R] => replace a with c by (field; lra)
  end.

Section NumAlgebra.

Local Open Scope R_scope.

Lemma add_comm (x y : num) : add x y = add y x.
Proof.
  destruct x, y; simpl; trivial; f_equal; lra.
Qed.

Lemma add_assoc (x y z : num) : add x (add y z) = add (add x y) z.
Proof.
  destruct x, y, z; simpl; trivial; f_equal; lra.
Qed.

Lemma add_0_l (x : num) : add (Fin 0) x = x.
Proof.
  destruct x; simpl; trivial; f_equal; lra.
Qed.

Lemma add_0_r (x : num) : add x (Fin 0) = x.
Proof.
  rewrite add_comm. apply add_0_l.
Qed.

Lemma mul_1_r (x : num) : mul x (Fin 1) = x.
Proof.
  destruct x; simpl; unfold inf_of_sign; rcmp; trivial; f_equal; lra.
Qed.

Lemma Math_pow_2 (x : num) : Math_pow x 2 = mul x x.
Proof.
  simpl. now rewrite mul_1_r.
Qed.

(** Dividing by a finite non-zero number distributes over a sum. *)
Lemma div_add_distr (x y : num) (g : R) :
  g <> 0 -> div (add x y) (Fin g) = add (div x (Fin g)) (div y (Fin g)).
Proof.
  intros Hg.
  destruct x, y; simpl; trivial;
    rcases g 0; try lra; simpl; trivial; f_equal; field; trivial.
Qed.

Lemma div_0_l (g : R) : g <> 0 -> div (Fin 0) (Fin g) = Fin 0.
Proof.
  intros Hg. simpl. rcases g 0; try lra; f_equal; field; trivial.
Qed.

End NumAlgebra.

(* ================================================================= *)
(** ** The metrics engine: what throws *)

Section MetricsTotal.

Import PortfolioSnapshot Metrics.

Lemma index_of_nat {A : Type} (a : list A) (i : nat) :
  index a (Z.of_nat i) = nth_error a i.
Proof.
  unfold index.
  destruct (Z.ltb_spec (Z.of_nat i) 0) as [H | H]; [lia |].
  now rewrite Nat2Z.id.
Qed.

(** The callback of [dailyReturns] always finds [snapshots[idx]]: the map
    never throws, and it yields the returns between consecutive values. *)
Lemma map_idx_from_returns (pre : list t) (a : t) (rest : list t) :
  map_idx_from
    (fun snapshot idx =>
       prevValue <- prop (index (pre ++ a :: rest) (Z.of_nat idx)) totalValue ;;
       Ok (div (sub (totalValue snapshot) prevValue) prevValue))
    (List.length pre) rest
  = Ok (Spec.fractional_returns (map totalValue (a :: rest))).
Proof.
  revert pre a.
  induction rest as [| b rest IH]; intros pre a; [reflexivity |].
  cbn [map_idx_from].
  rewrite index_of_nat, nth_error_app2 by lia.
  rewrite Nat.sub_diag. cbn [nth_error prop bind].
  specialize (IH (pre ++ [a]) b).
  rewrite <- app_assoc in IH. cbn [app] in IH.
  rewrite length_app, Nat.add_comm in IH. cbn [List.length Nat.add] in IH.
  rewrite IH. reflexivity.
Qed.

Lemma dailyReturnsOf_spec (snapshots : list t) :
  dailyReturnsOf snapshots = Ok (Spec.fractional_returns (map totalValue snapshots)).
Proof.
  destruct snapshots as [| a rest]; [reflexivity |].
  exact (map_idx_from_returns [] a rest).
Qed.

Lemma reduce_pair_eta {A : Type} (f : num * num -> A -> num * num)
      (init : num * num) (l : list A) :
  reduce f init l = (fst (reduce f init l), snd (reduce f init l)).
Proof.
  now destruct (reduce f init l).
Qed.

(** The shape of the result on a non-empty series. *)
Lemma calculateMockMetrics_nonempty yearStart positions (s : t) (rest : list t) :
  exists m, calculateMockMetrics yearStart positions (s :: rest) = Ok m /\
    PerformanceMetrics.volatility m =
      volatilityOf (varianceOf (Spec.fractional_returns (map totalValue (s :: rest)))) /\
    PerformanceMetrics.maxDrawdown m =
      fst (reduce drawdownStep (Fin 0%R, totalValue s) (s :: rest)) /\
    PerformanceMetrics.sharpeRatio m =
      div (sub (div (PerformanceMetrics.totalReturnPercent m) (Fin 100%R)) riskFreeRate)
          (div (PerformanceMetrics.volatility m) (Fin 100%R)) /\
    PerformanceMetrics.monthlyReturn m =
      sub (sumMarketValue positions)
          (or_num (opt_chain (index (s :: rest) (len (s :: rest) - 30)) totalValue)
                  (sumMarketValue positions)) /\
    PerformanceMetrics.monthlyReturnPercent m =
      mul (div (PerformanceMetrics.monthlyReturn m)
               (or_num (opt_chain (index (s :: rest) (len (s :: rest) - 30)) totalValue)
                       (sumMarketValue positions)))
          (Fin 100%R) /\
    PerformanceMetrics.totalReturnPercent m =
      mul (div (sub (sumMarketValue positions) (sumCost positions)) (sumCost positions))
          (Fin 100%R).
Proof.
  unfold calculateMockMetrics.
  assert (Hy : exists y,
             or_obj (find (fun s0 => date_ge (date s0) yearStart) (s :: rest))
                    (index (s :: rest) 0) = Some y).
  { destruct (find _ (s :: rest)) as [y |]; cbn; eauto. }
  destruct Hy as [y ->].
  rewrite dailyReturnsOf_spec.
  cbn [prop bind index Z.ltb Z.compare Z.to_nat nth_error].
  rewrite (reduce_pair_eta drawdownStep).
  eexists. split; [reflexivity |].
  cbn [PerformanceMetrics.volatility PerformanceMetrics.maxDrawdown
       PerformanceMetrics.sharpeRatio PerformanceMetrics.monthlyReturn
       PerformanceMetrics.monthlyReturnPercent PerformanceMetrics.totalReturnPercent].
  repeat split.
Qed.

End MetricsTotal.

(** C1, as first stated, does not hold: a series whose timestamps go
    backwards is accepted and yields a metrics record; with no position
    held, the percent return on a zero cost is [NaN]. *)
Lemma C1_unordered_series_is_accepted :
  let s1 := PortfolioSnapshot.mk (Some 2%Z) (Fin 100%R) (Fin 0%R) [] in
  let s2 := PortfolioSnapshot.mk (Some 1%Z) (Fin 100%R) (Fin 0%R) [] in
  ~ Spec.chronological [s1; s2] /\
  exists m, Metrics.calculateMockMetrics (Some 0%Z) [] [s1; s2] = Ok m /\
            PerformanceMetrics.totalReturnPercent m = NaN.
Proof.
  intros s1 s2. split.
  - intros H. inversion H as [| a l Hl Hall]; subst.
    inversion Hall as [| b l' Hb Hrest]; subst.
    unfold Spec.before in Hb. cbn in Hb. lia.
  - destruct (calculateMockMetrics_nonempty (Some 0%Z) [] s1 [s2])
      as [m (Hm & _ & _ & _ & _ & _ & Htrp)].
    exists m. split; [exact Hm |].
    rewrite Htrp. cbn. rcmp. unfold inf_of_sign. rcmp. reflexivity.
Qed.

(** C1 (amended): the metrics computation throws exactly when the snapshot
    series is empty, and what it throws is a [TypeError]; on every
    non-empty series, chronologically ordered or not, it returns a metrics
    record. *)
Theorem C1_throws_exactly_on_empty_series yearStart positions snapshots :
  match snapshots with
  | [] => Metrics.calculateMockMetrics yearStart positions snapshots = Throw TypeError
  | _ :: _ => exists m, Metrics.calculateMockMetrics yearStart positions snapshots = Ok m
  end.
Proof.
  destruct snapshots as [| s rest].
  - reflexivity.
  - destruct (calculateMockMetrics_nonempty yearStart positions s rest) as [m [Hm _]].
    now exists m.
Qed.

(* ================================================================= *)
(** ** Volatility *)

Section Volatility.

Import PortfolioSnapshot Metrics.
Local Open Scope R_scope.

(** A [reduce] that adds up [f] over an array, as a sum. *)
Lemma reduce_add_sum {A : Type} (f : A -> num) (l : list A) (init : num) :
  reduce (fun s x => add s (f x)) init l = add init (Spec.sum (map f l)).
Proof.
  unfold reduce. revert init.
  induction l as [| x l IH]; intros init; cbn.
  - now rewrite add_0_r.
  - now rewrite IH, add_assoc.
Qed.

Lemma avgReturnOf_mean (l : list num) : avgReturnOf l = Spec.mean l.
Proof.
  unfold avgReturnOf, Spec.mean.
  rewrite (reduce_add_sum (fun r => r)), map_id, add_0_l. reflexivity.
Qed.

Lemma varianceOf_population (l : list num) :
  varianceOf l = Spec.population_variance l.
Proof.
  unfold varianceOf, Spec.population_variance, Spec.squared_deviations.
  rewrite (reduce_add_sum (fun r => Math_pow (sub r (avgReturnOf l)) 2)), add_0_l.
  rewrite avgReturnOf_mean.
  do 2 f_equal. apply map_ext. intros r. apply Math_pow_2.
Qed.

(** Annualising under the root or outside of it is the same, on every
    number. *)
Lemma volatilityOf_annualised (x : num) :
  volatilityOf x = mul (mul (Math_sqrt x) (Math_sqrt (Fin 252))) (Fin 100).
Proof.
  pose proof (sqrt_lt_R0 252 ltac:(lra)) as Hroot.
  unfold volatilityOf. destruct x as [a | | |]; [| ncompute; reflexivity ..].
  cbn. rcmp. rcases a 0.
  - rewrite (Rcmp_lt (a * 252) 0) by lra. reflexivity.
  - subst a. rewrite (Rcmp_eq (0 * 252) 0) by lra. cbn.
    rewrite sqrt_mult by lra. reflexivity.
  - rewrite (Rcmp_gt (a * 252) 0) by lra. cbn.
    rewrite sqrt_mult by lra. reflexivity.
Qed.

Lemma volatility_population (v : list num) :
  volatilityOf (varianceOf (Spec.fractional_returns v)) = Spec.population_volatility v.
Proof.
  now rewrite volatilityOf_annualised, varianceOf_population.
Qed.

End Volatility.

Section VolatilityCases.

Import PortfolioSnapshot Metrics.
Local Open Scope R_scope.

Lemma population_volatility_one_return (a b : R) :
  a <> 0 -> Spec.population_volatility [Fin a; Fin b] = Fin 0.
Proof.
  intros Ha.
  unfold Spec.population_volatility, Spec.population_variance,
    Spec.squared_deviations, Spec.mean.
  cbn. rcases a 0; [| lra |]; ncompute.
  all: match goal with
       | |- context [sqrt ?e * sqrt 252] => replace e with 0 by (field; lra)
       end.
  all: rewrite sqrt_0; f_equal; lra.
Qed.

Lemma population_volatility_no_return (x : num) :
  Spec.population_volatility [x] = NaN.
Proof.
  unfold Spec.population_volatility, Spec.population_variance,
    Spec.squared_deviations, Spec.mean.
  ncompute. reflexivity.
Qed.

End VolatilityCases.

(** C2, as first stated, does not hold.  On the values 1, 2, 2 the returns
    are 1 and 0: the code reports [sqrt 63 * 100], the sample standard
    deviation times [sqrt 252] is [sqrt (1/2) * sqrt 252 * 100].  On a single
    snapshot there is no return and the code reports [NaN]. *)
Lemma C2_volatility_is_not_sample_deviation :
  let snap := fun v : R => PortfolioSnapshot.mk (Some 0%Z) (Fin v) (Fin 0%R) [] in
  (exists m,
      Metrics.calculateMockMetrics (Some 0%Z) [] [snap 1%R; snap 2%R; snap 2%R] = Ok m /\
      PerformanceMetrics.volatility m = Fin (sqrt 63 * 100)%R /\
      Spec.sample_volatility [Fin 1%R; Fin 2%R; Fin 2%R]
        = Fin (sqrt (1 / 2) * sqrt 252 * 100)%R /\
      PerformanceMetrics.volatility m
        <> Spec.sample_volatility
             (map PortfolioSnapshot.totalValue [snap 1%R; snap 2%R; snap 2%R])) /\
  (exists m,
      Metrics.calculateMockMetrics (Some 0%Z) [] [snap 1%R] = Ok m /\
      PerformanceMetrics.volatility m = NaN).
Proof.
  intros snap.
  assert (Hcode : Metrics.volatilityOf
                    (Spec.population_variance
                       (Spec.fractional_returns [Fin 1; Fin 2; Fin 2]))
                  = Fin (sqrt 63 * 100)%R).
  { unfold Metrics.volatilityOf, Spec.population_variance,
      Spec.squared_deviations, Spec.mean.
    ncompute. do 3 f_equal. field. }
  assert (Hspec : Spec.sample_volatility [Fin 1; Fin 2; Fin 2]
                  = Fin (sqrt (1 / 2) * sqrt 252 * 100)%R).
  { unfold Spec.sample_volatility, Spec.sample_variance,
      Spec.squared_deviations, Spec.mean.
    ncompute. rval (1 / 2)%R. rcmp. ncompute. reflexivity. }
  split.
  - destruct (calculateMockMetrics_nonempty (Some 0%Z) [] (snap 1%R)
                [snap 2%R; snap 2%R]) as [m (Hm & Hvol & _)].
    exists m. split; [exact Hm |].
    rewrite varianceOf_population in Hvol.
    change (PerformanceMetrics.volatility m
            = Metrics.volatilityOf
                (Spec.population_variance
                   (Spec.fractional_returns [Fin 1; Fin 2; Fin 2])))%R in Hvol.
    rewrite Hvol, Hcode. repeat split; [exact Hspec |].
    change (map PortfolioSnapshot.totalValue [snap 1%R; snap 2%R; snap 2%R])
      with [Fin 1%R; Fin 2%R; Fin 2%R].
    rewrite Hspec. intros Heq. injection Heq as Heq.
    rewrite <- sqrt_mult in Heq by lra.
    assert (Hsq : sqrt 63 = sqrt (1 / 2 * 252)) by lra.
    apply sqrt_inj in Hsq; lra.
  - destruct (calculateMockMetrics_nonempty (Some 0%Z) [] (snap 1%R) [])
      as [m (Hm & Hvol & _)].
    exists m. split; [exact Hm |].
    rewrite volatility_population in Hvol.
    rewrite Hvol.
    exact (population_volatility_no_return (Fin 1%R)).
Qed.

(** C2 (amended): on every non-empty series the volatility is the
    population standard deviation (divisor [n], not [n - 1]) of the
    fractional returns between consecutive snapshots, times [sqrt 252], as a
    percentage.  With exactly one return, of two finite values the first of
    which is not zero, it is 0; with no return (a single snapshot) it is
    [NaN]. *)
Theorem C2_volatility_is_population_deviation yearStart positions snapshots :
  snapshots <> [] ->
  exists m,
    Metrics.calculateMockMetrics yearStart positions snapshots = Ok m /\
    PerformanceMetrics.volatility m
      = Spec.population_volatility (map PortfolioSnapshot.totalValue snapshots) /\
    (forall a b : R,
        map PortfolioSnapshot.totalValue snapshots = [Fin a; Fin b] ->
        a <> 0%R ->
        PerformanceMetrics.volatility m = Fin 0%R) /\
    (forall x : num,
        map PortfolioSnapshot.totalValue snapshots = [x] ->
        PerformanceMetrics.volatility m = NaN).
Proof.
  intros Hne.
  destruct snapshots as [| s rest]; [congruence |].
  destruct (calculateMockMetrics_nonempty yearStart positions s rest)
    as [m (Hm & Hvol & _)].
  rewrite volatility_population in Hvol.
  exists m. split; [exact Hm |].
  split; [exact Hvol |].
  split.
  - intros a b Hv Ha. rewrite Hvol.
    unfold Spec.population_volatility. rewrite Hv.
    now apply population_volatility_one_return.
  - intros x Hv. rewrite Hvol.
    unfold Spec.population_volatility. rewrite Hv.
    apply population_volatility_no_return.
Qed.

Lemma C2_volatility_witness :
  let snap := fun v : R => PortfolioSnapshot.mk (Some 0%Z) (Fin v) (Fin 0%R) [] in
  exists m,
    Metrics.calculateMockMetrics (Some 0%Z) [] [snap 100%R; snap 110%R] = Ok m /\
    PerformanceMetrics.volatility m = Fin 0%R.
Proof.
  intros snap.
  destruct (C2_volatility_is_population_deviation (Some 0%Z) []
              [snap 100%R; snap 110%R]) as [m (Hm & _ & Hone & _)].
  - discriminate.
  - exists m. split; [exact Hm |].
    apply (Hone 100%R 110%R); [reflexivity | lra].
Defined.

(* ================================================================= *)
(** ** Maximum drawdown *)

Section Drawdown.

Import PortfolioSnapshot Metrics.
Local Open Scope R_scope.

Lemma peak_at_app (l l' : list R) (i : nat) :
  (i < List.length l)%nat -> Spec.peak_at (l ++ l') i = Spec.peak_at l i.
Proof.
  induction i as [| j IH]; intros Hi; cbn.
  - now rewrite app_nth1 by lia.
  - rewrite IH by lia. now rewrite app_nth1 by lia.
Qed.

Lemma drawdown_at_app (l l' : list R) (i : nat) :
  (i < List.length l)%nat -> Spec.drawdown_at (l ++ l') i = Spec.drawdown_at l i.
Proof.
  intros Hi. unfold Spec.drawdown_at.
  now rewrite peak_at_app, app_nth1 by lia.
Qed.

Lemma peak_at_ge (v : list R) (i : nat) : nth i v 0 <= Spec.peak_at v i.
Proof.
  destruct i as [| j]; cbn -[nth]; [lra | apply Rmax_r].
Qed.

Lemma nth_pos (v : list R) (i : nat) :
  Forall (fun x => 0 < x) v -> (i < List.length v)%nat -> 0 < nth i v 0.
Proof.
  intros Hv Hi. rewrite Forall_forall in Hv. apply Hv. now apply nth_In.
Qed.

Lemma peak_at_pos (v : list R) (i : nat) :
  Forall (fun x => 0 < x) v -> (i < List.length v)%nat -> 0 < Spec.peak_at v i.
Proof.
  intros Hv Hi. pose proof (nth_pos v i Hv Hi). pose proof (peak_at_ge v i). lra.
Qed.

Lemma peak_at_increasing (v : list R) (i : nat) :
  Spec.increasing v -> (i < List.length v)%nat -> Spec.peak_at v i = nth i v 0.
Proof.
  intros Hinc. induction i as [| j IH]; intros Hi; [reflexivity |].
  cbn -[nth]. rewrite IH by lia. apply Rmax_right. now apply Hinc.
Qed.

(** A drawdown lies between 0 and 100 when the values are positive. *)
Lemma drawdown_at_bounds (v : list R) (i : nat) :
  Forall (fun x => 0 < x) v -> (i < List.length v)%nat ->
  0 <= Spec.drawdown_at v i <= 100.
Proof.
  intros Hv Hi. unfold Spec.drawdown_at.
  pose proof (nth_pos v i Hv Hi) as Hx.
  pose proof (peak_at_ge v i) as Hp.
  set (p := Spec.peak_at v i) in *. set (x := nth i v 0) in *.
  assert (Hq : 0 <= (p - x) / p <= 1).
  { split.
    - apply Rmult_le_pos; [lra |]. left. apply Rinv_0_lt_compat. lra.
    - apply Rmult_le_reg_r with p; [lra |]. field_simplify; lra. }
  lra.
Qed.

Lemma peak_at_snoc (v0 : R) (w : list R) (x : R) :
  Spec.peak_at ((v0 :: w) ++ [x]) (S (List.length w))
  = Rmax (Spec.peak_at (v0 :: w) (List.length w)) x.
Proof.
  change (Spec.peak_at ((v0 :: w) ++ [x]) (S (List.length w)))
    with (Rmax (Spec.peak_at ((v0 :: w) ++ [x]) (List.length w))
               (nth (S (List.length w)) ((v0 :: w) ++ [x]) 0)).
  rewrite peak_at_app by (cbn; lia).
  rewrite app_nth2 by (cbn; lia).
  cbn [List.length]. now rewrite Nat.sub_diag.
Qed.

Lemma drawdown_at_snoc (v0 : R) (w : list R) (x : R) :
  Spec.drawdown_at ((v0 :: w) ++ [x]) (S (List.length w))
  = (Rmax (Spec.peak_at (v0 :: w) (List.length w)) x - x)
    / Rmax (Spec.peak_at (v0 :: w) (List.length w)) x * 100.
Proof.
  unfold Spec.drawdown_at. rewrite peak_at_snoc.
  rewrite app_nth2 by (cbn; lia).
  cbn [List.length]. now rewrite Nat.sub_diag.
Qed.

(** Adding a value at the end of a series: the largest drawdown is the
    larger of the former one and of the drawdown at the new value. *)
Lemma is_max_drawdown_snoc (v0 : R) (w : list R) (x d d' : R) :
  Spec.is_max_drawdown (v0 :: w) d ->
  (d' = d \/ d' = Spec.drawdown_at ((v0 :: w) ++ [x]) (S (List.length w))) ->
  d <= d' ->
  Spec.drawdown_at ((v0 :: w) ++ [x]) (S (List.length w)) <= d' ->
  Spec.is_max_drawdown ((v0 :: w) ++ [x]) d'.
Proof.
  intros [[i (Hi & Hd)] Hmax] Hd' Hle Hnew.
  assert (Hlen : List.length ((v0 :: w) ++ [x]) = S (S (List.length w))).
  { rewrite length_app. cbn. lia. }
  split.
  - destruct Hd' as [-> | ->].
    + exists i. split; [cbn in Hi; lia |]. now rewrite drawdown_at_app.
    + exists (S (List.length w)). split; [lia | reflexivity].
  - intros j Hj.
    assert (Hcase : (j < List.length (v0 :: w))%nat \/ j = S (List.length w))
      by (cbn; lia).
    destruct Hcase as [Hj' | ->]; [| exact Hnew].
    rewrite drawdown_at_app by trivial.
    specialize (Hmax j Hj'). lra.
Qed.

(** The scan of the series keeps the running peak and the largest drawdown
    met so far. *)
Lemma drawdown_scan (v0 : R) (w : list R) :
  forall snapshots : list t,
    map totalValue snapshots = map Fin (v0 :: w) ->
    Forall (fun x => 0 < x) (v0 :: w) ->
    exists d,
      reduce drawdownStep (Fin 0, Fin v0) snapshots
        = (Fin d, Fin (Spec.peak_at (v0 :: w) (List.length w))) /\
      Spec.is_max_drawdown (v0 :: w) d.
Proof.
  induction w as [| x w IH] using rev_ind; intros snapshots Hmap Hpos.
  - destruct snapshots as [| s [| s' rest]]; try discriminate.
    injection Hmap as Hs.
    assert (Hv0 : 0 < v0) by now inversion Hpos.
    exists 0. split.
    + cbn. rewrite Hs. ncompute.
      replace ((v0 + - v0) / v0 * 100) with 0 by (field; lra).
      rcmp. reflexivity.
    + split.
      * exists O. split; [cbn; lia |].
        unfold Spec.drawdown_at. cbn. field. lra.
      * intros i Hi. cbn in Hi. replace i with O by lia.
        unfold Spec.drawdown_at. cbn. right. field. lra.
  - change (v0 :: w ++ [x]) with ((v0 :: w) ++ [x]) in *.
    rewrite map_app in Hmap.
    apply map_eq_app in Hmap as (snaps & last & -> & Hsnaps & Hlast).
    destruct last as [| s [| s' rest]]; try discriminate.
    injection Hlast as Hs.
    apply Forall_app in Hpos as [Hposw Hposx].
    assert (Hx : 0 < x) by now inversion Hposx.
    destruct (IH snaps Hsnaps Hposw) as [d (Hscan & Hmax)].
    pose proof (peak_at_pos (v0 :: w) (List.length w) Hposw ltac:(cbn; lia)) as Hp.
    pose proof (is_max_drawdown_snoc v0 w x d) as Hsnoc.
    specialize (fun d' => Hsnoc d' Hmax).
    rewrite drawdown_at_snoc in Hsnoc.
    replace (List.length (w ++ [x])) with (S (List.length w))
      by (rewrite length_app; cbn; lia).
    rewrite peak_at_snoc.
    remember (Spec.peak_at (v0 :: w) (List.length w)) as p eqn:Ep.
    unfold reduce in *. rewrite fold_left_app, Hscan.
    cbn [fold_left]. unfold drawdownStep. rewrite Hs.
    cbn [gt].
    rcases x p;
      [ rewrite Rmax_left in * by lra
      | rewrite Rmax_left in * by lra
      | rewrite Rmax_right in * by lra ];
      ncompute;
      match goal with
      | |- context [Rcmp ?e d] => rcases e d
      end;
      (eexists; split; [reflexivity |]; apply Hsnoc; unfold Rminus; auto; lra).
Qed.

End Drawdown.

(** C4: on a non-empty series of positive values the computation returns,
    and the maximum drawdown it reports is the largest, over the positions
    of the series, of (running peak - value) / running peak x 100; it lies
    between 0 and 100, and it is 0 on a series that never goes down. *)
Theorem C4_max_drawdown_is_largest_drawdown yearStart positions snapshots (v : list R) :
  snapshots <> [] ->
  map PortfolioSnapshot.totalValue snapshots = map Fin v ->
  Forall (fun x => (0 < x)%R) v ->
  exists m d,
    Metrics.calculateMockMetrics yearStart positions snapshots = Ok m /\
    PerformanceMetrics.maxDrawdown m = Fin d /\
    Spec.is_max_drawdown v d /\
    (0 <= d <= 100)%R /\
    (Spec.increasing v -> d = 0%R).
Proof.
  intros Hne Hmap Hpos.
  destruct snapshots as [| s rest]; [congruence |].
  destruct v as [| v0 w]; [discriminate |].
  destruct (calculateMockMetrics_nonempty yearStart positions s rest)
    as [m (Hm & _ & Hmd & _)].
  destruct (drawdown_scan v0 w (s :: rest) Hmap Hpos) as [d (Hscan & Hmax)].
  assert (Hs : PortfolioSnapshot.totalValue s = Fin v0) by now injection Hmap.
  rewrite Hs, Hscan in Hmd. cbn [fst] in Hmd.
  exists m, d. repeat split; trivial.
  - apply Hmax.
  - apply Hmax.
  - destruct Hmax as [[i (Hi & ->)] _]. now apply drawdown_at_bounds.
  - destruct Hmax as [[i (Hi & ->)] _]. now apply drawdown_at_bounds.
  - intros Hinc. destruct Hmax as [[i (Hi & ->)] _].
    unfold Spec.drawdown_at. rewrite peak_at_increasing by trivial.
    pose proof (nth_pos _ i Hpos Hi). field. lra.
Qed.

(** The scenario of the specification: the values 100, 120, 90, 130 have
    the drawdowns 0, 0, 25, 0. *)
Lemma C4_max_drawdown_witness :
  let snap := fun v : R => PortfolioSnapshot.mk (Some 0%Z) (Fin v) (Fin 0%R) [] in
  exists m,
    Metrics.calculateMockMetrics (Some 0%Z) []
      [snap 100%R; snap 120%R; snap 90%R; snap 130%R] = Ok m /\
    PerformanceMetrics.maxDrawdown m = Fin 25%R.
Proof.
  intros snap.
  destruct (C4_max_drawdown_is_largest_drawdown (Some 0%Z) []
              [snap 100%R; snap 120%R; snap 90%R; snap 130%R]
              [100; 120; 90; 130]%R)
    as [m [d (Hm & Hmd & [[i (Hi & Hd)] Hmax] & _)]].
  - discriminate.
  - reflexivity.
  - repeat constructor; lra.
  - exists m. split; [exact Hm |].
    rewrite Hmd. f_equal.
    assert (H0 : Spec.drawdown_at [100; 120; 90; 130]%R 0 = 0%R).
    { unfold Spec.drawdown_at. cbn. lra. }
    assert (H1 : Spec.drawdown_at [100; 120; 90; 130]%R 1 = 0%R).
    { unfold Spec.drawdown_at. cbn. rewrite Rmax_right by lra. lra. }
    assert (H2 : Spec.drawdown_at [100; 120; 90; 130]%R 2 = 25%R).
    { unfold Spec.drawdown_at. cbn.
      rewrite (Rmax_right 100 120), (Rmax_left 120 90) by lra. lra. }
    assert (H3 : Spec.drawdown_at [100; 120; 90; 130]%R 3 = 0%R).
    { unfold Spec.drawdown_at. cbn.
      rewrite (Rmax_right 100 120), (Rmax_left 120 90), (Rmax_right 120 130) by lra.
      lra. }
    pose proof (Hmax 2%nat ltac:(cbn; lia)) as Hge. rewrite H2 in Hge.
    cbn in Hi.
    destruct i as [| [| [| [| i]]]]; try lia; rewrite ?H0, ?H1, ?H2, ?H3 in Hd; lra.
Defined.

(* ================================================================= *)
(** ** Monthly return and Sharpe ratio *)

Section Returns.

Import PortfolioSnapshot Metrics.
Local Open Scope R_scope.

Lemma index_out_of_range {A : Type} (a : list A) (i : Z) :
  (i < 0 \/ len a <= i)%Z -> index a i = None.
Proof.
  unfold index, len. intros H.
  destruct (Z.ltb_spec i 0) as [Hi | Hi]; [reflexivity |].
  apply nth_error_None. lia.
Qed.

Lemma index_in {A : Type} (a : list A) (i : Z) (x : A) :
  index a i = Some x -> In x a.
Proof.
  unfold index. destruct (i <? 0)%Z; [discriminate |]. apply nth_error_In.
Qed.

Lemma index_in_range {A : Type} (a : list A) (i : Z) :
  (0 <= i < len a)%Z -> exists x, index a i = Some x.
Proof.
  unfold index, len. intros H.
  destruct (Z.ltb_spec i 0) as [Hi | Hi]; [lia |].
  destruct (nth_error a (Z.to_nat i)) as [x |] eqn:E; [eauto |].
  apply nth_error_None in E. lia.
Qed.

End Returns.

(** C5, as first stated, does not hold.  With two snapshots, of values 100
    and 120, and a position worth 120, the latest value minus the oldest
    one is 20; the code reports 0, the series being shorter than 30. *)
Lemma C5_short_series_monthly_return_is_zero :
  let snap := fun v : R => PortfolioSnapshot.mk (Some 0%Z) (Fin v) (Fin 0%R) [] in
  let p := Position.mk "AAA" "AAA" (Fin 1%R) (Fin 100%R) (Fin 120%R) (Fin 120%R)
             (Fin 20%R) (Fin 20%R) "Technology" stock in
  Spec.monthly_return (map PortfolioSnapshot.totalValue [snap 100%R; snap 120%R])
    = Fin (120 + - (100))%R /\
  exists m,
    Metrics.calculateMockMetrics (Some 0%Z) [p] [snap 100%R; snap 120%R] = Ok m /\
    PerformanceMetrics.monthlyReturn m = Fin (0 + 120 + - (0 + 120))%R /\
    PerformanceMetrics.monthlyReturn m
      <> Spec.monthly_return
           (map PortfolioSnapshot.totalValue [snap 100%R; snap 120%R]).
Proof.
  intros snap p. split; [reflexivity |].
  destruct (calculateMockMetrics_nonempty (Some 0%Z) [p] (snap 100%R) [snap 120%R])
    as [m (Hm & _ & _ & _ & Hmonth & _)].
  exists m. split; [exact Hm |].
  rewrite Hmonth. split; [reflexivity |].
  cbn. intros H. injection H as H. lra.
Qed.

(** C5 (amended): the monthly return is the current aggregate market value
    of the positions minus an earlier value, and its percent is relative to
    that earlier value.  On a series shorter than 30 snapshots the earlier
    value is the current value itself; on a longer one it is the total value
    of a snapshot of the series, or the current value when that total is 0
    or [NaN]. *)
Theorem C5_monthly_return_against_current_value yearStart positions snapshots :
  snapshots <> [] ->
  exists m earlier,
    Metrics.calculateMockMetrics yearStart positions snapshots = Ok m /\
    PerformanceMetrics.monthlyReturn m
      = sub (Metrics.sumMarketValue positions) earlier /\
    PerformanceMetrics.monthlyReturnPercent m
      = mul (div (PerformanceMetrics.monthlyReturn m) earlier) (Fin 100%R) /\
    ((List.length snapshots < 30)%nat -> earlier = Metrics.sumMarketValue positions) /\
    ((30 <= List.length snapshots)%nat ->
     exists s, In s snapshots /\
               earlier = or_num (Some (PortfolioSnapshot.totalValue s))
                                (Metrics.sumMarketValue positions)).
Proof.
  intros Hne.
  destruct snapshots as [| s rest]; [congruence |].
  destruct (calculateMockMetrics_nonempty yearStart positions s rest)
    as [m (Hm & _ & _ & _ & Hmonth & Hpct & _)].
  exists m. eexists. split; [exact Hm |].
  split; [exact Hmonth |]. split; [exact Hpct |].
  split.
  - intros Hlen. rewrite index_out_of_range; [reflexivity |].
    left. unfold len. lia.
  - intros Hlen.
    destruct (index_in_range (s :: rest) (len (s :: rest) - 30)) as [x Hx].
    { unfold len. lia. }
    exists x. split; [now apply index_in in Hx |].
    now rewrite Hx.
Qed.

Lemma C5_monthly_return_witness :
  let snap := fun v : R => PortfolioSnapshot.mk (Some 0%Z) (Fin v) (Fin 0%R) [] in
  exists m,
    Metrics.calculateMockMetrics (Some 0%Z) [] [snap 100%R; snap 120%R] = Ok m /\
    PerformanceMetrics.monthlyReturn m
      = sub (Metrics.sumMarketValue []) (Metrics.sumMarketValue []).
Proof.
  intros snap.
  destruct (C5_monthly_return_against_current_value (Some 0%Z) []
              [snap 100%R; snap 120%R])
    as [m [earlier (Hm & Hmonth & _ & Hshort & _)]].
  - discriminate.
  - exists m. split; [exact Hm |].
    rewrite Hmonth, Hshort; [reflexivity | cbn; lia].
Defined.

(** C6, as first stated, does not hold.  With two snapshots the volatility
    is 0; a position bought at 100 and worth 110 has an excess return of
    0.06, and the Sharpe ratio reported is [Infinity]. *)
Lemma C6_zero_volatility_gives_infinity :
  let snap := fun v : R => PortfolioSnapshot.mk (Some 0%Z) (Fin v) (Fin 0%R) [] in
  let p := Position.mk "AAA" "AAA" (Fin 1%R) (Fin 100%R) (Fin 110%R) (Fin 110%R)
             (Fin 10%R) (Fin 10%R) "Technology" stock in
  exists m,
    Metrics.calculateMockMetrics (Some 0%Z) [p] [snap 100%R; snap 110%R] = Ok m /\
    PerformanceMetrics.volatility m = Fin 0%R /\
    PerformanceMetrics.sharpeRatio m = PInf.
Proof.
  intros snap p.
  destruct (calculateMockMetrics_nonempty (Some 0%Z) [p] (snap 100%R) [snap 110%R])
    as [m (Hm & Hvol & _ & Hsharpe & _ & _ & Htrp)].
  exists m. split; [exact Hm |].
  rewrite volatility_population in Hvol.
  change (PerformanceMetrics.volatility m
          = Spec.population_volatility [Fin 100%R; Fin 110%R]) in Hvol.
  rewrite population_volatility_one_return in Hvol by lra.
  split; [exact Hvol |].
  rewrite Hsharpe, Hvol, Htrp. unfold Metrics.riskFreeRate.
  ncompute. reflexivity.
Qed.

(** C6 (amended): the Sharpe ratio is (total return percent / 100 - 0.04)
    / (volatility percent / 100), the risk-free rate being the constant
    0.04; the division is not guarded: when the volatility is 0 and the
    excess return is the finite number [e], the ratio is [Infinity] for
    [e > 0], [-Infinity] for [e < 0] and [NaN] for [e = 0]. *)
Theorem C6_sharpe_ratio_unguarded yearStart positions snapshots :
  snapshots <> [] ->
  exists m,
    Metrics.calculateMockMetrics yearStart positions snapshots = Ok m /\
    PerformanceMetrics.sharpeRatio m
      = div (sub (div (PerformanceMetrics.totalReturnPercent m) (Fin 100%R))
                 (Fin 0.04%R))
            (div (PerformanceMetrics.volatility m) (Fin 100%R)) /\
    (forall e : R,
        PerformanceMetrics.volatility m = Fin 0%R ->
        sub (div (PerformanceMetrics.totalReturnPercent m) (Fin 100%R)) (Fin 0.04%R)
          = Fin e ->
        PerformanceMetrics.sharpeRatio m = inf_of_sign e).
Proof.
  intros Hne.
  destruct snapshots as [| s rest]; [congruence |].
  destruct (calculateMockMetrics_nonempty yearStart positions s rest)
    as [m (Hm & _ & _ & Hsharpe & _)].
  exists m. split; [exact Hm |]. split; [exact Hsharpe |].
  intros e Hvol He.
  rewrite Hsharpe. unfold Metrics.riskFreeRate. rewrite He, Hvol.
  cbn. rcmp. replace (0 / 100)%R with 0%R by lra. rcmp. reflexivity.
Qed.

Lemma C6_sharpe_ratio_witness :
  let snap := fun v : R => PortfolioSnapshot.mk (Some 0%Z) (Fin v) (Fin 0%R) [] in
  let p := Position.mk "AAA" "AAA" (Fin 1%R) (Fin 100%R) (Fin 110%R) (Fin 110%R)
             (Fin 10%R) (Fin 10%R) "Technology" stock in
  exists m,
    Metrics.calculateMockMetrics (Some 0%Z) [p] [snap 100%R; snap 110%R; snap 121%R] = Ok m /\
    PerformanceMetrics.sharpeRatio m
      = div (sub (div (PerformanceMetrics.totalReturnPercent m) (Fin 100%R))
                 (Fin 0.04%R))
            (div (PerformanceMetrics.volatility m) (Fin 100%R)).
Proof.
  intros snap p.
  destruct (C6_sharpe_ratio_unguarded (Some 0%Z) [p]
              [snap 100%R; snap 110%R; snap 121%R]) as [m (Hm & Hsharpe & _)].
  - discriminate.
  - exists m. split; [exact Hm | exact Hsharpe].
Defined.

(* ================================================================= *)
(** ** Sorting and sums *)

Section SortFacts.

Context {A : Type} (compareFn : A -> A -> num).

Lemma sort_insert_perm (x : A) (l : list A) :
  Permutation (sort_insert compareFn x l) (x :: l).
Proof.
  induction l as [| y l IH]; cbn; [reflexivity |].
  destruct (gt (compareFn x y) (Fin 0%R)); [| reflexivity].
  rewrite IH. apply perm_swap.
Qed.

Lemma Array_sort_perm (l : list A) : Permutation (Array_sort compareFn l) l.
Proof.
  induction l as [| x l IH]; cbn; [reflexivity |].
  rewrite sort_insert_perm. now constructor.
Qed.

End SortFacts.

Arguments Spec.sum : simpl never.

Section SumFacts.

Local Open Scope R_scope.

Lemma sum_nil : Spec.sum [] = Fin 0.
Proof. reflexivity. Qed.

Lemma sum_cons (x : num) (l : list num) :
  Spec.sum (x :: l) = add x (Spec.sum l).
Proof. reflexivity. Qed.

Lemma sum_perm (l l' : list num) :
  Permutation l l' -> Spec.sum l = Spec.sum l'.
Proof.
  induction 1 as [| x l l' _ IH | x y l | l l' l'' _ IH1 _ IH2];
    rewrite ?sum_cons.
  - reflexivity.
  - now rewrite IH.
  - rewrite !add_assoc. f_equal. apply add_comm.
  - now rewrite IH1.
Qed.

Lemma reduce_add_sum0 {A : Type} (f : A -> num) (l : list A) :
  reduce (fun s x => add s (f x)) (Fin 0) l = Spec.sum (map f l).
Proof.
  now rewrite reduce_add_sum, add_0_l.
Qed.

Lemma sum_finite (l : list num) :
  Forall is_finite l -> exists S : R, Spec.sum l = Fin S.
Proof.
  induction 1 as [| x l Hx _ [S IH]].
  - now exists 0.
  - destruct x; try contradiction.
    rewrite sum_cons, IH. now eexists.
Qed.

(** The percentages of finite parts of a non-zero whole add up to the
    percentage of their sum. *)
Lemma sum_percent (T : R) (vals : list num) :
  T <> 0 -> Forall is_finite vals ->
  forall S : R, Spec.sum vals = Fin S ->
    Spec.sum (map (fun v => mul (div v (Fin T)) (Fin 100)) vals)
    = Fin (S / T * 100).
Proof.
  intros HT. induction 1 as [| x l Hx Hl IH]; intros S HS.
  - injection HS as <-. cbn. rewrite sum_nil. f_equal. field. trivial.
  - destruct x as [r | | |]; try contradiction.
    destruct (sum_finite l Hl) as [S' HS'].
    rewrite sum_cons, HS' in HS. injection HS as <-.
    cbn [map]. rewrite sum_cons, (IH S' HS').
    rcases T 0; try lra; ncompute; f_equal; field; trivial.
Qed.

(** A finite part of a zero whole: the percentage is [NaN] for a zero part
    and an infinity otherwise. *)
Lemma percent_of_zero (r : R) :
  mul (div (Fin r) (Fin 0)) (Fin 100) = inf_of_sign r.
Proof.
  cbn. rcmp. unfold inf_of_sign. rcases r 0; cbn; unfold inf_of_sign; rcmp; reflexivity.
Qed.

End SumFacts.

Section TableFacts.

Context {V : Type}.

Lemma assoc_set_sum (g : V -> num) (k : string) (v : V) (x : num)
      (m : list (string * V)) :
  g v = add (match assoc_get k m with Some o => g o | None => Fin 0%R end) x ->
  Spec.sum (map (fun kv => g (snd kv)) (assoc_set k v m))
  = add (Spec.sum (map (fun kv => g (snd kv)) m)) x.
Proof.
  induction m as [| [k' v'] m IH]; cbn; intros Hv.
  - rewrite sum_cons, !sum_nil, Hv. now rewrite add_0_r.
  - destruct (String.eqb k k') eqn:E; cbn; rewrite !sum_cons; cbn.
    + rewrite Hv. rewrite <- !add_assoc. f_equal. apply add_comm.
    + rewrite IH by trivial. now rewrite add_assoc.
Qed.

Lemma assoc_set_Forall (P : V -> Prop) (k : string) (v : V) (m : list (string * V)) :
  P v -> Forall (fun kv => P (snd kv)) m ->
  Forall (fun kv => P (snd kv)) (assoc_set k v m).
Proof.
  intros Hv. induction 1 as [| [k' v'] m Hk Hm IH]; cbn.
  - now repeat constructor.
  - destruct (String.eqb k k'); constructor; trivial.
Qed.

Lemma assoc_get_Forall (P : V -> Prop) (k : string) (m : list (string * V)) (o : V) :
  Forall (fun kv => P (snd kv)) m -> assoc_get k m = Some o -> P o.
Proof.
  induction 1 as [| [k' v'] m Hk Hm IH]; cbn; [discriminate |].
  destruct (String.eqb k k'); [| exact IH].
  now intros [= <-].
Qed.

End TableFacts.

(* ================================================================= *)
(** ** The allocation engine *)

Section AllocationFacts.

Import Metrics Allocation.
Local Open Scope R_scope.

Lemma sumMarketValue_sum (positions : list Position.t) :
  sumMarketValue positions = Spec.sum (map Position.marketValue positions).
Proof.
  apply reduce_add_sum0.
Qed.

(** Every market value goes to exactly one entry of [sectorMap]. *)
Lemma sectorMap_sum (positions : list Position.t) (init : list (string * sectorData)) :
  Spec.sum (map (fun kv => fst (snd kv)) (fold_left sectorStep positions init))
  = add (Spec.sum (map (fun kv => fst (snd kv)) init))
        (Spec.sum (map Position.marketValue positions)).
Proof.
  revert init. induction positions as [| p positions IH]; intros init; cbn.
  - now rewrite sum_nil, add_0_r.
  - rewrite IH, sum_cons. unfold sectorStep.
    rewrite (assoc_set_sum fst _ _ (Position.marketValue p)).
    + now rewrite add_assoc.
    + cbn. now destruct (assoc_get _ _).
Qed.

Lemma sectorMap_finite (positions : list Position.t) (init : list (string * sectorData)) :
  Forall (fun p => is_finite (Position.marketValue p)) positions ->
  Forall (fun kv => is_finite (fst (snd kv))) init ->
  Forall (fun kv => is_finite (fst (snd kv))) (fold_left sectorStep positions init).
Proof.
  intros Hpos. revert init.
  induction Hpos as [| p positions Hp _ IH]; intros init Hinit; cbn; [trivial |].
  apply IH. unfold sectorStep.
  apply (assoc_set_Forall (fun d => is_finite (fst d))); trivial.
  cbn. destruct (assoc_get _ init) as [d |] eqn:E.
  - apply (assoc_get_Forall (fun d => is_finite (fst d))) in E; trivial.
    destruct (fst d), (Position.marketValue p); cbn in *; trivial.
  - destruct (Position.marketValue p); cbn in *; trivial.
Qed.

(** On a finite entry, [existing || 0] is the entry. *)
Lemma or_num_zero_finite (o : num) :
  is_finite o -> or_num (Some o) (Fin 0) = o.
Proof.
  destruct o as [a | | |]; try contradiction. intros _.
  cbn. rcases a 0; trivial. now subst.
Qed.

Lemma assetMap_invariant (positions : list Position.t) (init : list (string * num)) :
  Forall (fun p => is_finite (Position.marketValue p)) positions ->
  Forall (fun kv => is_finite (snd kv)) init ->
  Forall (fun kv => is_finite (snd kv)) (fold_left assetStep positions init) /\
  Spec.sum (map (fun kv => snd kv) (fold_left assetStep positions init))
  = add (Spec.sum (map (fun kv => snd kv) init))
        (Spec.sum (map Position.marketValue positions)).
Proof.
  intros Hpos. revert init.
  induction Hpos as [| p positions Hp _ IH]; intros init Hinit; cbn.
  - split; [trivial | now rewrite sum_nil, add_0_r].
  - assert (Hold : or_num (assoc_get (AssetType_str (Position.assetType p)) init) (Fin 0)
                   = match assoc_get (AssetType_str (Position.assetType p)) init with
                     | Some o => o
                     | None => Fin 0
                     end).
    { destruct (assoc_get _ init) as [o |] eqn:E; [| reflexivity].
      apply or_num_zero_finite.
      now apply (assoc_get_Forall is_finite) in E. }
    assert (Hfin : is_finite
                     (add (or_num (assoc_get (AssetType_str (Position.assetType p)) init)
                                  (Fin 0))
                          (Position.marketValue p))).
    { rewrite Hold.
      destruct (assoc_get _ init) as [o |] eqn:E.
      - apply (assoc_get_Forall is_finite) in E; trivial.
        destruct o, (Position.marketValue p); cbn in *; trivial.
      - destruct (Position.marketValue p); cbn in *; trivial. }
    destruct (IH (assetStep init p)) as [IH1 IH2].
    { unfold assetStep. now apply (assoc_set_Forall is_finite). }
    split; [exact IH1 |].
    rewrite IH2, sum_cons. unfold assetStep.
    rewrite (assoc_set_sum (fun v => v) _ _ (Position.marketValue p)).
    + now rewrite add_assoc.
    + now rewrite Hold.
Qed.

End AllocationFacts.

Section Percentages.

Import Metrics Allocation.
Local Open Scope R_scope.

Lemma Forall_sorted {A : Type} (P : A -> Prop) (compareFn : A -> A -> num)
      (l : list A) :
  Forall P l -> Forall P (Array_sort compareFn l).
Proof.
  apply Permutation_Forall. symmetry. apply Array_sort_perm.
Qed.

Lemma sector_percentages_zero_total (positions : list Position.t) :
  Forall (fun p => is_finite (Position.marketValue p)) positions ->
  sumMarketValue positions = Fin 0 ->
  Forall (fun a => exists v : R,
              SectorAllocation.value a = Fin v /\
              SectorAllocation.percentage a = inf_of_sign v)
         (calculateSectorAllocations positions).
Proof.
  intros Hfin Hzero. unfold calculateSectorAllocations.
  apply Forall_sorted, Forall_map. rewrite Hzero.
  pose proof (sectorMap_finite positions [] Hfin (Forall_nil _)) as Hmap.
  revert Hmap. apply Forall_impl. intros [k [v c]]. cbn.
  destruct v as [r | | |]; try contradiction. intros _.
  exists r. split; [reflexivity |]. apply percent_of_zero.
Qed.

Lemma asset_percentages_zero_total (positions : list Position.t) :
  Forall (fun p => is_finite (Position.marketValue p)) positions ->
  sumMarketValue positions = Fin 0 ->
  Forall (fun a => exists v : R,
              AssetAllocation.value a = Fin v /\
              AssetAllocation.percentage a = inf_of_sign v)
         (calculateAssetAllocations positions).
Proof.
  intros Hfin Hzero. unfold calculateAssetAllocations.
  apply Forall_sorted, Forall_map. rewrite Hzero.
  destruct (assetMap_invariant positions [] Hfin (Forall_nil _)) as [Hmap _].
  revert Hmap. apply Forall_impl. intros [k v]. cbn.
  destruct v as [r | | |]; try contradiction. intros _.
  exists r. split; [reflexivity |]. apply percent_of_zero.
Qed.

Lemma sector_percentages_sum (positions : list Position.t) (T : R) :
  Forall (fun p => is_finite (Position.marketValue p)) positions ->
  sumMarketValue positions = Fin T -> T <> 0 ->
  reduce (fun sum a => add sum (SectorAllocation.percentage a)) (Fin 0)
         (calculateSectorAllocations positions) = Fin 100.
Proof.
  intros Hfin HT Hnz.
  rewrite reduce_add_sum0. unfold calculateSectorAllocations.
  rewrite (sum_perm _ _ (Permutation_map _ (Array_sort_perm _ _))).
  rewrite map_map, HT.
  rewrite (map_ext _ (fun kv : string * sectorData =>
                        mul (div (fst (snd kv)) (Fin T)) (Fin 100)))
    by (now intros [k d]).
  rewrite <- (map_map (fun kv : string * sectorData => fst (snd kv))
                      (fun v => mul (div v (Fin T)) (Fin 100))).
  rewrite (sum_percent T _ Hnz) with (S := T).
  - f_equal. field. trivial.
  - apply Forall_map. exact (sectorMap_finite positions [] Hfin (Forall_nil _)).
  - rewrite sectorMap_sum. cbn [map]. rewrite sum_nil, add_0_l.
    now rewrite <- sumMarketValue_sum.
Qed.

Lemma asset_percentages_sum (positions : list Position.t) (T : R) :
  Forall (fun p => is_finite (Position.marketValue p)) positions ->
  sumMarketValue positions = Fin T -> T <> 0 ->
  reduce (fun sum a => add sum (AssetAllocation.percentage a)) (Fin 0)
         (calculateAssetAllocations positions) = Fin 100.
Proof.
  intros Hfin HT Hnz.
  destruct (assetMap_invariant positions [] Hfin (Forall_nil _)) as [Hmap Hsum].
  rewrite reduce_add_sum0. unfold calculateAssetAllocations.
  rewrite (sum_perm _ _ (Permutation_map _ (Array_sort_perm _ _))).
  rewrite map_map, HT.
  rewrite (map_ext _ (fun kv : string * num =>
                        mul (div (snd kv) (Fin T)) (Fin 100)))
    by (now intros [k d]).
  rewrite <- (map_map (fun kv : string * num => snd kv)
                      (fun v => mul (div v (Fin T)) (Fin 100))).
  rewrite (sum_percent T _ Hnz) with (S := T).
  - f_equal. field. trivial.
  - now apply Forall_map.
  - rewrite Hsum. cbn [map]. rewrite sum_nil, add_0_l.
    now rewrite <- sumMarketValue_sum.
Qed.

End Percentages.

(** C3, as first stated, does not hold.  A single position of market value
    0 makes a total of 0, and the percentage of its group is [NaN] in both
    breakdowns. *)
Lemma C3_zero_total_gives_NaN :
  let p := Position.mk "AAA" "AAA" (Fin 0%R) (Fin 100%R) (Fin 110%R) (Fin 0%R)
             (Fin 0%R) (Fin 0%R) "Technology" stock in
  Metrics.sumMarketValue [p] = Fin (0 + 0)%R /\
  map SectorAllocation.percentage (Allocation.calculateSectorAllocations [p]) = [NaN] /\
  map AssetAllocation.percentage (Allocation.calculateAssetAllocations [p]) = [NaN].
Proof.
  intros p. split; [reflexivity |].
  split; ncompute; reflexivity.
Qed.

(** C3 (amended): for positions of finite market value, in the sector and
    in the asset-type breakdown alike: when the total market value is 0 the
    division is not guarded, and the percentage of a group is [NaN] when the
    value of the group is 0 and an infinity of its sign otherwise; when the
    total is positive the percentages add up to 100. *)
Theorem C3_percentages_of_total (positions : list Position.t) (T : R) :
  Forall (fun p => is_finite (Position.marketValue p)) positions ->
  Metrics.sumMarketValue positions = Fin T ->
  (T = 0%R ->
   Forall (fun a => exists v : R,
               SectorAllocation.value a = Fin v /\
               SectorAllocation.percentage a = inf_of_sign v)
          (Allocation.calculateSectorAllocations positions) /\
   Forall (fun a => exists v : R,
               AssetAllocation.value a = Fin v /\
               AssetAllocation.percentage a = inf_of_sign v)
          (Allocation.calculateAssetAllocations positions)) /\
  ((0 < T)%R ->
   reduce (fun sum a => add sum (SectorAllocation.percentage a)) (Fin 0%R)
          (Allocation.calculateSectorAllocations positions) = Fin 100%R /\
   reduce (fun sum a => add sum (AssetAllocation.percentage a)) (Fin 0%R)
          (Allocation.calculateAssetAllocations positions) = Fin 100%R).
Proof.
  intros Hfin HT. split.
  - intros ->. split.
    + now apply sector_percentages_zero_total.
    + now apply asset_percentages_zero_total.
  - intros Hpos. split.
    + apply (sector_percentages_sum positions T); trivial. lra.
    + apply (asset_percentages_sum positions T); trivial. lra.
Qed.

(** The scenario of the specification: ten units at 110. *)
Lemma C3_percentages_witness :
  let p := Position.mk "AAA" "AAA" (Fin 10%R) (Fin 100%R) (Fin 110%R) (Fin 1100%R)
             (Fin 100%R) (Fin 10%R) "Technology" stock in
  reduce (fun sum a => add sum (SectorAllocation.percentage a)) (Fin 0%R)
         (Allocation.calculateSectorAllocations [p]) = Fin 100%R /\
  reduce (fun sum a => add sum (AssetAllocation.percentage a)) (Fin 0%R)
         (Allocation.calculateAssetAllocations [p]) = Fin 100%R.
Proof.
  intros p.
  apply (C3_percentages_of_total [p] (0 + 1100)%R).
  - repeat constructor.
  - reflexivity.
  - lra.
Defined.

(** The scenario of the specification, evaluated: one group, of value 1100
    and percentage 100. *)
Example scenario_allocation :
  let p := Position.mk "AAA" "AAA" (Fin 10%R) (Fin 100%R) (Fin 110%R) (Fin 1100%R)
             (Fin 100%R) (Fin 10%R) "Technology" stock in
  Allocation.calculateAssetAllocations [p]
    = [AssetAllocation.mk "stock" (Fin 1100%R) (Fin 100%R)] /\
  Allocation.calculateSectorAllocations [p]
    = [SectorAllocation.mk "Technology" (Fin 1100%R) (Fin 100%R) (Fin 1%R)].
Proof.
  intros p. split; ncompute; repeat f_equal; lra.
Qed.

(* ================================================================= *)
(** ** The snapshot generator *)

Section GeneratorFacts.

Import Metrics Generator.
Local Open Scope R_scope.

(** Scaling every position by a finite non-zero factor scales their sum. *)
Lemma sumMarketValue_scaled (g : R) (positions : list Position.t) :
  g <> 0 ->
  sumMarketValue (map (scalePosition (Fin g)) positions)
  = div (sumMarketValue positions) (Fin g).
Proof.
  intros Hg. rewrite !sumMarketValue_sum.
  induction positions as [| p positions IH]; cbn [map].
  - rewrite sum_nil. now rewrite div_0_l.
  - rewrite !sum_cons, IH, div_add_distr by trivial. reflexivity.
Qed.

(** The growth factor of day [i] is a finite number, at least 0.99. *)
Lemma growthFactor_finite (i : nat) (r : R) :
  (i <= daysBack)%nat -> 0 <= r < 1 ->
  exists g : R,
    add (add (Fin 1) (mul (sub (of_nat daysBack) (of_nat i)) (Fin 0.0003)))
        (mul (sub (Fin r) (Fin 0.5)) (Fin 0.02)) = Fin g /\
    0.99 <= g.
Proof.
  intros Hi Hr. eexists. split; [reflexivity |].
  apply le_INR in Hi. lra.
Qed.

Lemma genStep_invariant (now : Z) (rnd : nat -> R) (positions : list Position.t)
      (l : list nat) :
  (forall k, 0 <= rnd k < 1) ->
  Forall (fun i => (i <= daysBack)%nat) l ->
  forall (acc : list PortfolioSnapshot.t) (k : nat),
    Forall (fun s => PortfolioSnapshot.totalValue s
                     = sumMarketValue (PortfolioSnapshot.positions s)) acc ->
    Forall (fun s => PortfolioSnapshot.totalValue s
                     = sumMarketValue (PortfolioSnapshot.positions s))
           (fst (fold_left (genStep now rnd positions (sumMarketValue positions))
                           l (acc, k))).
Proof.
  intros Hrnd. induction 1 as [| i l Hi _ IH]; intros acc k Hacc; [exact Hacc |].
  cbn [fold_left]. unfold genStep at 2.
  destruct (growthFactor_finite i (rnd k) Hi (Hrnd k)) as [g [-> Hg]].
  apply IH. apply Forall_app. split; [exact Hacc |].
  constructor; [| constructor].
  cbn [PortfolioSnapshot.totalValue PortfolioSnapshot.positions].
  symmetry. apply sumMarketValue_scaled. lra.
Qed.

Lemma loopIndices_bounded : Forall (fun i => (i <= daysBack)%nat) loopIndices.
Proof.
  apply Forall_forall. intros i Hi.
  unfold loopIndices in Hi. apply in_rev, in_seq in Hi. lia.
Qed.

End GeneratorFacts.

(** The generator produces one snapshot per day of the year back, today
    included. *)
Lemma generateMockHistoricalSnapshots_length now rnd positions :
  List.length (Generator.generateMockHistoricalSnapshots now rnd positions) = 366%nat.
Proof.
  unfold Generator.generateMockHistoricalSnapshots.
  assert (H : forall l acc k,
             List.length
               (fst (fold_left (Generator.genStep now rnd positions
                                  (Metrics.sumMarketValue positions)) l (acc, k)))
             = (List.length acc + List.length l)%nat).
  { induction l as [| i l IH]; intros acc k; cbn [fold_left].
    - cbn. lia.
    - unfold Generator.genStep at 2. rewrite IH, length_app. cbn. lia. }
  rewrite H. unfold Generator.loopIndices. now rewrite length_rev, length_seq.
Qed.

(* ================================================================= *)
(** ** Strings up to case *)

Section CaseFacts.

Import SpecTx.

Lemma nat_of_lower_ascii (c : ascii) :
  nat_of_ascii (lower_ascii c)
  = if ((65 <=? nat_of_ascii c) && (nat_of_ascii c <=? 90))%nat
    then (nat_of_ascii c + 32)%nat
    else nat_of_ascii c.
Proof.
  unfold lower_ascii.
  destruct ((65 <=? nat_of_ascii c) && (nat_of_ascii c <=? 90))%nat eqn:E;
    [| reflexivity].
  apply andb_true_iff in E as [_ E]. apply Nat.leb_le in E.
  apply nat_ascii_embedding. lia.
Qed.

Lemma nat_of_ascii_inj (c d : ascii) : nat_of_ascii c = nat_of_ascii d -> c = d.
Proof.
  intros H. rewrite <- (ascii_nat_embedding c), <- (ascii_nat_embedding d).
  now rewrite H.
Qed.

Lemma lower_ascii_eq_iff (c d : ascii) :
  lower_ascii c = lower_ascii d <-> same_letter c d.
Proof.
  unfold same_letter, is_upper. split.
  - intros H. apply (f_equal nat_of_ascii) in H.
    rewrite !nat_of_lower_ascii in H.
    destruct (Nat.leb_spec 65 (nat_of_ascii c)), (Nat.leb_spec (nat_of_ascii c) 90),
      (Nat.leb_spec 65 (nat_of_ascii d)), (Nat.leb_spec (nat_of_ascii d) 90);
      cbn [andb] in H;
      first [ left; apply nat_of_ascii_inj; lia
            | right; left; lia
            | right; right; lia ].
  - intros H. apply nat_of_ascii_inj. rewrite !nat_of_lower_ascii.
    destruct H as [-> | [[Hc Hd] | [Hd Hc]]]; [reflexivity | |];
      destruct (Nat.leb_spec 65 (nat_of_ascii c)), (Nat.leb_spec (nat_of_ascii c) 90),
        (Nat.leb_spec 65 (nat_of_ascii d)), (Nat.leb_spec (nat_of_ascii d) 90);
      cbn [andb]; lia.
Qed.

Lemma toLowerCaseASCII_app (a b : string) :
  toLowerCaseASCII (a ++ b) = (toLowerCaseASCII a ++ toLowerCaseASCII b)%string.
Proof.
  induction a as [| c a IH]; cbn; [reflexivity | now rewrite IH].
Qed.

Lemma toLowerCaseASCII_split (a b s : string) :
  toLowerCaseASCII s = (a ++ b)%string ->
  exists a' b', s = (a' ++ b')%string /\ toLowerCaseASCII a' = a /\ toLowerCaseASCII b' = b.
Proof.
  revert s. induction a as [| c a IH]; intros s H.
  - exists EmptyString, s. auto.
  - destruct s as [| d s]; [discriminate |].
    cbn in H. injection H as Hc Hs.
    destruct (IH s Hs) as (a' & b' & -> & Ha & Hb).
    exists (String d a'), b'. cbn. now rewrite Hc, Ha.
Qed.

Lemma ci_eq_iff (s s' : string) :
  ci_eq s s' <-> toLowerCaseASCII s = toLowerCaseASCII s'.
Proof.
  split.
  - induction 1 as [| c d s s' Hcd _ IH]; cbn; [reflexivity |].
    apply lower_ascii_eq_iff in Hcd. now rewrite Hcd, IH.
  - revert s'. induction s as [| c s IH]; intros [| d s'] H; try discriminate.
    + constructor.
    + cbn in H. injection H as Hc Hs.
      constructor; [now apply lower_ascii_eq_iff | now apply IH].
Qed.

Lemma startsWith_iff (s q : string) :
  startsWith s q = true <-> exists post, s = (q ++ post)%string.
Proof.
  revert s. induction q as [| c q IH]; intros s; cbn [startsWith].
  - split; [intros _; now exists s | now destruct s].
  - destruct s as [| d s]; cbn [startsWith append].
    + split; [discriminate | intros [post H]; discriminate].
    + rewrite andb_true_iff, Ascii.eqb_eq, IH. split.
      * intros [-> [post ->]]. now exists post.
      * intros [post [= -> ->]]. eauto.
Qed.

Lemma includes_iff (s q : string) :
  includes s q = true <-> exists pre post, s = (pre ++ q ++ post)%string.
Proof.
  induction s as [| d s IH].
  - cbn [includes]. rewrite orb_false_r, startsWith_iff. split.
    + intros [post H]. now exists EmptyString, post.
    + intros [[| c pre] [post H]]; [now exists post | discriminate].
  - cbn [includes]. rewrite orb_true_iff, startsWith_iff, IH. split.
    + intros [[post H] | (pre & post & H)].
      * now exists EmptyString, post.
      * exists (String d pre), post. cbn. now rewrite H.
    + intros [[| c pre] [post H]].
      * left. now exists post.
      * right. injection H as _ H. now exists pre, post.
Qed.

(** The test of the text query: a substring up to case. *)
Lemma includes_lower_iff (s q : string) :
  includes (toLowerCaseASCII s) (toLowerCaseASCII q) = true <-> ci_substring q s.
Proof.
  rewrite includes_iff. unfold ci_substring. split.
  - intros (pre & post & H).
    apply toLowerCaseASCII_split in H as (pre' & r & -> & Hpre & Hr).
    apply toLowerCaseASCII_split in Hr as (mid & post' & -> & Hmid & Hpost).
    exists pre', mid, post'. split; [reflexivity | now apply ci_eq_iff].
  - intros (pre & mid & post & -> & Hci).
    apply ci_eq_iff in Hci.
    exists (toLowerCaseASCII pre), (toLowerCaseASCII post).
    now rewrite !toLowerCaseASCII_app, Hci.
Qed.

End CaseFacts.

(* ================================================================= *)
(** ** The transaction filter *)

Section FilterFacts.

Import Transaction Transactions SpecTx.

Variable newDate : string -> Date.
Variable toLowerCase : string -> string.

Lemma TxType_eqb_eq (a b : TxType) : TxType_eqb a b = true <-> a = b.
Proof.
  destruct a, b; cbn; split; congruence.
Qed.

Lemma date_ge_iff (a b : Date) :
  date_ge a b = true <-> exists x y : Z, a = Some x /\ b = Some y /\ (y <= x)%Z.
Proof.
  destruct a as [x |], b as [y |]; cbn.
  - rewrite Z.leb_le. split.
    + intros H. now exists x, y.
    + now intros (x' & y' & [= <-] & [= <-] & H).
  - split; [discriminate | now intros (x' & y' & _ & H & _)].
  - split; [discriminate | now intros (x' & y' & H & _)].
  - split; [discriminate | now intros (x' & y' & H & _)].
Qed.

Lemma date_le_iff (a b : Date) :
  date_le a b = true <-> exists x y : Z, a = Some x /\ b = Some y /\ (x <= y)%Z.
Proof.
  destruct a as [x |], b as [y |]; cbn.
  - rewrite Z.leb_le. split.
    + intros H. now exists x, y.
    + now intros (x' & y' & [= <-] & [= <-] & H).
  - split; [discriminate | now intros (x' & y' & _ & H & _)].
  - split; [discriminate | now intros (x' & y' & H & _)].
  - split; [discriminate | now intros (x' & y' & H & _)].
Qed.

(** The callback keeps a transaction exactly when every predicate supplied
    holds of it, the text being compared in lower case. *)
Lemma matchesFilter_iff_lowered (f : FilterState) (t0 : t) :
  matchesFilter newDate toLowerCase f t0 = true
  <-> matches_all_lowered newDate toLowerCase f t0.
Proof.
  unfold matchesFilter, matches_all_lowered, matches_type, matches_symbol,
    matches_lowered, matches_from, matches_to, substring.
  rewrite !andb_true_iff, !orb_true_iff, !String.eqb_eq, !includes_iff,
    date_ge_iff, date_le_iff.
  destruct (filterType f) as [| ty].
  - tauto.
  - rewrite TxType_eqb_eq. tauto.
Qed.

(** On ASCII text, lower case compares the strings up to the case of their
    letters. *)
Lemma matchesFilter_iff (f : FilterState) (t0 : t) :
  lowers_ascii toLowerCase ->
  is_ascii_string (searchQuery f) = true ->
  is_ascii_string (symbol t0) = true ->
  is_ascii_string (id t0) = true ->
  (matchesFilter newDate toLowerCase f t0 = true <-> matches_all newDate f t0).
Proof.
  intros Hlower Hq Hs Hi.
  unfold matchesFilter, matches_all, matches_type, matches_symbol, matches_text,
    matches_from, matches_to.
  rewrite (Hlower _ Hq), (Hlower _ Hs), (Hlower _ Hi).
  rewrite !andb_true_iff, !orb_true_iff, !String.eqb_eq, !includes_lower_iff,
    date_ge_iff, date_le_iff.
  destruct (filterType f) as [| ty].
  - tauto.
  - rewrite TxType_eqb_eq. tauto.
Qed.

Lemma filter_subseq {A : Type} (keep : A -> bool) (l : list A) :
  subseq (filter keep l) l.
Proof.
  induction l as [| x l IH]; cbn; [constructor |].
  destruct (keep x); now constructor.
Qed.

Lemma matchesFilter_noFilter (t0 : t) :
  matchesFilter newDate toLowerCase noFilter t0 = true.
Proof. reflexivity. Qed.

End FilterFacts.

(** C9: with no predicate chosen the filter returns the transactions as
    they are; with any choice of predicates its result is a subsequence of
    the transactions, in their order, made of exactly the transactions of
    which every predicate supplied holds, the text query being looked for,
    in lower case, in the symbol or in the id in lower case; on ASCII text
    that is a search up to the case of the letters. *)
Theorem C9_filter_is_conjunctive_subsequence
        (newDate : string -> Date) (toLowerCase : string -> string)
        (transactions : list Transaction.t) :
  Transactions.filteredTransactions newDate toLowerCase Transactions.noFilter
                                    transactions
    = transactions /\
  forall f : Transactions.FilterState,
    SpecTx.subseq (Transactions.filteredTransactions newDate toLowerCase f transactions)
                  transactions /\
    Transactions.filteredTransactions newDate toLowerCase f transactions
      = filter (Transactions.matchesFilter newDate toLowerCase f) transactions /\
    forall t0 : Transaction.t,
      (Transactions.matchesFilter newDate toLowerCase f t0 = true
       <-> SpecTx.matches_all_lowered newDate toLowerCase f t0) /\
      (lowers_ascii toLowerCase ->
       is_ascii_string (Transactions.searchQuery f) = true ->
       is_ascii_string (Transaction.symbol t0) = true ->
       is_ascii_string (Transaction.id t0) = true ->
       (Transactions.matchesFilter newDate toLowerCase f t0 = true
        <-> SpecTx.matches_all newDate f t0)).
Proof.
  split.
  - unfold Transactions.filteredTransactions.
    induction transactions as [| t0 l IH]; cbn [filter]; [reflexivity |].
    rewrite matchesFilter_noFilter. now rewrite IH.
  - intros f. split; [apply filter_subseq |].
    split; [reflexivity |].
    intros t0. split; [apply matchesFilter_iff_lowered | apply matchesFilter_iff].
Qed.

(** The query "aap" against the symbol "AAPL", the lower case being that of
    the ASCII letters. *)
Lemma C9_filter_witness :
  let f := Transactions.mkFilter (only buy) "all" "aap" EmptyString EmptyString in
  let t0 := Transaction.mk "txn-0" (Some 3%Z) "AAPL" buy (Fin 1%R) (Fin 10%R)
                           (Fin 10%R) (Fin 0%R) in
  Transactions.matchesFilter (fun _ => None) toLowerCaseASCII f t0 = true
  <-> SpecTx.matches_all (fun _ => None) f t0.
Proof.
  intros f t0.
  apply (C9_filter_is_conjunctive_subsequence (fun _ => None) toLowerCaseASCII [t0]).
  - intros s _. reflexivity.
  - reflexivity.
  - reflexivity.
  - reflexivity.
Defined.

(** A filter at work: buys whose symbol or id contains "aap", whatever the
    case. *)
Example scenario_filter :
  let tx := fun (i s : string) (ty : TxType) (d : Z) =>
              Transaction.mk i (Some d) s ty (Fin 1%R) (Fin 10%R) (Fin 10%R) (Fin 0%R) in
  let f := Transactions.mkFilter (only buy) "all" "aap" EmptyString EmptyString in
  Transactions.filteredTransactions (fun _ => None) toLowerCaseASCII f
    [tx "txn-0" "AAPL" buy 3%Z; tx "txn-1" "MSFT" buy 2%Z; tx "txn-2" "AAPL" sell 1%Z]%string
  = [tx "txn-0" "AAPL" buy 3%Z]%string.
Proof. reflexivity. Qed.

(* ================================================================= *)
(** ** The sort is stable and descending *)

Section StableSort.

Import SpecTx.
Local Open Scope R_scope.

Context {A : Type} (compareFn : A -> A -> num) (vol : A -> R) (ok : A -> Prop).

(** On the elements at hand the comparator is [vol b - vol a]. *)
Hypothesis compare_vol :
  forall x y, ok x -> ok y ->
    (gt (compareFn x y) (Fin 0) = true <-> vol x < vol y).

Lemma comes_before_cons (x a b : A) (l : list A) :
  comes_before a b l -> comes_before a b (x :: l).
Proof.
  intros (l1 & l2 & l3 & ->). now exists (x :: l1), l2, l3.
Qed.

Lemma comes_before_head (x y : A) (l : list A) :
  In y l -> comes_before x y (x :: l).
Proof.
  intros Hy. apply in_split in Hy as (l2 & l3 & ->). now exists [], l2, l3.
Qed.

Lemma StronglySorted_weaken (R R' : A -> A -> Prop) (l : list A) :
  (forall a b, R a b -> R' a b) -> StronglySorted R l -> StronglySorted R' l.
Proof.
  intros HR. induction 1 as [| a l _ IH Hall]; constructor; trivial.
  revert Hall. apply Forall_impl. apply HR.
Qed.

Lemma Forall_perm (P : A -> Prop) (l l' : list A) :
  Permutation l l' -> Forall P l -> Forall P l'.
Proof.
  intros Hp Hl. rewrite Forall_forall in *. intros z Hz.
  apply Hl. apply (Permutation_in z (Permutation_sym Hp)), Hz.
Qed.

Lemma sort_insert_ranked (input : list A) (x : A) (s : list A) :
  ok x -> Forall ok s ->
  (forall y, In y s -> comes_before x y input) ->
  StronglySorted (ranks_before vol input) s ->
  StronglySorted (ranks_before vol input) (sort_insert compareFn x s).
Proof.
  intros Hx Hok Hbefore Hsorted.
  induction Hsorted as [| y s Hs IH Hall]; cbn.
  - repeat constructor.
  - apply Forall_cons_iff in Hok as [Hy Hok].
    destruct (gt (compareFn x y) (Fin 0)) eqn:E.
    + apply compare_vol in E; trivial.
      constructor.
      * apply IH; trivial. intros z Hz. apply Hbefore. now right.
      * apply (Forall_perm _ (x :: s)).
        -- symmetry. apply sort_insert_perm.
        -- constructor; trivial. now left.
    + assert (Hle : vol y <= vol x).
      { destruct (Rle_or_lt (vol y) (vol x)) as [H | H]; trivial.
        apply compare_vol in H; trivial. congruence. }
      constructor; [now constructor |].
      constructor.
      * destruct Hle as [Hlt | Heq]; [now left |].
        right. split; [now symmetry |]. apply Hbefore. now left.
      * rewrite Forall_forall in *. intros z Hz.
        destruct (Hall z Hz) as [Hlt | [Heq _]].
        -- left. lra.
        -- destruct Hle as [Hlt | Heq']; [left; lra |].
           right. split; [lra |]. apply Hbefore. now right.
Qed.

Lemma Array_sort_ranked (l : list A) :
  Forall ok l ->
  StronglySorted (ranks_before vol l) (Array_sort compareFn l).
Proof.
  induction 1 as [| x l Hx Hl IH]; cbn; [constructor |].
  apply sort_insert_ranked; trivial.
  - apply (Forall_perm _ l); trivial.
    symmetry. apply Array_sort_perm.
  - intros y Hy. apply comes_before_head.
    apply (Permutation_in y (Array_sort_perm compareFn l)), Hy.
  - apply (StronglySorted_weaken (ranks_before vol l)); trivial.
    intros a b [Hlt | [Heq Hb]]; [now left |].
    right. split; trivial. now apply comes_before_cons.
Qed.

End StableSort.

(* ================================================================= *)
(** ** The volume table *)

Section VolumeTable.

Import Transaction Transactions SpecTx.
Local Open Scope R_scope.

Lemma sum_app (l l' : list num) :
  Spec.sum (l ++ l') = add (Spec.sum l) (Spec.sum l').
Proof.
  induction l as [| x l IH]; cbn [app].
  - now rewrite sum_nil, add_0_l.
  - now rewrite !sum_cons, IH, add_assoc.
Qed.

Lemma volume_of_snoc (s : string) (transactions : list t) (t0 : t) :
  volume_of s (transactions ++ [t0])
  = if String.eqb (symbol t0) s
    then add (volume_of s transactions) (total t0)
    else volume_of s transactions.
Proof.
  unfold volume_of. rewrite filter_app, fold_left_app. cbn [filter].
  now destruct (String.eqb (symbol t0) s).
Qed.

Lemma volume_of_absent (s : string) (transactions : list t) :
  ~ In s (map symbol transactions) -> volume_of s transactions = Fin 0.
Proof.
  unfold volume_of. induction transactions as [| t0 l IH]; cbn; intros Hs.
  - reflexivity.
  - destruct (String.eqb_spec (symbol t0) s) as [E | E]; [tauto |].
    apply IH. tauto.
Qed.

Lemma volume_of_finite (s : string) (transactions : list t) :
  Forall (fun t0 => is_finite (total t0)) transactions ->
  is_finite (volume_of s transactions).
Proof.
  intros H. unfold volume_of.
  change (fold_left (fun v t0 => add v (total t0))
            (filter (fun t0 => String.eqb (symbol t0) s) transactions) (Fin 0))
    with (reduce (fun v t0 => add v (total t0)) (Fin 0)
            (filter (fun t0 => String.eqb (symbol t0) s) transactions)).
  rewrite (reduce_add_sum0 total).
  destruct (sum_finite (map total (filter (fun t0 => String.eqb (symbol t0) s)
                                          transactions))) as [S ->]; [| exact I].
  apply Forall_map. rewrite Forall_forall in *.
  intros t0 Ht. apply filter_In in Ht as [Ht _]. now apply H.
Qed.

(** *** The symbols in the order of their first transaction *)

Lemma first_seen_In (s : string) (l : list string) :
  In s (first_seen l) <-> In s l.
Proof.
  induction l as [| a l IH]; cbn; [tauto |].
  rewrite filter_In, IH, negb_true_iff.
  destruct (String.eqb_spec s a) as [-> | E]; [tauto |].
  split; [tauto |]. intros [-> | H]; [congruence | tauto].
Qed.

Lemma first_seen_NoDup (l : list string) : NoDup (first_seen l).
Proof.
  induction l as [| a l IH]; cbn; constructor.
  - rewrite filter_In, negb_true_iff, String.eqb_refl. now intros [_ H].
  - now apply NoDup_filter.
Qed.

Lemma first_seen_snoc (l : list string) (s : string) :
  first_seen (l ++ [s])
  = if in_dec string_dec s l then first_seen l else first_seen l ++ [s].
Proof.
  induction l as [| a l IH]; cbn [app first_seen].
  - now destruct (in_dec string_dec s []).
  - rewrite IH.
    destruct (in_dec string_dec s l) as [Hl | Hl].
    + destruct (in_dec string_dec s (a :: l)) as [Hal | Hal]; [reflexivity |].
      exfalso. apply Hal. now right.
    + rewrite filter_app. cbn [filter].
      destruct (String.eqb_spec s a) as [-> | E]; cbn [negb].
      * rewrite app_nil_r.
        destruct (in_dec string_dec a (a :: l)) as [Hal | Hal]; [reflexivity |].
        exfalso. apply Hal. now left.
      * destruct (in_dec string_dec s (a :: l)) as [[Hal | Hal] | Hal];
          [congruence | contradiction | reflexivity].
Qed.

(** *** Reading and writing a table given by its keys *)

Lemma assoc_get_keys {V : Type} (F : string -> V) (k : string) (keys : list string) :
  assoc_get k (map (fun s => (s, F s)) keys)
  = if in_dec string_dec k keys then Some (F k) else None.
Proof.
  induction keys as [| a keys IH]; cbn [map assoc_get].
  - now destruct (in_dec string_dec k []).
  - destruct (String.eqb_spec k a) as [-> | E].
    + destruct (in_dec string_dec a (a :: keys)) as [H | H]; [reflexivity |].
      cbn in H. tauto.
    + rewrite IH.
      destruct (in_dec string_dec k keys) as [H | H],
               (in_dec string_dec k (a :: keys)) as [H' | H'];
        cbn in H'; try reflexivity; try tauto.
      destruct H' as [-> | H']; tauto.
Qed.

Lemma assoc_set_absent {V : Type} (k : string) (v : V) (m : list (string * V)) :
  assoc_get k m = None -> assoc_set k v m = m ++ [(k, v)].
Proof.
  induction m as [| [k' v'] m IH]; cbn; [reflexivity |].
  destruct (String.eqb k k'); [discriminate |].
  intros H. now rewrite IH.
Qed.

Lemma assoc_get_last {V : Type} (k : string) (v : V) (m : list (string * V)) :
  assoc_get k m = None -> assoc_get k (m ++ [(k, v)]) = Some v.
Proof.
  induction m as [| [k' v'] m IH]; cbn.
  - now rewrite String.eqb_refl.
  - destruct (String.eqb k k'); [discriminate | exact IH].
Qed.

Lemma assoc_set_last {V : Type} (k : string) (v v0 : V) (m : list (string * V)) :
  assoc_get k m = None -> assoc_set k v (m ++ [(k, v0)]) = m ++ [(k, v)].
Proof.
  induction m as [| [k' v'] m IH]; cbn.
  - now rewrite String.eqb_refl.
  - destruct (String.eqb k k'); [discriminate |].
    intros H. now rewrite IH.
Qed.

Lemma assoc_set_keys {V : Type} (F : string -> V) (k : string) (v : V)
      (keys : list string) :
  NoDup keys -> In k keys ->
  assoc_set k v (map (fun s => (s, F s)) keys)
  = map (fun s => (s, if String.eqb s k then v else F s)) keys.
Proof.
  induction 1 as [| a keys Ha Hkeys IH]; cbn [map assoc_set]; [contradiction |].
  intros Hk.
  destruct (String.eqb_spec k a) as [-> | E].
  - rewrite String.eqb_refl. f_equal.
    apply map_ext_in. intros s Hs.
    destruct (String.eqb_spec s a) as [-> | E']; [contradiction | reflexivity].
  - destruct (String.eqb_spec a k) as [E' | E']; [congruence |].
    f_equal. apply IH. destruct Hk as [-> | Hk]; [congruence | exact Hk].
Qed.

Lemma running_volume_snoc (s : string) (transactions : list t) (t0 : t) :
  running_volume s (transactions ++ [t0])
  = if String.eqb (symbol t0) s
    then add (if truthy (running_volume s transactions)
              then running_volume s transactions
              else Fin 0)
             (total t0)
    else running_volume s transactions.
Proof.
  unfold running_volume. now rewrite fold_left_app.
Qed.

Lemma running_volume_absent (s : string) (transactions : list t) :
  ~ In s (map symbol transactions) -> running_volume s transactions = Fin 0.
Proof.
  induction transactions as [| t0 l IH] using rev_ind; intros Hs; [reflexivity |].
  rewrite map_app, in_app_iff in Hs. cbn in Hs.
  rewrite running_volume_snoc.
  destruct (String.eqb_spec (symbol t0) s) as [E | E]; [tauto |].
  apply IH. tauto.
Qed.

(** On finite totals the accumulator holds the plain sum. *)
Lemma running_volume_finite (s : string) (transactions : list t) :
  Forall (fun t0 => is_finite (total t0)) transactions ->
  running_volume s transactions = volume_of s transactions.
Proof.
  induction transactions as [| t0 l IH] using rev_ind; intros Hfin; [reflexivity |].
  apply Forall_app in Hfin as [Hl Ht0].
  rewrite running_volume_snoc, volume_of_snoc, (IH Hl).
  destruct (String.eqb (symbol t0) s); [| reflexivity].
  f_equal. pose proof (volume_of_finite s l Hl) as Hf.
  destruct (volume_of s l) as [r | | |]; try contradiction.
  cbn. rcases r 0; trivial. now subst.
Qed.

(** A symbol that names no member of [Object.prototype]. *)
Lemma not_inherited_proto (k : string) :
  inherited k = false -> String.eqb k "__proto__" = false.
Proof.
  intros H. destruct (String.eqb_spec k "__proto__") as [-> | E]; [| reflexivity].
  discriminate H.
Qed.

(** The table built by the [reduce] when no symbol names a member of
    [Object.prototype]: one entry per symbol, in the order in which the
    symbols are first met. *)
Lemma symbolVolume_table (transactions : list t) :
  Forall (fun t0 => inherited (symbol t0) = false) transactions ->
  symbolVolume transactions
  = map (fun s => (s, Number (running_volume s transactions)))
        (first_seen (map symbol transactions)).
Proof.
  induction transactions as [| t0 l IH] using rev_ind; intros Hplain; [reflexivity |].
  apply Forall_app in Hplain as [Hl Ht0]. apply Forall_inv in Ht0.
  specialize (IH Hl).
  unfold symbolVolume, reduce in *. rewrite fold_left_app. cbn [fold_left].
  rewrite IH. clear IH.
  rewrite map_app. cbn [map]. rewrite first_seen_snoc.
  set (k := symbol t0) in *. set (keys := first_seen (map symbol l)).
  pose proof (first_seen_In k (map symbol l)) as Hkeys. fold keys in Hkeys.
  pose proof (first_seen_NoDup (map symbol l)) as Hnodup. fold keys in Hnodup.
  unfold volumeStep, Put, Get. fold k.
  rewrite (not_inherited_proto k Ht0), Ht0.
  rewrite (assoc_get_keys (fun s => Number (running_volume s l))).
  destruct (in_dec string_dec k keys) as [Hk | Hk];
    destruct (in_dec string_dec k (map symbol l)) as [Hk' | Hk'];
    try (exfalso; tauto).
  - (* a symbol met before *)
    cbn [falsy_prop].
    destruct (truthy (running_volume k l)) eqn:E; cbn [negb].
    + rewrite (assoc_get_keys (fun s => Number (running_volume s l))).
      destruct (in_dec string_dec k keys) as [_ | Hn]; [| contradiction].
      rewrite (assoc_set_keys (fun s => Number (running_volume s l))) by trivial.
      apply map_ext_in. intros s Hs. f_equal.
      rewrite running_volume_snoc. fold k.
      rewrite (String.eqb_sym k s).
      destruct (String.eqb_spec s k) as [-> | Hsk]; [cbn [plus]; now rewrite E
                                                   | reflexivity].
    + rewrite (assoc_set_keys (fun s => Number (running_volume s l))) by trivial.
      rewrite (assoc_get_keys (fun s => if String.eqb s k then Number (Fin 0)
                                        else Number (running_volume s l))).
      destruct (in_dec string_dec k keys) as [_ | Hn]; [| contradiction].
      rewrite String.eqb_refl.
      rewrite (assoc_set_keys (fun s => if String.eqb s k then Number (Fin 0)
                                        else Number (running_volume s l)))
        by trivial.
      apply map_ext_in. intros s Hs. f_equal.
      rewrite running_volume_snoc. fold k.
      rewrite (String.eqb_sym k s).
      destruct (String.eqb_spec s k) as [-> | Hsk]; [cbn [plus]; now rewrite E
                                                   | reflexivity].
  - (* a new symbol *)
    cbn [falsy_prop].
    assert (Hnone : assoc_get k (map (fun s => (s, Number (running_volume s l))) keys)
                    = None).
    { rewrite (assoc_get_keys (fun s => Number (running_volume s l))).
      now destruct (in_dec string_dec k keys). }
    rewrite (assoc_set_absent _ _ _ Hnone), (assoc_get_last _ _ _ Hnone),
      (assoc_set_last _ _ _ _ Hnone).
    rewrite map_app. cbn [map]. f_equal.
    + apply map_ext_in. intros s Hs. f_equal.
      rewrite running_volume_snoc. fold k.
      destruct (String.eqb_spec k s) as [<- | Hsk]; [contradiction | reflexivity].
    + rewrite running_volume_snoc. fold k. rewrite String.eqb_refl.
      rewrite (running_volume_absent k l Hk'). cbn. rcmp. reflexivity.
Qed.

(** On finite totals each entry holds the volume of its symbol. *)
Lemma symbolVolume_spec (transactions : list t) :
  Forall (fun t0 => inherited (symbol t0) = false) transactions ->
  Forall (fun t0 => is_finite (total t0)) transactions ->
  symbolVolume transactions
  = map (fun s => (s, Number (volume_of s transactions)))
        (first_seen (map symbol transactions)).
Proof.
  intros Hplain Hfin. rewrite symbolVolume_table by trivial.
  apply map_ext. intros s. now rewrite running_volume_finite.
Qed.

(** Whatever the symbols, the keys of the table are symbols of the
    transactions, each one once. *)
Lemma assoc_set_fst {V : Type} (k : string) (v : V) (m : list (string * V)) :
  map fst (assoc_set k v m)
  = if in_dec string_dec k (map fst m) then map fst m else map fst m ++ [k].
Proof.
  induction m as [| [k' v'] m IH]; cbn [assoc_set map fst app].
  - now destruct (in_dec string_dec k []).
  - destruct (String.eqb_spec k k') as [-> | E].
    + destruct (in_dec string_dec k' (k' :: map fst m)) as [_ | H];
        [reflexivity | exfalso; apply H; now left].
    + cbn [map fst]. rewrite IH.
      destruct (in_dec string_dec k (map fst m)) as [H | H];
        destruct (in_dec string_dec k (k' :: map fst m)) as [H' | H'];
        try reflexivity.
      * exfalso. apply H'. now right.
      * destruct H' as [H' | H']; [congruence | contradiction].
Qed.

Lemma Put_keys (k : string) (v : jsvalue) (acc : list (string * jsvalue)) :
  NoDup (map fst acc) ->
  NoDup (map fst (Put k v acc)) /\
  forall x, In x (map fst (Put k v acc)) -> x = k \/ In x (map fst acc).
Proof.
  intros Hnodup. unfold Put.
  destruct (String.eqb k "__proto__"); [split; [exact Hnodup | tauto] |].
  rewrite assoc_set_fst.
  destruct (in_dec string_dec k (map fst acc)) as [H | H]; [split; [exact Hnodup | tauto] |].
  split.
  - apply NoDup_app; trivial; [repeat constructor; now intros [] |].
    intros x Hx [Hk | []]. now subst x.
  - intros x Hx. apply in_app_or in Hx as [Hx | [Hx | []]]; [tauto | now left].
Qed.

Lemma symbolVolume_keys (transactions : list t) :
  NoDup (map fst (symbolVolume transactions)) /\
  forall x, In x (map fst (symbolVolume transactions)) ->
            In x (map symbol transactions).
Proof.
  unfold symbolVolume, reduce.
  induction transactions as [| t0 l [IHn IHi]] using rev_ind;
    [split; [constructor | intros x []] |].
  rewrite fold_left_app. cbn [fold_left].
  unfold volumeStep.
  set (acc := fold_left volumeStep l []) in *.
  set (acc1 := if falsy_prop (Get acc (symbol t0))
               then Put (symbol t0) (Number (Fin 0)) acc else acc).
  assert (H1 : NoDup (map fst acc1) /\
               forall x, In x (map fst acc1) -> x = symbol t0 \/ In x (map fst acc)).
  { unfold acc1. destruct (falsy_prop _); [now apply Put_keys | split; [trivial | tauto]]. }
  destruct H1 as [H1n H1i].
  destruct (Put_keys (symbol t0) (plus (Get acc1 (symbol t0)) (total t0)) acc1 H1n)
    as [H2n H2i].
  split; [exact H2n |].
  intros x Hx. rewrite map_app, in_app_iff. cbn [map In].
  destruct (H2i x Hx) as [-> | Hx1]; [tauto |].
  destruct (H1i x Hx1) as [-> | Hx2]; [tauto |].
  left. now apply IHi.
Qed.

End VolumeTable.

(* ================================================================= *)
(** ** The enumeration of an object and the ranking *)

Section Enumeration.

Import Transaction Transactions SpecTx.

Context {V : Type}.

Lemma insert_index_perm (n : N) (kv : string * V) (l : list (N * (string * V))) :
  Permutation (insert_index n kv l) ((n, kv) :: l).
Proof.
  induction l as [| [m kv'] l IH]; cbn; [reflexivity |].
  destruct (n <? m)%N; [reflexivity |].
  rewrite IH. apply perm_swap.
Qed.

Lemma index_props_perm (o : list (string * V)) :
  Permutation (map snd (index_props o))
              (filter (fun kv => is_array_index (fst kv)) o).
Proof.
  induction o as [| kv o IH]; cbn; [reflexivity |].
  unfold is_array_index at 1.
  destruct (array_index (fst kv)) as [n |]; [| exact IH].
  rewrite (Permutation_map snd (insert_index_perm n kv (index_props o))).
  cbn. now constructor.
Qed.

Lemma filter_partition_perm {A : Type} (p : A -> bool) (l : list A) :
  Permutation (filter p l ++ filter (fun x => negb (p x)) l) l.
Proof.
  induction l as [| x l IH]; cbn; [reflexivity |].
  destruct (p x); cbn.
  - now constructor.
  - rewrite <- Permutation_middle. now constructor.
Qed.

(** [Object.entries] lists every property once. *)
Lemma Object_entries_perm (o : list (string * V)) :
  Permutation (Object_entries o) o.
Proof.
  unfold Object_entries.
  rewrite index_props_perm.
  apply (filter_partition_perm (fun kv => is_array_index (fst kv))).
Qed.

(** Without array-index keys, it lists them in the order of creation. *)
Lemma Object_entries_no_index (o : list (string * V)) :
  Forall (fun kv => is_array_index (fst kv) = false) o ->
  Object_entries o = o.
Proof.
  intros Ho. unfold Object_entries.
  assert (Hidx : index_props o = []).
  { induction Ho as [| kv o Hkv _ IH]; [reflexivity |].
    cbn [index_props]. unfold is_array_index in Hkv.
    now destruct (array_index (fst kv)). }
  assert (Hrest : filter (fun kv => negb (is_array_index (fst kv))) o = o).
  { clear Hidx. induction Ho as [| kv o Hkv _ IH]; [reflexivity |].
    cbn [filter]. rewrite Hkv. cbn [negb]. now rewrite IH. }
  now rewrite Hidx, Hrest.
Qed.

End Enumeration.

Section Ranking.

Import Transaction Transactions SpecTx.
Local Open Scope R_scope.

Lemma comes_before_filter {A : Type} (p : A -> bool) (x y : A) (l : list A) :
  comes_before x y (filter p l) ->
  comes_before x y l /\ p x = true /\ p y = true.
Proof.
  intros (l1 & l2 & l3 & H).
  assert (Hx : In x (filter p l)) by (rewrite H; apply in_elt).
  assert (Hy : In y (filter p l)).
  { rewrite H. apply in_or_app. right. right. apply in_elt. }
  apply filter_In in Hx as [_ Hx]. apply filter_In in Hy as [_ Hy].
  split; [| now split].
  revert l1 H. induction l as [| a l IH]; intros l1 H.
  - now destruct l1.
  - cbn in H. destruct (p a) eqn:E.
    + destruct l1 as [| b l1]; cbn in H; injection H as -> H.
      * apply comes_before_head.
        assert (Hin : In y (filter p l)) by (rewrite H; apply in_elt).
        now apply filter_In in Hin.
      * apply comes_before_cons. now apply (IH l1).
    + apply comes_before_cons. now apply (IH l1).
Qed.

Lemma comes_before_map {A B : Type} (f : A -> B) (x y : B) (l : list A) :
  comes_before x y (map f l) ->
  exists a b, x = f a /\ y = f b /\ comes_before a b l.
Proof.
  intros (l1 & l2 & l3 & H).
  apply map_eq_app in H as (k1 & r1 & -> & _ & H).
  apply map_eq_cons in H as (a & r2 & -> & <- & H).
  apply map_eq_app in H as (k2 & r3 & -> & _ & H).
  apply map_eq_cons in H as (b & k3 & -> & <- & _).
  exists a, b. repeat split. now exists k1, k2, k3.
Qed.

(** In [first_seen], a symbol stands before another one when its first
    transaction comes first. *)
Lemma first_seen_order (s1 s2 : string) (transactions : list t) :
  comes_before s1 s2 (first_seen (map symbol transactions)) ->
  (first_occurrence s1 transactions < first_occurrence s2 transactions)%nat.
Proof.
  induction transactions as [| t0 l IH]; intros (l1 & l2 & l3 & H).
  - now destruct l1.
  - cbn [map first_seen] in H. cbn [first_occurrence].
    destruct l1 as [| a l1]; cbn in H; injection H as <- H.
    + rewrite String.eqb_refl.
      assert (Hin : In s2 (filter (fun s' => negb (String.eqb s' (symbol t0)))
                                  (first_seen (map symbol l)))).
      { rewrite H. apply in_elt. }
      apply filter_In in Hin as [_ Hin]. apply negb_true_iff in Hin.
      rewrite String.eqb_sym, Hin. lia.
    + assert (Hb : comes_before s1 s2
                     (filter (fun s' => negb (String.eqb s' (symbol t0)))
                             (first_seen (map symbol l)))).
      { now exists l1, l2, l3. }
      apply comes_before_filter in Hb as (Hb & H1 & H2).
      apply negb_true_iff in H1, H2.
      rewrite (String.eqb_sym (symbol t0) s1), (String.eqb_sym (symbol t0) s2), H1, H2.
      apply IH in Hb. lia.
Qed.

Lemma StronglySorted_firstn {A : Type} (R : A -> A -> Prop) (n : nat) (l : list A) :
  StronglySorted R l -> StronglySorted R (firstn n l).
Proof.
  intros H. revert n. induction H as [| a l _ IH Hall]; intros [| n]; cbn;
    try constructor; trivial.
  rewrite Forall_forall in *. intros x Hx. apply Hall.
  rewrite <- (firstn_skipn n l). apply in_or_app. now left.
Qed.

Lemma StronglySorted_pair {A : Type} (R : A -> A -> Prop) (x y : A)
      (l1 l2 l3 : list A) :
  StronglySorted R (l1 ++ x :: l2 ++ y :: l3) -> R x y.
Proof.
  induction l1 as [| a l1 IH]; cbn; intros H.
  - apply StronglySorted_inv in H as [_ H].
    rewrite Forall_forall in H. apply H, in_elt.
  - apply StronglySorted_inv in H as [H _]. now apply IH.
Qed.

(** On entries of finite volume the comparator of the ranking is the
    difference of the volumes. *)
Lemma compare_total (x y : TopTraded.t) :
  is_finite (ToNumber (TopTraded.total x)) ->
  is_finite (ToNumber (TopTraded.total y)) ->
  (gt (sub (ToNumber (TopTraded.total y)) (ToNumber (TopTraded.total x))) (Fin 0) = true
   <-> to_R (ToNumber (TopTraded.total x)) < to_R (ToNumber (TopTraded.total y))).
Proof.
  destruct (ToNumber (TopTraded.total x)) as [a | | |],
           (ToNumber (TopTraded.total y)) as [b | | |];
    try contradiction.
  intros _ _. cbn. rcases (b + - a) 0; split; intros; try lra; try discriminate; trivial.
Qed.

End Ranking.

Section TopTradedFacts.

Import Transaction Transactions SpecTx.
Local Open Scope R_scope.

Lemma firstn_In {A : Type} (n : nat) (l : list A) (x : A) :
  In x (firstn n l) -> In x l.
Proof.
  intros H. rewrite <- (firstn_skipn n l). apply in_or_app. now left.
Qed.

(** The entries ranked, whatever the symbols and the totals: their symbols
    are symbols of the transactions, each one once. *)
Lemma ranked_symbols (transactions : list t) :
  NoDup (map TopTraded.symbol
             (map (fun '(symbol, total) => TopTraded.mk symbol total)
                  (Object_entries (symbolVolume transactions)))) /\
  forall x, In x (map TopTraded.symbol
                      (map (fun '(symbol, total) => TopTraded.mk symbol total)
                           (Object_entries (symbolVolume transactions)))) ->
            In x (map symbol transactions).
Proof.
  rewrite map_map.
  rewrite (map_ext _ (fun kv : string * jsvalue => fst kv)) by (now intros [k v]).
  pose proof (Permutation_map fst (Object_entries_perm (symbolVolume transactions)))
    as Hperm.
  destruct (symbolVolume_keys transactions) as [Hnodup Hin].
  split.
  - exact (Permutation_NoDup (Permutation_sym Hperm) Hnodup).
  - intros x Hx. apply Hin. exact (Permutation_in x Hperm Hx).
Qed.

(** The entries ranked: one per symbol, holding its volume. *)
Lemma ranked_entries (transactions : list t) :
  Forall (fun t0 => inherited (symbol t0) = false) transactions ->
  Forall (fun t0 => is_finite (total t0)) transactions ->
  Permutation
    (map (fun '(symbol, total) => TopTraded.mk symbol total)
         (Object_entries (symbolVolume transactions)))
    (map (fun s => TopTraded.mk s (Number (volume_of s transactions)))
         (first_seen (map symbol transactions))).
Proof.
  intros Hplain Hfin.
  rewrite (Permutation_map _ (Object_entries_perm (symbolVolume transactions))).
  rewrite symbolVolume_spec by trivial. now rewrite map_map.
Qed.

Lemma ranked_entries_no_index (transactions : list t) :
  Forall (fun t0 => inherited (symbol t0) = false) transactions ->
  Forall (fun t0 => is_finite (total t0)) transactions ->
  Forall (fun t0 => is_array_index (symbol t0) = false) transactions ->
  map (fun '(symbol, total) => TopTraded.mk symbol total)
      (Object_entries (symbolVolume transactions))
  = map (fun s => TopTraded.mk s (Number (volume_of s transactions)))
        (first_seen (map symbol transactions)).
Proof.
  intros Hplain Hfin Hidx.
  rewrite symbolVolume_spec by trivial.
  rewrite Object_entries_no_index; [now rewrite map_map |].
  apply Forall_map. cbn [fst]. apply Forall_forall. intros s Hs.
  apply first_seen_In, in_map_iff in Hs as (t0 & <- & Ht0).
  rewrite Forall_forall in Hidx. now apply Hidx.
Qed.

Lemma NoDup_firstn {A : Type} (n : nat) (l : list A) :
  NoDup l -> NoDup (firstn n l).
Proof.
  intros H. rewrite <- (firstn_skipn n l) in H. now apply NoDup_app_remove_r in H.
Qed.

Lemma distinct_symbols_length (transactions : list t) :
  List.length (first_seen (map symbol transactions))
  = List.length (distinct_symbols transactions).
Proof.
  apply Permutation_length, NoDup_Permutation.
  - apply first_seen_NoDup.
  - apply NoDup_nodup.
  - intros s. unfold distinct_symbols. now rewrite first_seen_In, nodup_In.
Qed.

End TopTradedFacts.

(** A volume that has become [NaN] is taken for a missing one and started
    again from 0 by the next transaction of the symbol: the finiteness of
    the totals is needed for the volume to be their sum. *)
Remark volume_restarts_after_NaN :
  let tx := fun v : num =>
              Transaction.mk "txn-0" (Some 0%Z) "AAPL" buy (Fin 1%R) v v (Fin 0%R) in
  map TopTraded.total (Transactions.topTradedStocks [tx NaN; tx (Fin 5%R)])
    = [Number (Fin (0 + 5)%R)] /\
  SpecTx.volume_of "AAPL" [tx NaN; tx (Fin 5%R)] = NaN.
Proof.
  split; reflexivity.
Qed.

(** A symbol that names a member of [Object.prototype] finds that member in
    the accumulator instead of a volume: the code then stores a string, and
    for [__proto__] nothing. *)
Remark inherited_symbol_gets_no_volume :
  let tx := fun s : string =>
              Transaction.mk "txn-0" (Some 0%Z) s buy (Fin 1%R) (Fin 10%R) (Fin 10%R)
                             (Fin 0%R) in
  Transactions.topTradedStocks [tx "constructor"%string; tx "constructor"%string]
    = [TopTraded.mk "constructor" Text] /\
  Transactions.topTradedStocks [tx "__proto__"%string] = [].
Proof.
  split; reflexivity.
Qed.

(** C7, as first stated, does not hold.  Two symbols with the same volume
    are listed in the order of their first transaction: B, traded first,
    stands before A. *)
Lemma C7_ties_keep_first_seen_order :
  let tx := fun (i s : string) =>
              Transaction.mk i (Some 0%Z) s buy (Fin 1%R) (Fin 10%R) (Fin 10%R) (Fin 0%R) in
  Transactions.topTradedStocks [tx "txn-0"%string "B"%string; tx "txn-1"%string "A"%string]
    = [TopTraded.mk "B" (Number (Fin (0 + 10)%R));
       TopTraded.mk "A" (Number (Fin (0 + 10)%R))] /\
  String.compare "A" "B" = Lt.
Proof.
  intros tx. split; [| reflexivity].
  unfold Transactions.topTradedStocks. ncompute. reflexivity.
Qed.

(** C7 (amended): for every transaction list the ranking has at most 5
    entries (the constant of the code), and its symbols are symbols of the
    transactions, no symbol standing twice, so that it has no more entries
    than there are distinct symbols.  When no symbol names a member of
    [Object.prototype] and every total is finite: the volume of an entry is
    the sum of the [total] of all the transactions of its symbol, whatever
    their type, added from 0 in the order of the transactions, as the code
    adds them; the entries are in non-increasing order of volume; and, when
    no symbol is the decimal writing of an array index, entries of equal
    volume are in the order of the first transaction of their symbols, not
    in lexical order. *)
Theorem C7_top_traded_ranking (transactions : list Transaction.t) :
  ((List.length (Transactions.topTradedStocks transactions) <= 5)%nat /\
   (List.length (Transactions.topTradedStocks transactions)
    <= List.length (SpecTx.distinct_symbols transactions))%nat /\
   NoDup (map TopTraded.symbol (Transactions.topTradedStocks transactions)) /\
   (forall e, In e (Transactions.topTradedStocks transactions) ->
              In (TopTraded.symbol e) (map Transaction.symbol transactions))) /\
  (Forall (fun t0 => Transactions.inherited (Transaction.symbol t0) = false)
          transactions ->
   Forall (fun t0 => is_finite (Transaction.total t0)) transactions ->
   Forall (fun e => TopTraded.total e
                    = Number (SpecTx.volume_of (TopTraded.symbol e) transactions) /\
                    is_finite (SpecTx.volume_of (TopTraded.symbol e) transactions))
          (Transactions.topTradedStocks transactions) /\
   StronglySorted (fun a b => (to_R (ToNumber (TopTraded.total b))
                               <= to_R (ToNumber (TopTraded.total a)))%R)
                  (Transactions.topTradedStocks transactions) /\
   (Forall (fun t0 => Transactions.is_array_index (Transaction.symbol t0) = false)
           transactions ->
    forall (e1 e2 : TopTraded.t) (l1 l2 l3 : list TopTraded.t),
      Transactions.topTradedStocks transactions = l1 ++ e1 :: l2 ++ e2 :: l3 ->
      TopTraded.total e1 = TopTraded.total e2 ->
      (SpecTx.first_occurrence (TopTraded.symbol e1) transactions
       < SpecTx.first_occurrence (TopTraded.symbol e2) transactions)%nat)).
Proof.
  unfold Transactions.topTradedStocks, Transactions.slice0.
  set (compareFn := fun a b : TopTraded.t =>
                      sub (ToNumber (TopTraded.total b)) (ToNumber (TopTraded.total a))).
  set (entries := map (fun '(symbol, total) => TopTraded.mk symbol total)
                      (Transactions.Object_entries
                         (Transactions.symbolVolume transactions))).
  destruct (ranked_symbols transactions) as [Hnodup Hsymbols].
  fold entries in Hnodup, Hsymbols.
  pose proof (Array_sort_perm compareFn entries) as Hsort.
  assert (Hnodup' : NoDup (map TopTraded.symbol
                               (firstn 5 (Array_sort compareFn entries)))).
  { rewrite <- firstn_map. apply NoDup_firstn.
    apply (Permutation_NoDup (Permutation_sym (Permutation_map _ Hsort))), Hnodup. }
  assert (Hin : forall e, In e (firstn 5 (Array_sort compareFn entries)) ->
                          In (TopTraded.symbol e) (map Transaction.symbol transactions)).
  { intros e He. apply firstn_In in He.
    apply (Permutation_in e Hsort) in He. apply Hsymbols. now apply in_map. }
  split; [split; [| split; [| split]] |].
  - apply firstn_le_length.
  - rewrite <- (length_map TopTraded.symbol).
    apply NoDup_incl_length; [exact Hnodup' |].
    intros x Hx. apply in_map_iff in Hx as (e & <- & He).
    unfold SpecTx.distinct_symbols. apply nodup_In. now apply Hin.
  - exact Hnodup'.
  - exact Hin.
  - intros Hplain Hfin.
    pose proof (ranked_entries transactions Hplain Hfin) as Hperm.
    fold entries in Hperm.
    assert (Hentries : Forall (fun e => TopTraded.total e
                                        = Number (SpecTx.volume_of (TopTraded.symbol e)
                                                                   transactions) /\
                                        is_finite (SpecTx.volume_of (TopTraded.symbol e)
                                                                    transactions))
                              entries).
    { apply (Forall_perm _ _ _ (Permutation_sym Hperm)).
      apply Forall_map, Forall_forall. intros s _. cbn.
      split; [reflexivity | now apply volume_of_finite]. }
    assert (Hok : Forall (fun e => is_finite (ToNumber (TopTraded.total e))) entries).
    { revert Hentries. apply Forall_impl. intros e [-> H]. exact H. }
    pose proof (Array_sort_ranked compareFn
                  (fun e => to_R (ToNumber (TopTraded.total e)))
                  (fun e => is_finite (ToNumber (TopTraded.total e)))
                  compare_total entries Hok)
      as Hsorted.
    apply (StronglySorted_firstn _ 5) in Hsorted.
    repeat split.
    + apply Forall_forall. intros e He.
      apply firstn_In in He.
      apply (Permutation_in e (Array_sort_perm compareFn entries)) in He.
      rewrite Forall_forall in Hentries. now apply Hentries.
    + revert Hsorted. apply StronglySorted_weaken.
      intros a b [Hlt | [Heq _]]; lra.
    + intros Hidx e1 e2 l1 l2 l3 Hsplit Htie.
      rewrite Hsplit in Hsorted.
      apply StronglySorted_pair in Hsorted as [Hlt | [_ Hbefore]].
      * rewrite Htie in Hlt. lra.
      * unfold entries in Hbefore.
        rewrite ranked_entries_no_index in Hbefore by trivial.
        apply comes_before_map in Hbefore as (s1 & s2 & -> & -> & Hbefore).
        cbn [TopTraded.symbol]. now apply first_seen_order.
Qed.

Lemma C7_top_traded_witness :
  let tx := fun (i s : string) (v : R) =>
              Transaction.mk i (Some 0%Z) s buy (Fin 1%R) (Fin v) (Fin v) (Fin 0%R) in
  let transactions :=
    [tx "txn-0"%string "MSFT"%string 10%R; tx "txn-1"%string "AAPL"%string 30%R;
     tx "txn-2"%string "MSFT"%string 5%R] in
  Forall (fun t0 => is_finite (Transaction.total t0)) transactions /\
  (List.length (Transactions.topTradedStocks transactions) <= 5)%nat /\
  Forall (fun e => TopTraded.total e
                   = Number (SpecTx.volume_of (TopTraded.symbol e) transactions) /\
                   is_finite (SpecTx.volume_of (TopTraded.symbol e) transactions))
         (Transactions.topTradedStocks transactions) /\
  StronglySorted (fun a b => (to_R (ToNumber (TopTraded.total b))
                              <= to_R (ToNumber (TopTraded.total a)))%R)
                 (Transactions.topTradedStocks transactions).
Proof.
  intros tx transactions.
  assert (Hfin : Forall (fun t0 => is_finite (Transaction.total t0)) transactions)
    by (repeat constructor).
  assert (Hplain : Forall (fun t0 => Transactions.inherited (Transaction.symbol t0)
                                     = false) transactions)
    by (repeat constructor).
  split; [exact Hfin |].
  destruct (C7_top_traded_ranking transactions) as [[Hlen _] Hrank].
  destruct (Hrank Hplain Hfin) as [Hvol [Hsorted _]].
  split; [exact Hlen |]. split; [exact Hvol | exact Hsorted].
Defined.

(* ================================================================= *)
(** ** The allocation engine and the generator over any arithmetic *)

Section GenericSort.

Context {A : Type} (after : A -> A -> bool).

Lemma Generic_sort_insert_perm (x : A) (l : list A) :
  Permutation (Generic.sort_insert after x l) (x :: l).
Proof.
  induction l as [| y l IH]; cbn [Generic.sort_insert]; [reflexivity |].
  destruct (after x y); [| reflexivity].
  rewrite IH. apply perm_swap.
Qed.

Lemma Generic_Array_sort_perm (l : list A) :
  Permutation (Generic.Array_sort after l) l.
Proof.
  induction l as [| x l IH]; cbn [Generic.Array_sort]; [reflexivity |].
  rewrite Generic_sort_insert_perm. now constructor.
Qed.

End GenericSort.

Section GenericAllocation.

Variable N : Arithmetic.t.

Import SpecTx.

Lemma Generic_sumMarketValue_snoc
      (l : list (Generic.Position.t (Arithmetic.number N)))
      (p : Generic.Position.t (Arithmetic.number N)) :
  Generic.sumMarketValue N (l ++ [p])
  = Arithmetic.add N (Generic.sumMarketValue N l) (Generic.Position.marketValue p).
Proof.
  unfold Generic.sumMarketValue, reduce. now rewrite fold_left_app.
Qed.

Lemma Generic_counted_snoc
      (l : list (Generic.Position.t (Arithmetic.number N)))
      (p : Generic.Position.t (Arithmetic.number N)) :
  Generic.counted N (l ++ [p])
  = Arithmetic.add N (Generic.counted N l) (Arithmetic.lit N Arithmetic.lit_1).
Proof.
  unfold Generic.counted. now rewrite fold_left_app.
Qed.

Lemma Generic_inSector_absent (k : string)
      (l : list (Generic.Position.t (Arithmetic.number N))) :
  ~ In k (map Generic.Position.sector l) -> Generic.inSector N k l = [].
Proof.
  unfold Generic.inSector. induction l as [| q l IH]; intros Hk; [reflexivity |].
  cbn [filter]. cbn [map In] in Hk.
  destruct (String.eqb_spec (Generic.Position.sector q) k) as [E | E]; [tauto |].
  apply IH. tauto.
Qed.

(** The sector map, whatever the arithmetic: one entry per sector, in the
    order in which the sectors are first met, holding the sum of the market
    values of the positions of the sector, added in their order, and their
    count. *)
Lemma Generic_sectorMap_table
      (positions : list (Generic.Position.t (Arithmetic.number N))) :
  fold_left (Generic.sectorStep N) positions []
  = map (fun s => (s, (Generic.sumMarketValue N (Generic.inSector N s positions),
                       Generic.counted N (Generic.inSector N s positions))))
        (first_seen (map Generic.Position.sector positions)).
Proof.
  induction positions as [| p l IH] using rev_ind; [reflexivity |].
  rewrite fold_left_app. cbn [fold_left]. rewrite IH. clear IH.
  rewrite map_app. cbn [map]. rewrite first_seen_snoc.
  set (k := Generic.Position.sector p).
  set (labels := map Generic.Position.sector l).
  set (keys := first_seen labels).
  pose proof (first_seen_In k labels) as Hkeys. fold keys in Hkeys.
  pose proof (first_seen_NoDup labels) as Hnodup. fold keys in Hnodup.
  assert (Hsnoc : forall s,
             (Generic.sumMarketValue N (Generic.inSector N s (l ++ [p])),
              Generic.counted N (Generic.inSector N s (l ++ [p])))
             = if String.eqb k s
               then (Arithmetic.add N (Generic.sumMarketValue N (Generic.inSector N s l))
                                    (Generic.Position.marketValue p),
                     Arithmetic.add N (Generic.counted N (Generic.inSector N s l))
                                    (Arithmetic.lit N Arithmetic.lit_1))
               else (Generic.sumMarketValue N (Generic.inSector N s l),
                     Generic.counted N (Generic.inSector N s l))).
  { intros s. unfold Generic.inSector. rewrite filter_app. cbn [filter]. fold k.
    destruct (String.eqb k s); [| now rewrite app_nil_r].
    now rewrite Generic_sumMarketValue_snoc, Generic_counted_snoc. }
  unfold Generic.sectorStep. fold k. cbv zeta. rewrite assoc_get_keys.
  destruct (in_dec string_dec k keys) as [Hk | Hk];
    destruct (in_dec string_dec k labels) as [Hk' | Hk'];
    try (exfalso; tauto).
  - rewrite assoc_set_keys by trivial.
    apply map_ext_in. intros s Hs. f_equal.
    rewrite Hsnoc, (String.eqb_sym k s).
    destruct (String.eqb_spec s k) as [-> | Hsk]; reflexivity.
  - assert (Hnone : assoc_get k
                      (map (fun s => (s, (Generic.sumMarketValue N (Generic.inSector N s l),
                                          Generic.counted N (Generic.inSector N s l))))
                           keys) = None).
    { rewrite assoc_get_keys. now destruct (in_dec string_dec k keys). }
    rewrite (assoc_set_absent _ _ _ Hnone).
    rewrite map_app. cbn [map]. f_equal.
    + apply map_ext_in. intros s Hs. f_equal. rewrite Hsnoc.
      destruct (String.eqb_spec k s) as [<- | Hsk]; [contradiction | reflexivity].
    + rewrite Hsnoc, String.eqb_refl.
      now rewrite (Generic_inSector_absent k l Hk').
Qed.

End GenericAllocation.

Section ExactAllocation.

(** Every market value goes to exactly one entry of the sector map; in
    exact arithmetic the values of the entries then add up to the sum of
    the market values. *)
Lemma Exact_sectorMap_sum (positions : list (Generic.Position.t num))
      (init : list (string * (num * num))) :
  Spec.sum (map (fun kv => fst (snd kv))
                (fold_left (Generic.sectorStep Exact) positions init))
  = add (Spec.sum (map (fun kv => fst (snd kv)) init))
        (Spec.sum (map Generic.Position.marketValue positions)).
Proof.
  revert init. induction positions as [| p positions IH]; intros init;
    cbn [fold_left map].
  - now rewrite sum_nil, add_0_r.
  - rewrite IH, sum_cons. unfold Generic.sectorStep.
    rewrite (assoc_set_sum fst _ _ (Generic.Position.marketValue p)).
    + now rewrite add_assoc.
    + cbn. now destruct (assoc_get _ _).
Qed.

Lemma Exact_sumMarketValue_sum (positions : list (Generic.Position.t num)) :
  Generic.sumMarketValue Exact positions
  = Spec.sum (map Generic.Position.marketValue positions).
Proof.
  apply (reduce_add_sum0 Generic.Position.marketValue).
Qed.

End ExactAllocation.

(** C8 (amended): whatever the arithmetic, so also in binary64, the sector
    breakdown has exactly one group for each sector of the positions, and
    the value of a group is the sum of the market values of the positions
    of its sector, added in their order from 0: every market value is
    counted in exactly one group.  In exact arithmetic the values of the
    groups therefore add up to the sum of the market values of the
    positions. *)
Theorem C8_each_market_value_is_counted_in_one_group :
  (forall (N : Arithmetic.t)
          (positions : list (Generic.Position.t (Arithmetic.number N))),
      let groups := Generic.calculateSectorAllocations N positions in
      NoDup (map Generic.SectorAllocation.sector groups) /\
      (forall s, In s (map Generic.SectorAllocation.sector groups)
                 <-> In s (map Generic.Position.sector positions)) /\
      Forall (fun g =>
                Generic.SectorAllocation.value g
                = Generic.sumMarketValue N
                    (Generic.inSector N (Generic.SectorAllocation.sector g) positions) /\
                Generic.SectorAllocation.count g
                = Generic.counted N
                    (Generic.inSector N (Generic.SectorAllocation.sector g) positions))
             groups) /\
  (forall positions : list (Generic.Position.t num),
      Generic.sumValue Exact (Generic.calculateSectorAllocations Exact positions)
      = Generic.sumMarketValue Exact positions).
Proof.
  split.
  - intros N positions. cbv zeta.
    unfold Generic.calculateSectorAllocations. cbv zeta.
    rewrite Generic_sectorMap_table, map_map.
    set (after := fun a b : Generic.SectorAllocation.t (Arithmetic.number N) => _).
    set (keys := SpecTx.first_seen (map Generic.Position.sector positions)).
    set (entries := map _ keys).
    pose proof (Generic_Array_sort_perm after entries) as Hperm.
    assert (Hnames : map Generic.SectorAllocation.sector entries = keys).
    { unfold entries. rewrite map_map. cbn. apply map_id. }
    assert (Hsectors : Permutation (map Generic.SectorAllocation.sector
                                        (Generic.Array_sort after entries)) keys).
    { rewrite <- Hnames. now apply Permutation_map. }
    split; [| split].
    + apply (Permutation_NoDup (Permutation_sym Hsectors)), first_seen_NoDup.
    + intros s. rewrite <- (first_seen_In s (map Generic.Position.sector positions)).
      fold keys. split; intros H.
      * exact (Permutation_in s Hsectors H).
      * exact (Permutation_in s (Permutation_sym Hsectors) H).
    + apply (Forall_perm _ _ _ (Permutation_sym Hperm)).
      apply Forall_map, Forall_forall. intros s _. cbn. now split.
  - intros positions.
    unfold Generic.sumValue.
    rewrite (reduce_add_sum0 Generic.SectorAllocation.value), Exact_sumMarketValue_sum.
    unfold Generic.calculateSectorAllocations. cbv zeta.
    rewrite (sum_perm _ _ (Permutation_map _ (Generic_Array_sort_perm _ _))).
    rewrite map_map.
    rewrite (map_ext _ (fun kv : string * (num * num) => fst (snd kv)))
      by (now intros [k d]).
    rewrite Exact_sectorMap_sum. cbn. apply add_0_l.
Qed.

Section Binary64Examples.

Import PrimFloat.
Local Open Scope float_scope.
Set Warnings "-inexact-float".

(** C8, as first stated, does not hold of the program: in binary64 the
    groups 1.1 + 3.3 and 2.2, added as 4.4 + 2.2, give 6.6000000000000005,
    and the market values added in the order of the positions give 6.6. *)
Lemma C8_sum_of_groups_differs_in_binary64 :
  let position := fun (symbol sector : string) (v : float) =>
    Generic.Position.mk symbol symbol 1 v v v 0 0 sector stock in
  let positions :=
    [position "AAPL" "Technology" 1.1; position "JPM" "Financial Services" 2.2;
     position "MSFT" "Technology" 3.3]%string in
  map Generic.SectorAllocation.value
      (Generic.calculateSectorAllocations Binary64.arithmetic positions)
    = [4.4; 2.2] /\
  PrimFloat.eqb
    (Generic.sumValue Binary64.arithmetic
       (Generic.calculateSectorAllocations Binary64.arithmetic positions))
    (Generic.sumMarketValue Binary64.arithmetic positions) = false.
Proof.
  vm_compute. split; reflexivity.
Qed.

Set Warnings "+inexact-float".

End Binary64Examples.

Section GenericGenerator.

Variable N : Arithmetic.t.

(** The loop of the generator, turn by turn: the day [i] draws the numbers
    of rank [2 (n - 1 - i)] and the next one after the [k] already drawn. *)
Lemma Generic_loop
      (now : Z) (rnd : nat -> Arithmetic.number N)
      (positions : list (Generic.Position.t (Arithmetic.number N)))
      (n : nat) :
  forall (acc : list (Generic.PortfolioSnapshot.t (Arithmetic.number N))) (k : nat),
    fst (fold_left (Generic.genStep N now rnd positions
                                    (Generic.sumMarketValue N positions))
                   (rev (seq 0 n)) (acc, k))
    = acc ++ map (fun i => Generic.snapshotOfDay N now positions i
                             (rnd (k + 2 * (n - 1 - i))%nat)
                             (rnd (S (k + 2 * (n - 1 - i)))))
                 (rev (seq 0 n)).
Proof.
  induction n as [| n IH]; intros acc k.
  - cbn. now rewrite app_nil_r.
  - rewrite seq_S, rev_app_distr. cbn [rev app Nat.add fold_left map].
    unfold Generic.genStep at 2. rewrite IH. rewrite <- app_assoc. cbn [app].
    f_equal. f_equal.
    + unfold Generic.snapshotOfDay.
      replace (k + 2 * (S n - 1 - n))%nat with k by lia. reflexivity.
    + apply map_ext_in. intros i Hi. apply in_rev, in_seq in Hi.
      replace (S (S k) + 2 * (n - 1 - i))%nat with (k + 2 * (S n - 1 - i))%nat by lia.
      reflexivity.
Qed.

(** The generator in closed form. *)
Lemma Generic_generate_closed_form
      (now : Z) (rnd : nat -> Arithmetic.number N)
      (positions : list (Generic.Position.t (Arithmetic.number N))) :
  Generic.generateMockHistoricalSnapshots N now rnd positions
  = map (fun i => Generic.snapshotOfDay N now positions i
                    (rnd (2 * (Generator.daysBack - i))%nat)
                    (rnd (S (2 * (Generator.daysBack - i)))))
        Generator.loopIndices.
Proof.
  unfold Generic.generateMockHistoricalSnapshots, Generator.loopIndices. cbv zeta.
  rewrite Generic_loop. cbn [app].
  apply map_ext. intros i.
  now replace (S Generator.daysBack - 1)%nat with Generator.daysBack by lia.
Qed.

End GenericGenerator.

Section ExactGenerator.

Local Open Scope R_scope.

(** In exact arithmetic, scaling every position by a finite non-zero factor
    scales their sum. *)
Lemma Exact_sumMarketValue_scaled (g : R) (positions : list (Generic.Position.t num)) :
  g <> 0 ->
  Generic.sumMarketValue Exact (map (Generic.scalePosition Exact (Fin g)) positions)
  = div (Generic.sumMarketValue Exact positions) (Fin g).
Proof.
  intros Hg. rewrite !Exact_sumMarketValue_sum.
  induction positions as [| p positions IH]; cbn [map].
  - rewrite sum_nil. now rewrite div_0_l.
  - rewrite !sum_cons, IH. cbn [Generic.scalePosition Generic.Position.marketValue].
    now rewrite (div_add_distr _ _ g Hg).
Qed.

End ExactGenerator.

(** C10 (amended): whatever the arithmetic, so also in binary64, the
    generator makes 366 snapshots, one per turn of its loop, [i] going from
    365 down to 0.  The total value of the snapshot of a turn is the sum of
    the market values of the input positions divided by the growth factor
    of that turn, which is computed from [i] and the first of the two
    numbers drawn in the turn, and its positions are the input positions
    with their price and their market value divided by that same factor.
    In exact arithmetic, for numbers drawn in [0, 1), the total value of
    every snapshot is therefore the sum of the market values of its own
    positions, for every position set, the empty one included. *)
Theorem C10_snapshot_scaled_by_one_factor :
  (forall (N : Arithmetic.t) (now : Z) (rnd : nat -> Arithmetic.number N)
          (positions : list (Generic.Position.t (Arithmetic.number N))),
      List.length (Generic.generateMockHistoricalSnapshots N now rnd positions)
      = 366%nat /\
      map (fun s => (Generic.PortfolioSnapshot.totalValue s,
                     Generic.PortfolioSnapshot.positions s))
          (Generic.generateMockHistoricalSnapshots N now rnd positions)
      = map (fun i =>
               let g := Generic.growthFactor N i (rnd (2 * (365 - i))%nat) in
               (Arithmetic.div N (Generic.sumMarketValue N positions) g,
                map (fun p =>
                       Generic.Position.mk
                         (Generic.Position.symbol p) (Generic.Position.name p)
                         (Generic.Position.quantity p)
                         (Generic.Position.costBasis p)
                         (Arithmetic.div N (Generic.Position.currentPrice p) g)
                         (Arithmetic.div N (Generic.Position.marketValue p) g)
                         (Generic.Position.gainLoss p)
                         (Generic.Position.gainLossPercent p)
                         (Generic.Position.sector p)
                         (Generic.Position.assetType p))
                    positions))
            (rev (seq 0 366))) /\
  (forall (now : Z) (rnd : nat -> R) (positions : list (Generic.Position.t num)),
      (forall k, (0 <= rnd k < 1)%R) ->
      Forall (fun s => Generic.PortfolioSnapshot.totalValue s
                       = Generic.sumMarketValue Exact
                           (Generic.PortfolioSnapshot.positions s))
             (Generic.generateMockHistoricalSnapshots Exact now
                (fun k => Fin (rnd k)) positions)).
Proof.
  split.
  - intros N now rnd positions.
    rewrite Generic_generate_closed_form. split.
    + unfold Generator.loopIndices. now rewrite length_map, length_rev, length_seq.
    + rewrite map_map. reflexivity.
  - intros now rnd positions Hrnd.
    rewrite Generic_generate_closed_form.
    apply Forall_map, Forall_forall. intros i Hi.
    assert (Hle : (i <= Generator.daysBack)%nat).
    { pose proof loopIndices_bounded as Hb. rewrite Forall_forall in Hb. now apply Hb. }
    destruct (growthFactor_finite i (rnd (2 * (Generator.daysBack - i))%nat) Hle
                                  (Hrnd _)) as [g [Hg Hg0]].
    unfold Generic.snapshotOfDay.
    cbn [Generic.PortfolioSnapshot.totalValue Generic.PortfolioSnapshot.positions].
    change (Generic.growthFactor Exact i (Fin (rnd (2 * (Generator.daysBack - i))%nat)))
      with (add (add (Fin 1) (mul (sub (of_nat Generator.daysBack) (of_nat i))
                                  (Fin 0.0003)))
                (mul (sub (Fin (rnd (2 * (Generator.daysBack - i))%nat)) (Fin 0.5))
                     (Fin 0.02))).
    rewrite Hg. symmetry. apply Exact_sumMarketValue_scaled. lra.
Qed.

Lemma C10_snapshot_witness :
  let p := Generic.Position.mk "AAA" "AAA" (Fin 10%R) (Fin 100%R) (Fin 110%R)
             (Fin 1100%R) (Fin 100%R) (Fin 10%R) "Technology" stock in
  Forall (fun s => Generic.PortfolioSnapshot.totalValue s
                   = Generic.sumMarketValue Exact
                       (Generic.PortfolioSnapshot.positions s))
         (Generic.generateMockHistoricalSnapshots Exact 0%Z
            (fun k => Fin ((fun _ => (1 / 2)%R) k)) [p]).
Proof.
  intros p.
  apply (proj2 C10_snapshot_scaled_by_one_factor 0%Z (fun _ => (1 / 2)%R) [p]).
  intros k. lra.
Defined.

Section Binary64Generator.

Import PrimFloat.
Local Open Scope float_scope.
Set Warnings "-inexact-float".

(** C10, as first stated, does not hold of the program: in binary64, for
    the market values 1 and 2 and a first draw of 0.25, the growth factor of
    the first day is 0.995; the total value of that snapshot is 3 / 0.995,
    which is 3.0150753768844223, and the market values of its positions,
    1 / 0.995 and 2 / 0.995, add up to 3.015075376884422. *)
Lemma C10_total_differs_from_sum_in_binary64 :
  let position := fun (symbol : string) (v : float) =>
    Generic.Position.mk symbol symbol 1 v v v 0 0 "Technology"%string stock in
  let snapshots :=
    Generic.generateMockHistoricalSnapshots Binary64.arithmetic 0%Z (fun _ => 0.25)
      [position "AAPL"%string 1; position "MSFT"%string 2] in
  map (fun s =>
         (Generic.PortfolioSnapshot.totalValue s,
          Generic.sumMarketValue Binary64.arithmetic
            (Generic.PortfolioSnapshot.positions s),
          PrimFloat.eqb (Generic.PortfolioSnapshot.totalValue s)
            (Generic.sumMarketValue Binary64.arithmetic
               (Generic.PortfolioSnapshot.positions s))))
      (firstn 1 snapshots)
  = [(3.0150753768844223, 3.015075376884422, false)].
Proof.
  vm_compute. reflexivity.
Qed.

Set Warnings "+inexact-float".

End Binary64Generator.

(* ================================================================= *)
(** ** The two embeddings agree in exact arithmetic *)

Section Agreement.

Lemma Generic_sort_insert_map {A B : Type} (f : A -> B) (after : B -> B -> bool)
      (x : A) (l : list A) :
  Generic.sort_insert after (f x) (map f l)
  = map f (Generic.sort_insert (fun a b => after (f a) (f b)) x l).
Proof.
  induction l as [| y l IH]; cbn [map Generic.sort_insert]; [reflexivity |].
  destruct (after (f x) (f y)); cbn [map]; [now rewrite IH | reflexivity].
Qed.

Lemma Generic_Array_sort_map {A B : Type} (f : A -> B) (after : B -> B -> bool)
      (l : list A) :
  Generic.Array_sort after (map f l)
  = map f (Generic.Array_sort (fun a b => after (f a) (f b)) l).
Proof.
  induction l as [| x l IH]; cbn [map Generic.Array_sort]; [reflexivity |].
  now rewrite IH, Generic_sort_insert_map.
Qed.

Lemma Array_sort_Generic {A : Type} (compareFn : A -> A -> num) (l : list A) :
  Array_sort compareFn l
  = Generic.Array_sort (fun a b => gt (compareFn a b) (Fin 0%R)) l.
Proof.
  induction l as [| x l IH]; cbn [Array_sort Generic.Array_sort]; [reflexivity |].
  rewrite IH. generalize (Generic.Array_sort (fun a b => gt (compareFn a b) (Fin 0%R)) l).
  intros s. induction s as [| y s IHs]; cbn [sort_insert Generic.sort_insert];
    [reflexivity |].
  now rewrite IHs.
Qed.

Lemma sumMarketValue_exact (positions : list Position.t) :
  Generic.sumMarketValue Exact (map exact_position positions)
  = Metrics.sumMarketValue positions.
Proof.
  unfold Generic.sumMarketValue, Metrics.sumMarketValue, reduce.
  change (Arithmetic.lit Exact Arithmetic.lit_0) with (Fin 0%R).
  generalize (Fin 0%R).
  induction positions as [| p l IH]; intros init; [reflexivity |].
  cbn [map fold_left]. apply IH.
Qed.

(** [Allocation.calculateSectorAllocations] is the generic function at the
    exact arithmetic. *)
Lemma calculateSectorAllocations_exact (positions : list Position.t) :
  Generic.calculateSectorAllocations Exact (map exact_position positions)
  = map exact_allocation (Allocation.calculateSectorAllocations positions).
Proof.
  unfold Generic.calculateSectorAllocations, Allocation.calculateSectorAllocations.
  cbv zeta. rewrite sumMarketValue_exact, Array_sort_Generic.
  assert (Hfold : forall init,
             fold_left (Generic.sectorStep Exact) (map exact_position positions) init
             = fold_left Allocation.sectorStep positions init).
  { induction positions as [| p l IH]; intros init; [reflexivity |].
    cbn [map fold_left]. apply IH. }
  rewrite Hfold.
  rewrite <- (Generic_Array_sort_map exact_allocation
                (fun a b => Arithmetic.gt Exact
                              (Arithmetic.sub Exact (Generic.SectorAllocation.value b)
                                              (Generic.SectorAllocation.value a))
                              (Arithmetic.lit Exact Arithmetic.lit_0))).
  rewrite map_map. f_equal.
  apply map_ext. now intros [sector data].
Qed.

(** [Generator.generateMockHistoricalSnapshots] is the generic function at
    the exact arithmetic. *)
Lemma generateMockHistoricalSnapshots_exact
      (now : Z) (rnd : nat -> R) (positions : list Position.t) :
  Generic.generateMockHistoricalSnapshots Exact now (fun k => Fin (rnd k))
                                          (map exact_position positions)
  = map exact_snapshot (Generator.generateMockHistoricalSnapshots now rnd positions).
Proof.
  unfold Generic.generateMockHistoricalSnapshots,
    Generator.generateMockHistoricalSnapshots. cbv zeta.
  rewrite sumMarketValue_exact.
  set (tv := Metrics.sumMarketValue positions).
  assert (Hstep : forall acc k i,
             Generic.genStep Exact now (fun k => Fin (rnd k))
                             (map exact_position positions) tv
                             (map exact_snapshot acc, k) i
             = (map exact_snapshot
                    (fst (Generator.genStep now rnd positions tv (acc, k) i)),
                snd (Generator.genStep now rnd positions tv (acc, k) i))).
  { intros acc k i. unfold Generic.genStep, Generator.genStep. cbn [fst snd].
    rewrite map_app. cbn [map]. unfold exact_snapshot at 3.
    cbn [PortfolioSnapshot.date PortfolioSnapshot.totalValue
         PortfolioSnapshot.cashBalance PortfolioSnapshot.positions].
    rewrite !map_map. reflexivity. }
  change (@nil (Generic.PortfolioSnapshot.t (Arithmetic.number Exact)))
    with (map exact_snapshot []).
  generalize (@nil PortfolioSnapshot.t) 0%nat.
  induction Generator.loopIndices as [| i l IH]; intros acc k; [reflexivity |].
  cbn [fold_left]. rewrite Hstep, IH.
  now destruct (Generator.genStep now rnd positions tv (acc, k) i).
Qed.

End Agreement.

(* ================================================================= *)
(** * More of the program *)

(* ================================================================= *)
(** * More of the code *)

(* ================================================================= *)
(** ** The mock positions *)

Section FloorFacts.

Local Open Scope R_scope.

(** The floor of a number between 0 and the integer [n]. *)
Lemma Int_part_range (x : R) (n : Z) :
  0 <= x < IZR n -> (0 <= Int_part x < n)%Z.
Proof.
  intros [H0 Hn].
  destruct (base_Int_part x) as [Hle Hgt].
  split.
  - assert (H : (-1 < Int_part x)%Z) by (apply lt_IZR; lra). lia.
  - apply lt_IZR. lra.
Qed.

Lemma Math_floor_scaled (r : R) (n : Z) :
  0 <= r < 1 -> (0 < n)%Z ->
  exists z : Z, Math_floor (mul (Fin r) (Fin (IZR n))) = Fin (IZR z) /\ (0 <= z < n)%Z.
Proof.
  intros Hr Hn. exists (Int_part (r * IZR n)). split; [reflexivity |].
  apply Int_part_range.
  assert (Hpos : 0 < IZR n) by (apply IZR_lt in Hn; exact Hn).
  split; nra.
Qed.

Lemma Int_part_IZR (z : Z) : Int_part (IZR z) = z.
Proof.
  symmetry. apply Int_part_spec. lra.
Qed.

End FloorFacts.

Section MockPositions.

Import MockData.
Local Open Scope R_scope.

(** What the callback makes of a stock, for draws in [0, 1). *)
Lemma mockPosition_spec (rnd : nat -> R) (k : nat) (s0 : MockStock.t) (idx : nat) :
  (forall j, 0 <= rnd j < 1) ->
  exists (q : Z) (c : R),
    (10 <= q <= 59)%Z /\
    0.925 * (100 + 50 * INR idx) <= c <= 1.075 * (100 + 50 * INR idx) /\
    mockPosition rnd k s0 idx
    = Position.mk (MockStock.symbol s0) (MockStock.name s0)
        (Fin (IZR q)) (Fin (100 + 50 * INR idx)) (Fin c) (Fin (c * IZR q))
        (Fin ((c - (100 + 50 * INR idx)) * IZR q))
        (Fin ((c - (100 + 50 * INR idx)) / (100 + 50 * INR idx) * 100))
        (MockStock.sector s0) (MockStock.type s0).
Proof.
  intros Hrnd.
  destruct (Math_floor_scaled (rnd k) 50 (Hrnd k) ltac:(lia)) as [z [Hz Hzr]].
  pose proof (Hrnd (S k)) as Hr.
  pose proof (pos_INR idx) as Hidx.
  assert (Hq : 10 <= IZR (z + 10) <= 59).
  { split; apply IZR_le; lia. }
  exists (z + 10)%Z, ((100 + INR idx * 50) * (1 + (rnd (S k) - 0.5) * 0.15)).
  split; [lia |]. split; [nra |].
  unfold mockPosition, generateRandomPrice. rewrite Hz.
  rewrite plus_IZR in *.
  cbn.
  rcases ((100 + INR idx * 50) * (IZR z + 10)) 0; try nra.
  rcases (IZR z + 10) 0; try nra.
  cbn. f_equal; first [reflexivity | f_equal; first [lra | field; repeat split; lra]].
Qed.

Lemma mapPositions_spec (rnd : nat -> R) (stocks : list MockStock.t) :
  forall (k idx : nat),
    snd (mapPositions rnd k idx stocks) = (k + 2 * List.length stocks)%nat /\
    List.length (fst (mapPositions rnd k idx stocks)) = List.length stocks /\
    forall (i : nat) (s0 : MockStock.t),
      nth_error stocks i = Some s0 ->
      nth_error (fst (mapPositions rnd k idx stocks)) i
      = Some (mockPosition rnd (k + 2 * i) s0 (idx + i)).
Proof.
  induction stocks as [| s0 stocks IH]; intros k idx; cbn [mapPositions].
  - split; [cbn; lia |]. split; [reflexivity |]. intros [| i] s1; discriminate.
  - destruct (IH (S (S k)) (S idx)) as (IHk & IHlen & IHnth).
    destruct (mapPositions rnd (S (S k)) (S idx) stocks) as [ps k'].
    cbn [fst snd List.length] in *.
    split; [lia |]. split; [lia |].
    intros [| i] s1 Hs1; cbn [nth_error] in *.
    + injection Hs1 as <-. now rewrite Nat.mul_0_r, !Nat.add_0_r.
    + rewrite (IHnth i s1 Hs1). do 2 f_equal; lia.
Qed.

End MockPositions.

Section MockPositionsFacts.

Import MockData.
Local Open Scope R_scope.

Lemma generateMockPositions_nth (rnd : nat -> R) (k idx : nat) (p : Position.t) :
  nth_error (fst (generateMockPositions rnd k)) idx = Some p ->
  exists s0, nth_error (Transactions.slice0 10 mockStocks) idx = Some s0 /\
             p = mockPosition rnd (k + 2 * idx) s0 idx.
Proof.
  unfold generateMockPositions. intros Hp.
  destruct (mapPositions_spec rnd (Transactions.slice0 10 mockStocks) k 0)
    as (_ & Hlen & Hnth).
  destruct (nth_error (Transactions.slice0 10 mockStocks) idx) as [s0 |] eqn:E.
  - exists s0. split; [reflexivity |].
    rewrite (Hnth idx s0 E) in Hp. now injection Hp as <-.
  - apply nth_error_None in E. rewrite <- Hlen in E.
    apply nth_error_None in E. congruence.
Qed.

(** Every generated position is well formed: finite figures, a positive
    market value, and the derived fields consistent with the others. *)
Lemma generateMockPositions_well_formed (rnd : nat -> R) (k : nat) :
  (forall j, 0 <= rnd j < 1) ->
  Forall (fun p =>
            Position.assetType p = stock /\
            Position.marketValue p
              = mul (Position.currentPrice p) (Position.quantity p) /\
            Position.gainLoss p
              = sub (Position.marketValue p)
                    (mul (Position.costBasis p) (Position.quantity p)) /\
            exists v g : R,
              Position.marketValue p = Fin v /\ 0 < v /\
              Position.gainLossPercent p = Fin g /\ -7.5 <= g <= 7.5)
         (fst (generateMockPositions rnd k)).
Proof.
  intros Hrnd. apply Forall_forall. intros p Hp.
  apply In_nth_error in Hp as [idx Hp].
  apply generateMockPositions_nth in Hp as (s0 & Hs0 & ->).
  destruct (mockPosition_spec rnd (k + 2 * idx) s0 idx Hrnd)
    as (q & c & Hq & Hc & ->).
  cbn [Position.assetType Position.marketValue Position.currentPrice
       Position.quantity Position.gainLoss Position.costBasis
       Position.gainLossPercent].
  pose proof (pos_INR idx) as Hidx.
  assert (HqR : 10 <= IZR q <= 59) by (split; apply IZR_le; lia).
  split.
  { do 10 (destruct idx as [| idx]; [cbn in Hs0; now injection Hs0 as <- |]).
    cbn in Hs0. now destruct idx. }
  split; [reflexivity |].
  split; [cbn; f_equal; lra |].
  exists (c * IZR q), ((c - (100 + 50 * INR idx)) / (100 + 50 * INR idx) * 100).
  split; [reflexivity |]. split; [nra |]. split; [reflexivity |].
  set (b := 100 + 50 * INR idx) in *.
  assert (Hb : 0 < b) by (unfold b; lra).
  assert (Hratio : -0.075 <= (c - b) / b <= 0.075).
  { split.
    - apply Rmult_le_reg_r with b; [lra |]. field_simplify; lra.
    - apply Rmult_le_reg_r with b; [lra |]. field_simplify; lra. }
  lra.
Qed.

End MockPositionsFacts.

(** X1: for draws in [0, 1), [generateMockPositions] makes ten positions,
    one per stock of the first ten of the table and in their order, with
    twenty draws; the position of index [idx] holds a whole number of units
    between 10 and 59, at the unit cost 100 + 50 idx, and its price is
    within 7.5 percent of that cost. *)
Theorem X1_mock_positions_shape (rnd : nat -> R) (k : nat) :
  (forall j, (0 <= rnd j < 1)%R) ->
  snd (MockData.generateMockPositions rnd k) = (k + 20)%nat /\
  map Position.symbol (fst (MockData.generateMockPositions rnd k))
    = ["AAPL"; "MSFT"; "GOOGL"; "AMZN"; "NVDA"; "JPM"; "V"; "JNJ"; "PG"; "XOM"]%string /\
  forall (idx : nat) (p : Position.t),
    nth_error (fst (MockData.generateMockPositions rnd k)) idx = Some p ->
    exists (q : Z) (c : R),
      (10 <= q <= 59)%Z /\
      Position.quantity p = Fin (IZR q) /\
      Position.costBasis p = Fin (100 + 50 * INR idx)%R /\
      Position.currentPrice p = Fin c /\
      (0.925 * (100 + 50 * INR idx) <= c <= 1.075 * (100 + 50 * INR idx))%R.
Proof.
  intros Hrnd. split; [| split].
  - unfold MockData.generateMockPositions.
    destruct (mapPositions_spec rnd (Transactions.slice0 10 MockData.mockStocks) k 0)
      as (Hk & _). rewrite Hk. reflexivity.
  - reflexivity.
  - intros idx p Hp.
    apply generateMockPositions_nth in Hp as (s0 & Hs0 & ->).
    destruct (mockPosition_spec rnd (k + 2 * idx) s0 idx Hrnd)
      as (q & c & Hq & Hc & ->).
    exists q, c. repeat split; first [lia | lra | reflexivity].
Qed.

Lemma X1_mock_positions_witness :
  snd (MockData.generateMockPositions (fun _ => (1 / 2)%R) 0) = 20%nat.
Proof.
  apply (X1_mock_positions_shape (fun _ => (1 / 2)%R) 0).
  intros j. lra.
Defined.

(** X2: every position made by [generateMockPositions] keeps the invariant
    of the data model: it is a stock, its market value is price x quantity
    and is positive, its gain is the market value less cost x quantity, and
    its gain percent lies between -7.5 and 7.5. *)
Theorem X2_mock_positions_invariant (rnd : nat -> R) (k : nat) :
  (forall j, (0 <= rnd j < 1)%R) ->
  Forall (fun p =>
            Position.assetType p = stock /\
            Position.marketValue p
              = mul (Position.currentPrice p) (Position.quantity p) /\
            Position.gainLoss p
              = sub (Position.marketValue p)
                    (mul (Position.costBasis p) (Position.quantity p)) /\
            exists v g : R,
              Position.marketValue p = Fin v /\ (0 < v)%R /\
              Position.gainLossPercent p = Fin g /\ (-7.5 <= g <= 7.5)%R)
         (fst (MockData.generateMockPositions rnd k)).
Proof.
  exact (generateMockPositions_well_formed rnd k).
Qed.

Lemma X2_mock_positions_witness :
  Forall (fun p => Position.assetType p = stock)
         (fst (MockData.generateMockPositions (fun _ => (1 / 2)%R) 0)).
Proof.
  assert (H : forall j : nat, (0 <= (fun _ : nat => 1 / 2) j < 1)%R)
    by (intros j; lra).
  pose proof (X2_mock_positions_invariant (fun _ => (1 / 2)%R) 0 H) as Hall.
  revert Hall. apply Forall_impl. tauto.
Defined.

(* ================================================================= *)
(** ** The mock ledger *)

Section MockTransactions.

Import MockData.
Local Open Scope R_scope.

Lemma mockTransaction_spec (now : Z) (rnd : nat -> R) (k i : nat) :
  (forall j, 0 <= rnd j < 1) ->
  exists t0,
    mockTransaction now rnd k (Transactions.slice0 8 mockStocks) i = Ok t0 /\
    Transaction.id t0 = String.append "txn-" (string_of_nat i) /\
    mock_transaction now t0.
Proof.
  intros Hrnd.
  destruct (Math_floor_scaled (rnd k) 365 (Hrnd k) ltac:(lia)) as [d [Hd Hdr]].
  destruct (Math_floor_scaled (rnd (S k)) 8 (Hrnd (S k)) ltac:(lia)) as [z [Hz Hzr]].
  destruct (Math_floor_scaled (rnd (S (S (S k)))) 20 (Hrnd (S (S (S k)))) ltac:(lia))
    as [q [Hq Hqr]].
  pose proof (Hrnd (S (S (S (S k))))) as Hp.
  unfold mockTransaction.
  assert (H8 : of_nat (List.length (Transactions.slice0 8 mockStocks)) = Fin 8).
  { unfold of_nat. f_equal. cbn. lra. }
  rewrite H8, Hd, Hz, Hq.
  assert (Hidx : exists s0,
             index_num (Transactions.slice0 8 mockStocks) (Fin (IZR z)) = Some s0 /\
             In (MockStock.symbol s0)
                ["AAPL"; "MSFT"; "GOOGL"; "AMZN"; "NVDA"; "JPM"; "V"; "JNJ"]%string).
  { unfold index_num. rewrite Int_part_IZR, (Rcmp_eq (IZR z) (IZR z)) by reflexivity.
    assert (Hcases : (z = 0 \/ z = 1 \/ z = 2 \/ z = 3 \/
                      z = 4 \/ z = 5 \/ z = 6 \/ z = 7)%Z) by lia.
    destruct Hcases as [-> | [-> | [-> | [-> | [-> | [-> | [-> | ->]]]]]]];
      (eexists; split; [reflexivity | cbn; tauto]). }
  destruct Hidx as (s0 & -> & Hs0).
  cbn [prop bind].
  eexists. split; [reflexivity |]. split; [reflexivity |].
  unfold mock_transaction.
  cbn [Transaction.type Transaction.symbol Transaction.date Transaction.quantity
       Transaction.price Transaction.total Transaction.fees].
  split; [destruct (gt _ _); tauto |].
  split; [exact Hs0 |].
  split.
  { exists d. split; [lia |]. cbn. now rewrite Int_part_IZR. }
  exists (q + 1)%Z, (100 + rnd (S (S (S (S k)))) * 300).
  split; [lia |]. split; [lra |].
  rewrite plus_IZR. cbn. repeat split.
Qed.

Lemma transactionsLoop_spec (now : Z) (rnd : nat -> R) (n : nat) :
  (forall j, 0 <= rnd j < 1) ->
  forall (i k : nat) (acc : list Transaction.t),
  exists ts,
    transactionsLoop now rnd (Transactions.slice0 8 mockStocks) n i k acc
      = Ok (acc ++ ts, (5 * n + k)%nat) /\
    map Transaction.id ts
      = map (fun j => String.append "txn-" (string_of_nat j)) (seq i n) /\
    Forall (mock_transaction now) ts.
Proof.
  intros Hrnd. induction n as [| n IH]; intros i k acc.
  - exists []. cbn. rewrite app_nil_r. auto.
  - cbn [transactionsLoop].
    destruct (mockTransaction_spec now rnd k i Hrnd) as (t0 & -> & Hid & Ht0).
    cbn [bind].
    destruct (IH (S i) (5 + k)%nat (acc ++ [t0])) as (ts & -> & Hids & Hts).
    exists (t0 :: ts). split; [| split].
    + rewrite <- app_assoc. cbn [app]. do 2 f_equal. lia.
    + cbn [map seq]. now rewrite Hid, Hids.
    + now constructor.
Qed.

Lemma string_of_nat_inj (i j : nat) : string_of_nat i = string_of_nat j -> i = j.
Proof.
  unfold string_of_nat. intros H.
  apply DecimalNat.Unsigned.to_uint_inj.
  assert (Hs : Some (Nat.to_uint i) = Some (Nat.to_uint j)).
  { rewrite <- !NilEmpty.usu. now rewrite H. }
  now injection Hs.
Qed.

Lemma mock_ids_NoDup (i n : nat) :
  NoDup (map (fun j => String.append "txn-" (string_of_nat j)) (seq i n)).
Proof.
  revert i. induction n as [| n IH]; intros i; cbn [seq map]; constructor.
  - rewrite in_map_iff. intros (j & Hj & Hin).
    cbn in Hj. injection Hj as Hj. apply string_of_nat_inj in Hj. subst j.
    apply in_seq in Hin. lia.
  - apply IH.
Qed.

(** On valid dates the comparator of the final sort is the difference of
    the times. *)
Lemma compare_dates (x y : Transaction.t) :
  (exists z, Transaction.date x = Some z) ->
  (exists z, Transaction.date y = Some z) ->
  (gt (sub (Date_getTime (Transaction.date y)) (Date_getTime (Transaction.date x)))
      (Fin 0) = true
   <-> to_R (Date_getTime (Transaction.date x))
       < to_R (Date_getTime (Transaction.date y))).
Proof.
  intros [a ->] [b ->]. cbn.
  rcases (IZR b + - IZR a) 0; split; intros; try lra; try discriminate; trivial.
Qed.

(** The whole of [generateMockTransactions]. *)
Lemma generateMockTransactions_spec (now : Z) (rnd : nat -> R) (k : nat) :
  (forall j, 0 <= rnd j < 1) ->
  exists transactions,
    generateMockTransactions now rnd k = Ok (transactions, (250 + k)%nat) /\
    List.length transactions = 50%nat /\
    Forall (mock_transaction now) transactions /\
    NoDup (map Transaction.id transactions) /\
    StronglySorted not_older transactions.
Proof.
  intros Hrnd. unfold generateMockTransactions.
  destruct (transactionsLoop_spec now rnd 50 Hrnd 0 k []) as (ts & -> & Hids & Hts).
  cbn [bind app].
  set (compareFn := fun a b : Transaction.t =>
                      sub (Date_getTime (Transaction.date b))
                          (Date_getTime (Transaction.date a))).
  pose proof (Array_sort_perm compareFn ts) as Hperm.
  eexists. split; [reflexivity |].
  assert (Hvalid : Forall (fun t0 => exists z, Transaction.date t0 = Some z) ts).
  { revert Hts. apply Forall_impl. intros t0 (_ & _ & (d & _ & Hd) & _). eauto. }
  split; [| split; [| split]].
  - rewrite (Permutation_length Hperm), <- (length_map Transaction.id), Hids.
    now rewrite length_map, length_seq.
  - apply (Forall_perm _ ts); [now symmetry | exact Hts].
  - apply (Permutation_NoDup (l := map Transaction.id ts)).
    + apply Permutation_map. now symmetry.
    + rewrite Hids. apply mock_ids_NoDup.
  - pose proof (Array_sort_ranked compareFn
                  (fun t0 => to_R (Date_getTime (Transaction.date t0)))
                  (fun t0 => exists z, Transaction.date t0 = Some z)
                  compare_dates ts Hvalid) as Hsorted.
    assert (Hvalid' : Forall (fun t0 => exists z, Transaction.date t0 = Some z)
                             (Array_sort compareFn ts)).
    { apply (Forall_perm _ ts); [now symmetry | exact Hvalid]. }
    clear - Hsorted Hvalid'.
    induction Hsorted as [| a l Hl IH Hall]; constructor.
    + apply IH. now inversion Hvalid'.
    + inversion Hvalid' as [| ? ? [x Hx] Hl']; subst.
      rewrite Forall_forall in *. intros b Hb.
      destruct (Hl' b Hb) as [y Hy].
      exists x, y. repeat split; trivial.
      specialize (Hall b Hb). unfold SpecTx.ranks_before in Hall.
      rewrite Hx, Hy in Hall. cbn in Hall.
      apply le_IZR. lra.
Qed.

End MockTransactions.



(** X4: the ledger made by [generateMockTransactions] is in the order of
    the dates, the most recent first, and the ids of its transactions are
    pairwise distinct. *)
Theorem X4_mock_ledger_sorted (now : Z) (rnd : nat -> R) (k : nat) :
  (forall j, (0 <= rnd j < 1)%R) ->
  exists transactions k',
    MockData.generateMockTransactions now rnd k = Ok (transactions, k') /\
    StronglySorted not_older transactions /\
    NoDup (map Transaction.id transactions).
Proof.
  intros Hrnd.
  destruct (generateMockTransactions_spec now rnd k Hrnd)
    as (ts & Hts & _ & _ & Hnodup & Hsorted).
  now exists ts, (250 + k)%nat.
Qed.

Lemma X4_mock_ledger_witness :
  exists transactions k',
    MockData.generateMockTransactions 0%Z (fun _ => (1 / 2)%R) 0
      = Ok (transactions, k') /\
    StronglySorted not_older transactions.
Proof.
  destruct (X4_mock_ledger_sorted 0%Z (fun _ => (1 / 2)%R) 0)
    as (ts & k' & Hts & Hsorted & _).
  - intros j. lra.
  - now exists ts, k'.
Defined.

(* ================================================================= *)
(** ** More on the snapshot generator *)

Section GeneratorMore.

Import Metrics Generator.
Local Open Scope R_scope.

(** A turn of the loop pushes one snapshot and draws twice. *)
Lemma genStep_push now rnd positions total (acc : list PortfolioSnapshot.t)
      (k i : nat) :
  genStep now rnd positions total (acc, k) i
  = (acc ++ fst (genStep now rnd positions total ([], k) i), S (S k)).
Proof. reflexivity. Qed.

(** What holds of the snapshot of every turn holds of the whole series. *)
Lemma genStep_Forall now rnd positions total (P : PortfolioSnapshot.t -> Prop)
      (l : list nat) :
  (forall i k, In i l -> Forall P (fst (genStep now rnd positions total ([], k) i))) ->
  forall acc k,
    Forall P acc ->
    Forall P (fst (fold_left (genStep now rnd positions total) l (acc, k))).
Proof.
  induction l as [| i l IH]; intros Hstep acc k Hacc; [exact Hacc |].
  cbn [fold_left]. rewrite genStep_push.
  apply IH.
  - intros j k' Hj. apply Hstep. now right.
  - apply Forall_app. split; [exact Hacc |]. apply Hstep. now left.
Qed.

(** The growth factor of a day lies between 0.99 and 1.1195. *)
Lemma growthFactor_range (i : nat) (r : R) :
  (i <= daysBack)%nat -> 0 <= r < 1 ->
  exists g : R,
    add (add (Fin 1) (mul (sub (of_nat daysBack) (of_nat i)) (Fin 0.0003)))
        (mul (sub (Fin r) (Fin 0.5)) (Fin 0.02)) = Fin g /\
    0.99 <= g < 1.1195.
Proof.
  intros Hi Hr. eexists. split; [reflexivity |].
  apply le_INR in Hi. pose proof (pos_INR i) as Hpos.
  assert (H365 : INR daysBack = 365) by (unfold daysBack; rewrite INR_IZR_INZ; reflexivity).
  rewrite H365 in *. lra.
Qed.

End GeneratorMore.

Section GeneratorValues.

Import Metrics Generator.
Local Open Scope R_scope.

Lemma genStep_values now rnd positions (T : R) (i k : nat) :
  (forall j, 0 <= rnd j < 1) -> (i <= daysBack)%nat ->
  Forall (fun s => exists v g c : R,
              PortfolioSnapshot.totalValue s = Fin v /\
              PortfolioSnapshot.cashBalance s = Fin c /\
              0.99 <= g < 1.1195 /\ v * g = T /\ 5000 <= c < 7000)
         (fst (genStep now rnd positions (Fin T) ([], k) i)).
Proof.
  intros Hrnd Hi. unfold genStep.
  destruct (growthFactor_range i (rnd k) Hi (Hrnd k)) as [g [-> Hg]].
  cbn [fst app]. constructor; [| constructor].
  cbn [PortfolioSnapshot.totalValue PortfolioSnapshot.cashBalance].
  pose proof (Hrnd (S k)) as Hc.
  exists (T / g), g, (5000 + rnd (S k) * 2000).
  cbn. rcases g 0; try lra.
  repeat split; try lra. field. lra.
Qed.

End GeneratorValues.


(* ================================================================= *)
(** ** More on the metrics *)

Section MetricsMore.

Import PortfolioSnapshot Metrics.
Local Open Scope R_scope.

(** The largest drawdown kept by the scan is an infinity or a finite
    number that is not negative; it is never [NaN]. *)
Lemma drawdownStep_invariant (snapshots : list t) :
  forall (md peak : num),
    (md = PInf \/ exists d : R, md = Fin d /\ 0 <= d) ->
    fst (reduce drawdownStep (md, peak) snapshots) = PInf \/
    exists d : R, fst (reduce drawdownStep (md, peak) snapshots) = Fin d /\ 0 <= d.
Proof.
  unfold reduce.
  induction snapshots as [| s snapshots IH]; intros md peak Hmd; [exact Hmd |].
  cbn [fold_left]. unfold drawdownStep at 2.
  apply IH.
  set (peak' := if gt (totalValue s) peak then totalValue s else peak).
  set (drawdown := mul (div (sub peak' (totalValue s)) peak') (Fin 100)).
  destruct (gt drawdown md) eqn:E; [| exact Hmd].
  destruct Hmd as [-> | (d & -> & Hd)].
  - destruct drawdown; discriminate.
  - destruct drawdown as [x | | |]; try discriminate.
    + right. exists x. split; [reflexivity |].
      cbn in E. rcases x d; try discriminate. lra.
    + now left.
Qed.

Lemma find_split {A : Type} (f : A -> bool) (l : list A) :
  match find f l with
  | Some y => exists l1 l2, l = l1 ++ y :: l2 /\ f y = true /\
                            Forall (fun x => f x = false) l1
  | None => Forall (fun x => f x = false) l
  end.
Proof.
  induction l as [| x l IH]; cbn; [constructor |].
  destruct (f x) eqn:E.
  - exists [], l. auto.
  - destruct (find f l) as [y |].
    + destruct IH as (l1 & l2 & -> & Hy & Hl1).
      exists (x :: l1), l2. auto.
    + now constructor.
Qed.

(** The daily and the year-to-date figures of the result on a non-empty
    series. *)
Lemma calculateMockMetrics_returns yearStart positions (s : t) (rest : list t) :
  exists m y,
    calculateMockMetrics yearStart positions (s :: rest) = Ok m /\
    or_obj (find (fun s0 => date_ge (date s0) yearStart) (s :: rest)) (Some s) = Some y /\
    PerformanceMetrics.ytdReturn m = sub (sumMarketValue positions) (totalValue y) /\
    PerformanceMetrics.ytdReturnPercent m
      = mul (div (PerformanceMetrics.ytdReturn m) (totalValue y)) (Fin 100) /\
    PerformanceMetrics.dailyReturn m
      = sub (sumMarketValue positions)
            (or_num (opt_chain (index (s :: rest) (len (s :: rest) - 2)) totalValue)
                    (sumMarketValue positions)) /\
    PerformanceMetrics.dailyReturnPercent m
      = mul (div (PerformanceMetrics.dailyReturn m)
                 (or_num (opt_chain (index (s :: rest) (len (s :: rest) - 2)) totalValue)
                         (sumMarketValue positions)))
            (Fin 100) /\
    PerformanceMetrics.totalReturn m
      = sub (sumMarketValue positions) (sumCost positions) /\
    PerformanceMetrics.maxDrawdown m
      = fst (reduce drawdownStep (Fin 0, totalValue s) (s :: rest)).
Proof.
  unfold calculateMockMetrics.
  assert (Hy : exists y,
             or_obj (find (fun s0 => date_ge (date s0) yearStart) (s :: rest))
                    (index (s :: rest) 0) = Some y).
  { destruct (find _ (s :: rest)) as [y |]; cbn; eauto. }
  destruct Hy as [y Hy]. rewrite Hy.
  rewrite dailyReturnsOf_spec.
  cbn [prop bind index Z.ltb Z.compare Z.to_nat nth_error].
  rewrite (reduce_pair_eta drawdownStep).
  eexists. exists y. split; [reflexivity |].
  split; [exact Hy |].
  cbn [PerformanceMetrics.ytdReturn PerformanceMetrics.ytdReturnPercent
       PerformanceMetrics.dailyReturn PerformanceMetrics.dailyReturnPercent
       PerformanceMetrics.totalReturn PerformanceMetrics.maxDrawdown].
  repeat split.
Qed.

End MetricsMore.

(** X5: whatever the positions and the values of a non-empty series, NaN,
    negative and infinite ones included, the maximum drawdown reported is
    [Infinity] or a finite number that is not negative; it is never [NaN]
    and never negative. *)
Theorem X5_max_drawdown_never_NaN_nor_negative yearStart positions snapshots :
  snapshots <> [] ->
  exists m,
    Metrics.calculateMockMetrics yearStart positions snapshots = Ok m /\
    (PerformanceMetrics.maxDrawdown m = PInf \/
     exists d : R, PerformanceMetrics.maxDrawdown m = Fin d /\ (0 <= d)%R).
Proof.
  intros Hne. destruct snapshots as [| s rest]; [congruence |].
  destruct (calculateMockMetrics_returns yearStart positions s rest)
    as (m & y & Hm & _ & _ & _ & _ & _ & _ & Hmd).
  exists m. split; [exact Hm |]. rewrite Hmd.
  apply drawdownStep_invariant. right. exists 0%R. split; [reflexivity | lra].
Qed.

Lemma X5_max_drawdown_witness :
  exists m,
    Metrics.calculateMockMetrics (Some 0%Z) []
      [PortfolioSnapshot.mk (Some 0%Z) NaN (Fin 0%R) [];
       PortfolioSnapshot.mk (Some 1%Z) (Fin (-5)%R) (Fin 0%R) []] = Ok m /\
    (PerformanceMetrics.maxDrawdown m = PInf \/
     exists d : R, PerformanceMetrics.maxDrawdown m = Fin d /\ (0 <= d)%R).
Proof.
  apply X5_max_drawdown_never_NaN_nor_negative. discriminate.
Defined.

(** X6: on a non-empty series the year-to-date return is the current
    market value of the positions less the total value of a base snapshot,
    and its percent is relative to that value; the base is the first
    snapshot dated on or after the start of the year, every snapshot before
    it being dated earlier or invalid, and the oldest snapshot when no
    snapshot is dated on or after the start of the year. *)
Theorem X6_ytd_return_base yearStart positions snapshots :
  snapshots <> [] ->
  exists m y,
    Metrics.calculateMockMetrics yearStart positions snapshots = Ok m /\
    PerformanceMetrics.ytdReturn m
      = sub (Metrics.sumMarketValue positions) (PortfolioSnapshot.totalValue y) /\
    PerformanceMetrics.ytdReturnPercent m
      = mul (div (PerformanceMetrics.ytdReturn m) (PortfolioSnapshot.totalValue y))
            (Fin 100%R) /\
    ((exists l1 l2,
         snapshots = l1 ++ y :: l2 /\
         date_ge (PortfolioSnapshot.date y) yearStart = true /\
         Forall (fun s => date_ge (PortfolioSnapshot.date s) yearStart = false) l1) \/
     (hd_error snapshots = Some y /\
      Forall (fun s => date_ge (PortfolioSnapshot.date s) yearStart = false)
             snapshots)).
Proof.
  intros Hne. destruct snapshots as [| s rest]; [congruence |].
  destruct (calculateMockMetrics_returns yearStart positions s rest)
    as (m & y & Hm & Hy & Hytd & Hpct & _).
  exists m, y. split; [exact Hm |]. split; [exact Hytd |]. split; [exact Hpct |].
  pose proof (find_split (fun s0 => date_ge (PortfolioSnapshot.date s0) yearStart)
                         (s :: rest)) as Hfind.
  destruct (find _ (s :: rest)) as [y' |].
  - cbn in Hy. injection Hy as ->. now left.
  - cbn in Hy. injection Hy as ->. now right.
Qed.

Lemma X6_ytd_return_witness :
  let snap := fun (d : Z) (v : R) => PortfolioSnapshot.mk (Some d) (Fin v) (Fin 0%R) [] in
  exists m,
    Metrics.calculateMockMetrics (Some 5%Z) [] [snap 1%Z 100%R; snap 7%Z 120%R] = Ok m /\
    PerformanceMetrics.ytdReturn m = sub (Metrics.sumMarketValue []) (Fin 120%R).
Proof.
  intros snap.
  destruct (X6_ytd_return_base (Some 5%Z) [] [snap 1%Z 100%R; snap 7%Z 120%R])
    as (m & y & Hm & Hytd & _ & Hbase).
  - discriminate.
  - exists m. split; [exact Hm |]. rewrite Hytd. f_equal.
    destruct Hbase as [(l1 & l2 & Hsplit & Hy & Hl1) | (_ & Hall)].
    + destruct l1 as [| a [| b l1]].
      * injection Hsplit as <- _. discriminate.
      * injection Hsplit as _ <- _. reflexivity.
      * injection Hsplit as _ _ Hsplit. now destruct l1.
    + inversion Hall as [| ? ? _ Hrest]; subst.
      inversion Hrest as [| ? ? H7 _]; subst. discriminate.
Defined.

(** X7: on a non-empty series the daily return is the current market value
    of the positions less a previous value, and its percent is relative to
    that value; the previous value is the current value itself when there
    are fewer than two snapshots, and otherwise the total value of the
    snapshot before the last one, or the current value when that total is 0
    or [NaN]. *)
Theorem X7_daily_return_base yearStart positions snapshots :
  snapshots <> [] ->
  exists m previous,
    Metrics.calculateMockMetrics yearStart positions snapshots = Ok m /\
    PerformanceMetrics.dailyReturn m
      = sub (Metrics.sumMarketValue positions) previous /\
    PerformanceMetrics.dailyReturnPercent m
      = mul (div (PerformanceMetrics.dailyReturn m) previous) (Fin 100%R) /\
    ((List.length snapshots < 2)%nat -> previous = Metrics.sumMarketValue positions) /\
    (forall s, nth_error snapshots (List.length snapshots - 2) = Some s ->
               (2 <= List.length snapshots)%nat ->
               previous = or_num (Some (PortfolioSnapshot.totalValue s))
                                 (Metrics.sumMarketValue positions)).
Proof.
  intros Hne. destruct snapshots as [| s rest]; [congruence |].
  destruct (calculateMockMetrics_returns yearStart positions s rest)
    as (m & y & Hm & _ & _ & _ & Hday & Hpct & _).
  exists m. eexists. split; [exact Hm |]. split; [exact Hday |]. split; [exact Hpct |].
  split.
  - intros Hlen. rewrite index_out_of_range; [reflexivity |].
    left. unfold len. lia.
  - intros s' Hs' Hlen.
    unfold index, len.
    destruct (Z.ltb_spec (Z.of_nat (List.length (s :: rest)) - 2) 0) as [H | H]; [lia |].
    replace (Z.to_nat (Z.of_nat (List.length (s :: rest)) - 2))
      with (List.length (s :: rest) - 2)%nat by lia.
    now rewrite Hs'.
Qed.

Lemma X7_daily_return_witness :
  let snap := fun (v : R) => PortfolioSnapshot.mk (Some 0%Z) (Fin v) (Fin 0%R) [] in
  exists m,
    Metrics.calculateMockMetrics (Some 0%Z) [] [snap 100%R] = Ok m /\
    PerformanceMetrics.dailyReturn m
      = sub (Metrics.sumMarketValue []) (Metrics.sumMarketValue []).
Proof.
  intros snap.
  destruct (X7_daily_return_base (Some 0%Z) [] [snap 100%R])
    as (m & previous & Hm & Hday & _ & Hshort & _).
  - discriminate.
  - exists m. split; [exact Hm |]. rewrite Hday, Hshort; [reflexivity | cbn; lia].
Defined.

(* ================================================================= *)
(** ** Sorting with a comparator that answers a total order *)

Section SortedBy.

Context {A : Type} (compareFn : A -> A -> num) (ok : A -> Prop) (le : A -> A -> Prop).

(** Every answer of the comparator is true of the order [le]: a result
    [> 0] for [x] and [y] only when [y] may stand before [x], another
    result only when [x] may stand before [y]. *)
Hypothesis compare_gt :
  forall x y, ok x -> ok y -> gt (compareFn x y) (Fin 0%R) = true -> le y x.
Hypothesis compare_le :
  forall x y, ok x -> ok y -> gt (compareFn x y) (Fin 0%R) = false -> le x y.

Lemma sort_insert_sorted (x : A) (s : list A) :
  ok x -> Forall ok s -> Sorted le s -> Sorted le (sort_insert compareFn x s).
Proof.
  intros Hx Hok Hs. induction Hs as [| y s Hs IH Hhd]; cbn [sort_insert].
  - repeat constructor.
  - apply Forall_cons_iff in Hok as [Hy Hok].
    destruct (gt (compareFn x y) (Fin 0%R)) eqn:E.
    + constructor; [now apply IH |].
      destruct s as [| z s]; cbn [sort_insert].
      * constructor. now apply compare_gt.
      * destruct (gt (compareFn x z) (Fin 0%R)).
        -- constructor. now inversion Hhd.
        -- constructor. now apply compare_gt.
    + constructor; [now constructor |]. constructor. now apply compare_le.
Qed.

Lemma Array_sort_sorted (l : list A) :
  Forall ok l -> Sorted le (Array_sort compareFn l).
Proof.
  induction 1 as [| x l Hx Hl IH]; cbn [Array_sort]; [constructor |].
  apply sort_insert_sorted; trivial. now apply Forall_sorted.
Qed.

End SortedBy.

(* ================================================================= *)
(** ** The statistics of the transactions page *)

Section UniqueSymbols.

Import Transaction Transactions TransactionsPage SpecTx.

Lemma existsb_eqb_In (x : string) (s : list string) :
  existsb (String.eqb x) s = true <-> In x s.
Proof.
  rewrite existsb_exists. split.
  - intros (y & Hy & E). apply String.eqb_eq in E. now subst.
  - intros H. exists x. split; [exact H | apply String.eqb_refl].
Qed.

(** A set lists the elements in the order in which they are first met. *)
Lemma Array_from_Set_first_seen (a : list string) :
  Array_from_Set a = first_seen a.
Proof.
  unfold Array_from_Set.
  induction a as [| x a IH] using rev_ind; [reflexivity |].
  rewrite fold_left_app, IH, first_seen_snoc. cbn [fold_left]. unfold Set_add.
  destruct (in_dec string_dec x a) as [Hin | Hin].
  - apply (proj2 (first_seen_In x a)), (proj2 (existsb_eqb_In x _)) in Hin.
    now rewrite Hin.
  - destruct (existsb (String.eqb x) (first_seen a)) eqn:E; [| reflexivity].
    apply (proj1 (existsb_eqb_In x _)), (proj1 (first_seen_In x a)) in E.
    contradiction.
Qed.

Lemma compareDefault_gt (x y : string) :
  gt (compareDefault x y) (Fin 0%R) = true <-> String.compare x y = Gt.
Proof.
  unfold compareDefault.
  destruct (String.compare x y); cbn; rcmp; split; congruence.
Qed.

(** The default sort puts strings in the order of [String.compare]. *)
Lemma Array_sort_default_sorted (l : list string) :
  Sorted (fun a b => String.compare a b <> Gt) (Array_sort compareDefault l).
Proof.
  apply (Array_sort_sorted compareDefault (fun _ => True)).
  - intros x y _ _ E. apply compareDefault_gt in E.
    rewrite String.compare_antisym, E. discriminate.
  - intros x y _ _ E Hgt. apply compareDefault_gt in Hgt. congruence.
  - apply Forall_forall. trivial.
Qed.

Lemma Sorted_strict (l : list string) :
  NoDup l ->
  Sorted (fun a b => String.compare a b <> Gt) l ->
  Sorted (fun a b => String.compare a b = Lt) l.
Proof.
  induction 2 as [| x l Hl IH Hhd]; constructor.
  - apply IH. now inversion H.
  - destruct Hhd as [| y l Hxy]; constructor.
    destruct (String.compare x y) eqn:E; trivial; [| congruence].
    apply String.compare_eq_iff in E. subst y.
    inversion H as [| ? ? Hnotin _]; subst. exfalso. apply Hnotin. now left.
Qed.

End UniqueSymbols.

(** X8: the list of symbols offered by the symbol filter holds every
    symbol of the ledger exactly once, in strictly increasing order of the
    code units. *)
Theorem X8_unique_symbols_sorted (transactions : list Transaction.t) :
  NoDup (TransactionsPage.uniqueSymbols transactions) /\
  (forall s, In s (TransactionsPage.uniqueSymbols transactions)
             <-> In s (map Transaction.symbol transactions)) /\
  Sorted (fun a b => String.compare a b = Lt)
         (TransactionsPage.uniqueSymbols transactions).
Proof.
  unfold TransactionsPage.uniqueSymbols.
  rewrite Array_from_Set_first_seen.
  pose proof (Array_sort_perm TransactionsPage.compareDefault
                (SpecTx.first_seen (map Transaction.symbol transactions))) as Hperm.
  assert (Hnodup : NoDup (Array_sort TransactionsPage.compareDefault
                            (SpecTx.first_seen (map Transaction.symbol transactions)))).
  { first [ apply (Permutation_NoDup (Permutation_sym Hperm))
          | apply (Permutation_NoDup Hperm) ]; apply first_seen_NoDup. }
  split; [exact Hnodup |]. split.
  - intros s. rewrite <- (first_seen_In s (map Transaction.symbol transactions)).
    split; intros H;
      first [ exact (Permutation_in _ Hperm H)
            | exact (Permutation_in _ (Permutation_sym Hperm) H) ].
  - apply Sorted_strict; trivial. apply Array_sort_default_sorted.
Qed.

Section TransactionStatistics.

Import Transaction Transactions TransactionsPage.

Lemma counts_by_type (transactions : list t) :
  (totalBuys transactions + totalSells transactions + totalDividends transactions
   = List.length transactions)%nat.
Proof.
  unfold totalBuys, totalSells, totalDividends, ofType.
  induction transactions as [| t0 l IH]; [reflexivity |].
  cbn [filter List.length]. destruct (type t0); cbn; lia.
Qed.

Lemma count_positive (ty : TxType) (transactions : list t) :
  (0 <? List.length (ofType ty transactions))%nat = true
  <-> exists t0, In t0 transactions /\ type t0 = ty.
Proof.
  unfold ofType. rewrite Nat.ltb_lt. split.
  - destruct (filter _ transactions) as [| t0 l] eqn:E; cbn; [lia |]. intros _.
    assert (H : In t0 (filter (fun t1 => TxType_eqb (type t1) ty) transactions))
      by (rewrite E; now left).
    apply filter_In in H as [Hin Hty]. apply TxType_eqb_eq in Hty. eauto.
  - intros (t0 & Hin & Hty).
    assert (H : In t0 (filter (fun t1 => TxType_eqb (type t1) ty) transactions)).
    { apply filter_In. split; trivial. now apply TxType_eqb_eq. }
    destruct (filter _ transactions); [contradiction | cbn; lia].
Qed.

End TransactionStatistics.

(** X9: the pie chart of the transaction types has a slice for a type
    exactly when the ledger has a transaction of that type, every slice
    counts at least one transaction, and the slices together count every
    transaction. *)
Theorem X9_type_chart_has_no_empty_slice (transactions : list Transaction.t) :
  let data := TransactionsPage.transactionTypeData transactions in
  (In "Buys"%string (map TypeSlice.name data)
   <-> exists t0, In t0 transactions /\ Transaction.type t0 = buy) /\
  (In "Sells"%string (map TypeSlice.name data)
   <-> exists t0, In t0 transactions /\ Transaction.type t0 = sell) /\
  (In "Dividends"%string (map TypeSlice.name data)
   <-> exists t0, In t0 transactions /\ Transaction.type t0 = dividend) /\
  Forall (fun item => (0 < TypeSlice.value item)%nat) data /\
  list_sum (map TypeSlice.value data) = List.length transactions.
Proof.
  cbv zeta. unfold TransactionsPage.transactionTypeData.
  pose proof (counts_by_type transactions) as Hsum.
  pose proof (count_positive buy transactions) as Hb.
  pose proof (count_positive sell transactions) as Hs.
  pose proof (count_positive dividend transactions) as Hd.
  fold (TransactionsPage.totalBuys transactions) in Hb.
  fold (TransactionsPage.totalSells transactions) in Hs.
  fold (TransactionsPage.totalDividends transactions) in Hd.
  cbn [filter TypeSlice.value].
  destruct (0 <? TransactionsPage.totalBuys transactions)%nat eqn:Eb;
    destruct (0 <? TransactionsPage.totalSells transactions)%nat eqn:Es;
    destruct (0 <? TransactionsPage.totalDividends transactions)%nat eqn:Ed;
    cbn [map TypeSlice.name TypeSlice.value list_sum fold_right In];
    pose proof Eb as Eb'; pose proof Es as Es'; pose proof Ed as Ed';
    first [apply Nat.ltb_lt in Eb' | apply Nat.ltb_ge in Eb'];
    first [apply Nat.ltb_lt in Es' | apply Nat.ltb_ge in Es'];
    first [apply Nat.ltb_lt in Ed' | apply Nat.ltb_ge in Ed'];
    (split; [| split; [| split; [| split]]]);
    try lia;
    try (repeat constructor; cbn; assumption);
    (split;
     [ intros H; first [ now apply Hb | now apply Hs | now apply Hd
                       | repeat (destruct H as [H | H]; try discriminate H);
                         contradiction ]
     | intros H; first [ apply Hb in H | apply Hs in H | apply Hd in H ];
       first [ discriminate H | tauto ] ]).
Qed.

Section TaxSummary.

Import Transaction Transactions TransactionsPage.


End TaxSummary.


Section BarWidths.

Import Transaction Transactions TransactionsPage SpecTx.

Lemma sum_positive (l : list num) :
  Forall (fun x => exists v : R, x = Fin v /\ (0 < v)%R) l ->
  exists v : R, Spec.sum l = Fin v /\ (0 <= v)%R /\ (l <> [] -> (0 < v)%R).
Proof.
  induction 1 as [| x l (v & -> & Hv) _ (w & Hw & Hw0 & _)].
  - exists 0%R. rewrite sum_nil. repeat split; [lra | congruence].
  - exists (v + w)%R. rewrite sum_cons, Hw. repeat split; [lra |]. intros _. lra.
Qed.

Lemma volume_of_positive (s : string) (transactions : list t) :
  Forall (fun t0 => exists v : R, total t0 = Fin v /\ (0 < v)%R) transactions ->
  In s (map symbol transactions) ->
  exists v : R, volume_of s transactions = Fin v /\ (0 < v)%R.
Proof.
  intros Hpos Hs. unfold volume_of.
  change (fold_left (fun v t0 => add v (total t0))
            (filter (fun t0 => String.eqb (symbol t0) s) transactions) (Fin 0))
    with (reduce (fun v t0 => add v (total t0)) (Fin 0)
            (filter (fun t0 => String.eqb (symbol t0) s) transactions)).
  rewrite (reduce_add_sum0 total).
  destruct (sum_positive
              (map total (filter (fun t0 => String.eqb (symbol t0) s) transactions)))
    as (v & Hv & _ & Hv0).
  - apply Forall_map, Forall_forall. intros t0 Ht0.
    apply filter_In in Ht0 as [Ht0 _].
    rewrite Forall_forall in Hpos. now apply Hpos.
  - exists v. split; trivial. apply Hv0.
    apply in_map_iff in Hs as (t0 & <- & Ht0).
    assert (H : In t0 (filter (fun t1 => String.eqb (symbol t1) (symbol t0))
                              transactions)).
    { apply filter_In. split; trivial. apply String.eqb_refl. }
    destruct (filter _ transactions); [contradiction | discriminate].
Qed.

(** The entries of the ranking, on finite totals and symbols that name no
    member of [Object.prototype]: each holds the volume of a symbol of the
    ledger, and none a larger one than an entry before it. *)
Lemma top_traded_entries (transactions : list t) :
  Forall (fun t0 => inherited (symbol t0) = false) transactions ->
  Forall (fun t0 => is_finite (total t0)) transactions ->
  Forall (fun e => TopTraded.total e
                   = Number (volume_of (TopTraded.symbol e) transactions) /\
                   In (TopTraded.symbol e) (map symbol transactions))
         (topTradedStocks transactions) /\
  StronglySorted (fun a b => (to_R (ToNumber (TopTraded.total b))
                              <= to_R (ToNumber (TopTraded.total a)))%R)
                 (topTradedStocks transactions).
Proof.
  intros Hplain Hfin. unfold topTradedStocks, slice0.
  set (compareFn := fun a b : TopTraded.t =>
                      sub (ToNumber (TopTraded.total b)) (ToNumber (TopTraded.total a))).
  set (entries := map (fun '(symbol, total) => TopTraded.mk symbol total)
                      (Object_entries (symbolVolume transactions))).
  pose proof (ranked_entries transactions Hplain Hfin) as Hperm. fold entries in Hperm.
  assert (Hentries : Forall (fun e => (TopTraded.total e
                                       = Number (volume_of (TopTraded.symbol e)
                                                           transactions) /\
                                       In (TopTraded.symbol e) (map symbol transactions)) /\
                                      is_finite (ToNumber (TopTraded.total e))) entries).
  { apply (Forall_perm _ _ _ (Permutation_sym Hperm)).
    apply Forall_map, Forall_forall. intros s Hs. cbn.
    split; [split; [reflexivity | now apply first_seen_In]
           | now apply volume_of_finite]. }
  assert (Hok : Forall (fun e => is_finite (ToNumber (TopTraded.total e))) entries).
  { revert Hentries. apply Forall_impl. tauto. }
  pose proof (Array_sort_ranked compareFn
                (fun e => to_R (ToNumber (TopTraded.total e)))
                (fun e => is_finite (ToNumber (TopTraded.total e)))
                compare_total entries Hok)
    as Hsorted.
  apply (StronglySorted_firstn _ 5) in Hsorted.
  split.
  - apply Forall_forall. intros e He.
    apply firstn_In in He.
    apply (Permutation_in e (Array_sort_perm compareFn entries)) in He.
    rewrite Forall_forall in Hentries. now apply Hentries.
  - revert Hsorted. apply StronglySorted_weaken.
    intros a b [Hlt | [Heq _]]; lra.
Qed.

Lemma map_idx_from_total {A B : Type} (f : A -> nat -> result B) (g : A -> B)
      (a : list A) (i : nat) :
  (forall x j, In x a -> f x j = Ok (g x)) ->
  map_idx_from f i a = Ok (map g a).
Proof.
  revert i. induction a as [| x a IH]; intros i Hf; [reflexivity |].
  cbn [map_idx_from map]. rewrite (Hf x i) by now left. cbn [bind].
  rewrite IH; [reflexivity |]. intros y j Hy. apply Hf. now right.
Qed.

End BarWidths.

(** X11: the bars of the most traded stocks are always computed, one for
    each stock of the ranking; when no symbol names a member of
    [Object.prototype] and every total of the ledger is a positive finite
    number, each bar is wider than 0 % and no wider than 100 %, and the
    first one is 100 % wide. *)
Theorem X11_bar_widths (transactions : list Transaction.t) :
  exists widths : list num,
    TransactionsPage.barWidths transactions = Ok widths /\
    List.length widths = List.length (Transactions.topTradedStocks transactions) /\
    (Forall (fun t0 => Transactions.inherited (Transaction.symbol t0) = false)
            transactions ->
     Forall (fun t0 => exists v : R, Transaction.total t0 = Fin v /\ (0 < v)%R)
            transactions ->
     Forall (fun w => exists r : R, w = Fin r /\ (0 < r <= 100)%R) widths /\
     forall w, nth_error widths 0 = Some w -> w = Fin 100%R).
Proof.
  unfold TransactionsPage.barWidths. cbv zeta.
  pose proof (top_traded_entries transactions) as Htop.
  destruct (Transactions.topTradedStocks transactions) as [| first rest].
  - exists []. split; [reflexivity |]. split; [reflexivity |]. intros _ _.
    split; [constructor | intros w H; discriminate H].
  - unfold map_idx.
    rewrite (map_idx_from_total _
               (fun e => mul (div (ToNumber (TopTraded.total e))
                                  (ToNumber (TopTraded.total first)))
                             (Fin 100%R))); [| reflexivity].
    eexists. split; [reflexivity |]. split; [apply length_map |].
    intros Hplain Hpos.
    destruct Htop as [Hentries Hsorted]; [exact Hplain | |].
    { revert Hpos. apply Forall_impl. intros t0 (v & -> & _). exact I. }
    assert (Hvol : forall e, In e (first :: rest) ->
                             exists v : R, ToNumber (TopTraded.total e) = Fin v /\
                                           (0 < v)%R).
    { intros e He. rewrite Forall_forall in Hentries.
      destruct (Hentries e He) as [-> Hin]. cbn [ToNumber].
      now apply volume_of_positive. }
    destruct (Hvol first (or_introl eq_refl)) as (f & Hf & Hf0).
    assert (Hle : forall e, In e (first :: rest) ->
                            (to_R (ToNumber (TopTraded.total e)) <= f)%R).
    { intros e [<- | He]; [rewrite Hf; cbn; lra |].
      apply StronglySorted_inv in Hsorted as [_ Hall].
      rewrite Forall_forall in Hall. specialize (Hall e He).
      now rewrite Hf in Hall. }
    assert (Hinv : (0 < / f)%R) by now apply Rinv_0_lt_compat.
    assert (Hone : (f * / f = 1)%R) by (apply Rinv_r; lra).
    split.
    + apply Forall_map, Forall_forall. intros e He.
      destruct (Hvol e He) as (v & Hv & Hv0).
      specialize (Hle e He). rewrite Hv in Hle. cbn in Hle.
      rewrite Hv, Hf. exists (v / f * 100)%R. split.
      * ncompute. reflexivity.
      * unfold Rdiv. split; nra.
    + cbn [map nth_error]. intros w [= <-]. rewrite Hf. ncompute.
      f_equal. field. lra.
Qed.

Lemma X11_bar_widths_witness :
  exists widths : list num,
    TransactionsPage.barWidths
      [Transaction.mk "txn-0" (Some 0%Z) "AAPL" buy (Fin 1%R) (Fin 2%R) (Fin 2%R)
                      (Fin 0%R)]
    = Ok widths /\
    Forall (fun w => exists r : R, w = Fin r /\ (0 < r <= 100)%R) widths.
Proof.
  destruct (X11_bar_widths
              [Transaction.mk "txn-0" (Some 0%Z) "AAPL" buy (Fin 1%R) (Fin 2%R)
                              (Fin 2%R) (Fin 0%R)])
    as (widths & Hw & _ & H).
  exists widths. split; [exact Hw |]. apply H.
  - repeat constructor.
  - repeat constructor. exists 2%R. split; [reflexivity | lra].
Defined.

(* ================================================================= *)
(** ** The holdings page *)

Section Holdings.

Import HoldingsPage.

Variable toLowerCase : string -> string.

Lemma SortField_eqb_eq (a b : SortField) : SortField_eqb a b = true <-> a = b.
Proof.
  destruct a, b; cbn; split; intros H; try reflexivity; discriminate H.
Qed.

Lemma key_gt_le (x y : string + num) :
  key_ok x -> key_ok y -> key_gt toLowerCase x y = true -> key_le toLowerCase y x.
Proof.
  destruct x as [s | a], y as [s' | b]; cbn; try discriminate.
  - intros _ _ H. rewrite String.compare_antisym.
    destruct (String.compare (toLowerCase s) (toLowerCase s')); cbn;
      discriminate.
  - destruct a, b; try contradiction. intros _ _. cbn.
    rcases r r0; intros H; try discriminate H; lra.
Qed.

Lemma key_not_gt_le (x y : string + num) :
  key_ok x -> key_ok y ->
  (exists s s', x = inl s /\ y = inl s') \/ (exists a b, x = inr a /\ y = inr b) ->
  key_gt toLowerCase x y = false -> key_le toLowerCase x y.
Proof.
  intros Hx Hy [(s & s' & -> & ->) | (a & b & -> & ->)]; cbn.
  - destruct (String.compare (toLowerCase s) (toLowerCase s')); congruence.
  - cbn in Hx, Hy. destruct a, b; try contradiction. cbn.
    rcases r r0; intros H; try discriminate H; lra.
Qed.

Lemma fieldOf_same_kind (field : SortField) (a b : Position.t) :
  (exists s s', fieldOf field a = inl s /\ fieldOf field b = inl s') \/
  (exists x y, fieldOf field a = inr x /\ fieldOf field b = inr y).
Proof.
  destruct field; cbn; eauto.
Qed.

End Holdings.

(** X12: the filter of the holdings page keeps, in their order, exactly the
    positions that pass the sector, the asset type and the search criteria
    together, the search looking for the query, in lower case, in the symbol
    or in the name in lower case; with no criterion set it keeps every
    position. *)
Theorem X12_holdings_filter (toLowerCase : string -> string)
        (f : HoldingsPage.FilterState) (positions : list Position.t) :
  SpecTx.subseq (HoldingsPage.filteredPositions toLowerCase f positions) positions /\
  (forall p, In p (HoldingsPage.filteredPositions toLowerCase f positions)
             <-> In p positions /\
                 (HoldingsPage.filterSector f = "all"%string \/
                  Position.sector p = HoldingsPage.filterSector f) /\
                 (HoldingsPage.filterAssetType f = "all"%string \/
                  Allocation.AssetType_str (Position.assetType p)
                  = HoldingsPage.filterAssetType f) /\
                 (HoldingsPage.searchQuery f = EmptyString \/
                  SpecTx.substring (toLowerCase (HoldingsPage.searchQuery f))
                                   (toLowerCase (Position.symbol p)) \/
                  SpecTx.substring (toLowerCase (HoldingsPage.searchQuery f))
                                   (toLowerCase (Position.name p)))) /\
  HoldingsPage.filteredPositions toLowerCase HoldingsPage.noFilter positions
  = positions.
Proof.
  split; [apply filter_subseq |]. split.
  - intros p. unfold HoldingsPage.filteredPositions, HoldingsPage.matchesFilter.
    rewrite filter_In. cbv zeta.
    rewrite !andb_true_iff, !orb_true_iff, !String.eqb_eq, !includes_iff.
    unfold SpecTx.substring. tauto.
  - unfold HoldingsPage.filteredPositions.
    induction positions as [| p l IH]; [reflexivity |].
    cbn [filter]. now rewrite IH.
Qed.

(** X13: a click on a column header always makes that column the sort
    field; on another column than the current one it sorts in descending
    order, and two clicks on the current column bring the sort back to what
    it was. *)
Theorem X13_sort_header_clicks (st : HoldingsPage.SortField * HoldingsPage.SortDirection)
        (field : HoldingsPage.SortField) :
  fst (HoldingsPage.handleSort st field) = field /\
  (fst st <> field -> HoldingsPage.handleSort st field = (field, HoldingsPage.desc)) /\
  (fst st = field ->
   HoldingsPage.handleSort (HoldingsPage.handleSort st field) field = st).
Proof.
  destruct st as [sortField sortDirection]. cbn [fst].
  unfold HoldingsPage.handleSort.
  destruct (HoldingsPage.SortField_eqb sortField field) eqn:E.
  - apply SortField_eqb_eq in E. subst field. cbn [fst].
    split; [reflexivity |]. split; [congruence |]. intros _.
    rewrite (proj2 (SortField_eqb_eq sortField sortField) eq_refl).
    now destruct sortDirection.
  - split; [reflexivity |]. split; [reflexivity |]. intros H.
    apply SortField_eqb_eq in H. congruence.
Qed.

Lemma X13_sort_header_witness :
  HoldingsPage.handleSort
    (HoldingsPage.handleSort (HoldingsPage.by_marketValue, HoldingsPage.desc)
                             HoldingsPage.by_marketValue)
    HoldingsPage.by_marketValue
  = (HoldingsPage.by_marketValue, HoldingsPage.desc) /\
  HoldingsPage.handleSort (HoldingsPage.by_marketValue, HoldingsPage.asc)
                          HoldingsPage.by_symbol
  = (HoldingsPage.by_symbol, HoldingsPage.desc).
Proof.
  split.
  - apply (X13_sort_header_clicks (HoldingsPage.by_marketValue, HoldingsPage.desc)
                                  HoldingsPage.by_marketValue).
    reflexivity.
  - apply (X13_sort_header_clicks (HoldingsPage.by_marketValue, HoldingsPage.asc)
                                  HoldingsPage.by_symbol).
    discriminate.
Defined.

(** X14: the sort of the holdings table rearranges the positions without
    losing or adding one; when the keys of the sort field are strings or
    finite numbers, the table is in the order of the keys, ascending or
    descending as asked, strings being compared in lower case. *)
Theorem X14_holdings_sort (toLowerCase : string -> string)
        (sortField : HoldingsPage.SortField)
        (sortDirection : HoldingsPage.SortDirection) (positions : list Position.t) :
  Permutation (HoldingsPage.sortedPositions toLowerCase sortField sortDirection
                                            positions)
              positions /\
  (Forall (fun p => key_ok (HoldingsPage.fieldOf sortField p)) positions ->
   Sorted (fun a b =>
             match sortDirection with
             | HoldingsPage.asc =>
                 key_le toLowerCase (HoldingsPage.fieldOf sortField a)
                        (HoldingsPage.fieldOf sortField b)
             | HoldingsPage.desc =>
                 key_le toLowerCase (HoldingsPage.fieldOf sortField b)
                        (HoldingsPage.fieldOf sortField a)
             end)
          (HoldingsPage.sortedPositions toLowerCase sortField sortDirection
                                        positions)).
Proof.
  unfold HoldingsPage.sortedPositions. split; [apply Array_sort_perm |].
  apply Array_sort_sorted; intros x y Hx Hy E;
    unfold HoldingsPage.comparePositions in E; cbv zeta in E;
    destruct sortDirection.
  - apply key_gt_le; trivial.
    destruct (HoldingsPage.key_gt _ _ _); [reflexivity |].
    revert E. cbn. rcmp. discriminate.
  - apply key_gt_le; trivial.
    destruct (HoldingsPage.key_gt _ _ _); [reflexivity |].
    revert E. cbn. rcmp. discriminate.
  - apply key_not_gt_le; trivial; [apply fieldOf_same_kind |].
    destruct (HoldingsPage.key_gt _ _ _); [| reflexivity].
    revert E. cbn. rcmp. discriminate.
  - apply key_not_gt_le; trivial; [apply fieldOf_same_kind |].
    destruct (HoldingsPage.key_gt _ _ _); [| reflexivity].
    revert E. cbn. rcmp. discriminate.
Qed.

Lemma X14_holdings_sort_witness :
  let positions :=
    [Position.mk "AAPL" "Apple Inc." (Fin 2%R) (Fin 100%R) (Fin 110%R) (Fin 220%R)
                 (Fin 20%R) (Fin 10%R) "Technology" stock;
     Position.mk "MSFT" "Microsoft Corporation" (Fin 3%R) (Fin 150%R) (Fin 160%R)
                 (Fin 480%R) (Fin 30%R) (Fin (20 / 3)%R) "Technology" stock] in
  Sorted (fun a b => key_le toLowerCaseASCII (inr (Position.marketValue b))
                            (inr (Position.marketValue a)))
         (HoldingsPage.sortedPositions toLowerCaseASCII HoldingsPage.by_marketValue
                                       HoldingsPage.desc positions).
Proof.
  cbv zeta.
  apply (X14_holdings_sort toLowerCaseASCII HoldingsPage.by_marketValue
                           HoldingsPage.desc).
  repeat constructor.
Defined.

(* ================================================================= *)
(** ** The research, dashboard and analytics pages *)

Section Pages.

Lemma handleStockSelection_invariant (selectedStocks : list string) (symbol : string) :
  NoDup selectedStocks -> (List.length selectedStocks <= 4)%nat ->
  NoDup (ResearchPage.handleStockSelection selectedStocks symbol) /\
  (List.length (ResearchPage.handleStockSelection selectedStocks symbol) <= 4)%nat.
Proof.
  intros Hnodup Hlen. unfold ResearchPage.handleStockSelection.
  destruct (existsb (String.eqb symbol) selectedStocks) eqn:E.
  - split; [now apply NoDup_filter |].
    pose proof (filter_length_le (fun s => negb (String.eqb s symbol)) selectedStocks).
    lia.
  - destruct (Nat.ltb_spec (List.length selectedStocks) 4) as [H | H].
    + split.
      * apply NoDup_app; trivial; [repeat constructor; now intros [] |].
        intros s Hs [Heq | []]. subst s.
        apply (proj2 (existsb_eqb_In symbol selectedStocks)) in Hs. congruence.
      * rewrite length_app. cbn. lia.
    + now split.
Qed.

(** The sampling keeps the elements whose index is a multiple of 7: started
    at the index [i], the next one kept is [o] elements away. *)
Lemma everySeventh_nth {A : Type} (a : list A) (i o j : nat) :
  ((i + o) mod 7 = 0)%nat -> (o < 7)%nat ->
  nth_error (DashboardPage.everySeventh i a) j = nth_error a (7 * j + o).
Proof.
  revert i o j. induction a as [| x a IH]; intros i o j Hmod Ho.
  - cbn. now rewrite !nth_error_nil.
  - pose proof (Nat.div_mod_eq i 7) as Hi.
    pose proof (Nat.mod_upper_bound i 7 ltac:(discriminate)) as Hi'.
    pose proof (Nat.div_mod_eq (i + o) 7) as Hio.
    cbn [DashboardPage.everySeventh].
    destruct (Nat.eqb_spec (i mod 7) 0) as [E | E].
    + assert (o = 0)%nat by lia. subst o.
      destruct j as [| j]; [reflexivity |].
      cbn [nth_error]. rewrite (IH (S i) 6%nat j); [| | lia].
      * replace (7 * S j + 0)%nat with (S (7 * j + 6)) by lia. reflexivity.
      * pose proof (Nat.div_mod_eq (S i + 6) 7).
        pose proof (Nat.mod_upper_bound (S i + 6) 7 ltac:(discriminate)). lia.
    + destruct o as [| o]; [rewrite Nat.add_0_r in Hmod; contradiction |].
      rewrite (IH (S i) o j); [| | lia].
      * now rewrite Nat.add_succ_r.
      * now replace (S i + o)%nat with (i + S o)%nat by lia.
Qed.

Lemma everySeventh_length {A : Type} (a : list A) (i o : nat) :
  ((i + o) mod 7 = 0)%nat -> (o < 7)%nat ->
  List.length (DashboardPage.everySeventh i a)
  = ((List.length a + 6 - o) / 7)%nat.
Proof.
  revert i o. induction a as [| x a IH]; intros i o Hmod Ho.
  - cbn [DashboardPage.everySeventh List.length].
    symmetry. apply Nat.div_small. lia.
  - pose proof (Nat.div_mod_eq i 7) as Hi.
    pose proof (Nat.mod_upper_bound i 7 ltac:(discriminate)) as Hi'.
    pose proof (Nat.div_mod_eq (i + o) 7) as Hio.
    cbn [DashboardPage.everySeventh].
    destruct (Nat.eqb_spec (i mod 7) 0) as [E | E].
    + assert (o = 0)%nat by lia. subst o.
      cbn [List.length]. rewrite (IH (S i) 6%nat); [| | lia].
      * replace (List.length a + 6 - 6)%nat with (List.length a) by lia.
        replace (S (List.length a) + 6 - 0)%nat with (List.length a + 1 * 7)%nat by lia.
        rewrite Nat.div_add by discriminate. lia.
      * pose proof (Nat.div_mod_eq (S i + 6) 7).
        pose proof (Nat.mod_upper_bound (S i + 6) 7 ltac:(discriminate)). lia.
    + destruct o as [| o]; [rewrite Nat.add_0_r in Hmod; contradiction |].
      cbn [List.length]. rewrite (IH (S i) o); [| | lia].
      * reflexivity.
      * now replace (S i + o)%nat with (i + S o)%nat by lia.
Qed.

(** [b - a > 0] on finite numbers. *)
Lemma gt_sub_iff (a b : num) :
  is_finite a -> is_finite b ->
  (gt (sub b a) (Fin 0%R) = true <-> (to_R a < to_R b)%R).
Proof.
  destruct a as [x | | |], b as [y | | |]; try contradiction. intros _ _. cbn.
  rcases (y + - x)%R 0%R; split; intros; try lra; try discriminate; trivial.
Qed.


End Pages.

(** X15: however many stocks are clicked, the selection of the comparison
    never holds a symbol twice nor more than four symbols, provided it
    started so; a click on a selected symbol removes that symbol and no
    other, and a click on another symbol removes nothing. *)
Theorem X15_selection_stays_within_four (selectedStocks clicks : list string) :
  NoDup selectedStocks -> (List.length selectedStocks <= 4)%nat ->
  (NoDup (fold_left ResearchPage.handleStockSelection clicks selectedStocks) /\
   (List.length (fold_left ResearchPage.handleStockSelection clicks selectedStocks)
    <= 4)%nat) /\
  forall symbol s,
    In s (ResearchPage.handleStockSelection selectedStocks symbol)
    <-> (In s selectedStocks /\ (s <> symbol \/ ~ In symbol selectedStocks)) \/
        (s = symbol /\ ~ In symbol selectedStocks /\
         (List.length selectedStocks < 4)%nat).
Proof.
  intros Hnodup Hlen. split.
  - revert selectedStocks Hnodup Hlen.
    induction clicks as [| c clicks IH]; intros sel Hnodup Hlen; [now split |].
    cbn [fold_left].
    destruct (handleStockSelection_invariant sel c Hnodup Hlen) as [H1 H2].
    now apply IH.
  - intros symbol s. unfold ResearchPage.handleStockSelection.
    destruct (existsb (String.eqb symbol) selectedStocks) eqn:E.
    + apply existsb_eqb_In in E.
      rewrite filter_In, negb_true_iff, String.eqb_neq. tauto.
    + assert (Hnot : ~ In symbol selectedStocks).
      { intros H. apply (proj2 (existsb_eqb_In symbol selectedStocks)) in H.
        congruence. }
      destruct (Nat.ltb_spec (List.length selectedStocks) 4) as [H | H].
      * rewrite in_app_iff. cbn [In]. split.
        -- intros [Hs | [<- | []]]; [left | right]; tauto.
        -- intros [[Hs _] | (-> & _ & _)]; [now left | right; now left].
      * split; [intros Hs; left; tauto |].
        intros [[Hs _] | (_ & _ & Hlt)]; [exact Hs | lia].
Qed.

Lemma X15_selection_witness :
  NoDup (fold_left ResearchPage.handleStockSelection
                   ["NVDA"; "AAPL"; "TSLA"; "GOOGL"; "AMZN"]%string
                   ["AAPL"; "MSFT"]%string) /\
  (List.length (fold_left ResearchPage.handleStockSelection
                          ["NVDA"; "AAPL"; "TSLA"; "GOOGL"; "AMZN"]%string
                          ["AAPL"; "MSFT"]%string) <= 4)%nat.
Proof.
  apply (X15_selection_stays_within_four ["AAPL"; "MSFT"]%string
           ["NVDA"; "AAPL"; "TSLA"; "GOOGL"; "AMZN"]%string).
  - repeat constructor; cbn; intuition discriminate.
  - cbn. lia.
Defined.

(** X16: the performance chart of the dashboard shows one point for each
    snapshot whose index is a multiple of 7, in their order: point [j] is
    made from snapshot [7 j], its value being total value plus cash, and
    there are as many points as the number of snapshots divided by 7,
    rounded up. *)
Theorem X16_performance_chart_samples_weekly (dayLabel : Date -> string)
        (historicalSnapshots : list PortfolioSnapshot.t) :
  List.length (DashboardPage.performanceData dayLabel historicalSnapshots)
  = ((List.length historicalSnapshots + 6) / 7)%nat /\
  forall j,
    nth_error (DashboardPage.performanceData dayLabel historicalSnapshots) j
    = option_map
        (fun snapshot =>
           ChartPoint.mk (dayLabel (PortfolioSnapshot.date snapshot))
                         (add (PortfolioSnapshot.totalValue snapshot)
                              (PortfolioSnapshot.cashBalance snapshot)))
        (nth_error historicalSnapshots (7 * j)).
Proof.
  unfold DashboardPage.performanceData. split.
  - rewrite length_map, (everySeventh_length _ 0 0); [| reflexivity | lia].
    f_equal. lia.
  - intros j. rewrite nth_error_map, (everySeventh_nth _ 0 0); [| reflexivity | lia].
    now rewrite Nat.add_0_r.
Qed.



(* ================================================================= *)
(** ** The groups of the allocation engine *)

Section AllocationGroups.

Import Metrics Allocation SpecTx.

Lemma sumMarketValue_snoc (l : list Position.t) (p : Position.t) :
  sumMarketValue (l ++ [p]) = add (sumMarketValue l) (Position.marketValue p).
Proof.
  unfold sumMarketValue, reduce. now rewrite fold_left_app.
Qed.

Lemma sumMarketValue_finite (l : list Position.t) :
  Forall (fun p => is_finite (Position.marketValue p)) l ->
  is_finite (sumMarketValue l).
Proof.
  intros H. unfold sumMarketValue. rewrite reduce_add_sum0.
  destruct (sum_finite (map Position.marketValue l)) as [S ->]; [| exact I].
  now apply Forall_map.
Qed.

Lemma of_nat_succ (n : nat) : add (of_nat n) (Fin 1%R) = of_nat (S n).
Proof.
  unfold of_nat. cbn [add]. f_equal. rewrite S_INR. reflexivity.
Qed.

(** The entry of the sector map for the sector [s]. *)
Lemma sectorMap_table (positions : list Position.t) :
  fold_left sectorStep positions []
  = map (fun s => (s, (sumMarketValue (inSector s positions),
                       of_nat (List.length (inSector s positions)))))
        (first_seen (map Position.sector positions)).
Proof.
  induction positions as [| p l IH] using rev_ind; [reflexivity |].
  rewrite fold_left_app. cbn [fold_left]. rewrite IH. clear IH.
  rewrite map_app. cbn [map]. rewrite first_seen_snoc.
  set (k := Position.sector p).
  set (labels := map Position.sector l).
  set (keys := first_seen labels).
  pose proof (first_seen_In k labels) as Hkeys. fold keys in Hkeys.
  pose proof (first_seen_NoDup labels) as Hnodup. fold keys in Hnodup.
  assert (Hsnoc : forall s,
             (sumMarketValue (inSector s (l ++ [p])),
              of_nat (List.length (inSector s (l ++ [p]))))
             = if String.eqb k s
               then (add (sumMarketValue (inSector s l)) (Position.marketValue p),
                     add (of_nat (List.length (inSector s l))) (Fin 1%R))
               else (sumMarketValue (inSector s l),
                     of_nat (List.length (inSector s l)))).
  { intros s. unfold inSector. rewrite filter_app. cbn [filter]. fold k.
    destruct (String.eqb k s); [| now rewrite app_nil_r].
    rewrite sumMarketValue_snoc, length_app, of_nat_succ. cbn [List.length].
    now rewrite Nat.add_1_r. }
  unfold sectorStep. fold k. cbv zeta. rewrite assoc_get_keys.
  destruct (in_dec string_dec k keys) as [Hk | Hk];
    destruct (in_dec string_dec k labels) as [Hk' | Hk'];
    try (exfalso; tauto).
  - rewrite assoc_set_keys by trivial.
    apply map_ext_in. intros s Hs. f_equal.
    rewrite Hsnoc, (String.eqb_sym k s).
    destruct (String.eqb_spec s k) as [-> | Hsk]; reflexivity.
  - assert (Hnone : assoc_get k
                      (map (fun s => (s, (sumMarketValue (inSector s l),
                                          of_nat (List.length (inSector s l)))))
                           keys) = None).
    { rewrite assoc_get_keys. now destruct (in_dec string_dec k keys). }
    rewrite (assoc_set_absent _ _ _ Hnone).
    rewrite map_app. cbn [map]. f_equal.
    + apply map_ext_in. intros s Hs. f_equal. rewrite Hsnoc.
      destruct (String.eqb_spec k s) as [<- | Hsk]; [contradiction | reflexivity].
    + rewrite Hsnoc, String.eqb_refl.
      assert (Hempty : inSector k l = []).
      { unfold inSector. clear - Hk'. subst labels.
        induction l as [| q l IH]; [reflexivity |].
        cbn [filter]. cbn [map In] in Hk'.
        destruct (String.eqb_spec (Position.sector q) k) as [E | E]; [tauto |].
        apply IH. tauto. }
      now rewrite Hempty.
Qed.

(** The entry of the asset map for an asset type, on finite market values. *)
Lemma assetMap_table (positions : list Position.t) :
  Forall (fun p => is_finite (Position.marketValue p)) positions ->
  fold_left assetStep positions []
  = map (fun s => (s, sumMarketValue (ofAssetType s positions)))
        (first_seen (map (fun p => AssetType_str (Position.assetType p)) positions)).
Proof.
  induction positions as [| p l IH] using rev_ind; intros Hfin; [reflexivity |].
  apply Forall_app in Hfin as [Hl Hp].
  rewrite fold_left_app. cbn [fold_left]. rewrite (IH Hl). clear IH.
  rewrite map_app. cbn [map]. rewrite first_seen_snoc.
  set (k := AssetType_str (Position.assetType p)).
  set (labels := map (fun q => AssetType_str (Position.assetType q)) l).
  set (keys := first_seen labels).
  pose proof (first_seen_In k labels) as Hkeys. fold keys in Hkeys.
  pose proof (first_seen_NoDup labels) as Hnodup. fold keys in Hnodup.
  assert (Hsnoc : forall s,
             sumMarketValue (ofAssetType s (l ++ [p]))
             = if String.eqb k s
               then add (sumMarketValue (ofAssetType s l)) (Position.marketValue p)
               else sumMarketValue (ofAssetType s l)).
  { intros s. unfold ofAssetType. rewrite filter_app. cbn [filter]. fold k.
    destruct (String.eqb k s); [| now rewrite app_nil_r].
    now rewrite sumMarketValue_snoc. }
  assert (Hor : forall s, or_num (Some (sumMarketValue (ofAssetType s l))) (Fin 0%R)
                          = sumMarketValue (ofAssetType s l)).
  { intros s.
    assert (H : is_finite (sumMarketValue (ofAssetType s l))).
    { apply sumMarketValue_finite. unfold ofAssetType.
      apply Forall_forall. intros q Hq. apply filter_In in Hq as [Hq _].
      rewrite Forall_forall in Hl. now apply Hl. }
    destruct (sumMarketValue (ofAssetType s l)) as [r | | |]; try contradiction.
    cbn. rcases r 0%R; trivial. now subst. }
  unfold assetStep. fold k. cbv zeta. rewrite assoc_get_keys.
  destruct (in_dec string_dec k keys) as [Hk | Hk];
    destruct (in_dec string_dec k labels) as [Hk' | Hk'];
    try (exfalso; tauto).
  - rewrite Hor, assoc_set_keys by trivial.
    apply map_ext_in. intros s Hs. f_equal.
    rewrite Hsnoc, (String.eqb_sym k s).
    destruct (String.eqb_spec s k) as [-> | Hsk]; reflexivity.
  - assert (Hnone : assoc_get k
                      (map (fun s => (s, sumMarketValue (ofAssetType s l))) keys)
                    = None).
    { rewrite assoc_get_keys. now destruct (in_dec string_dec k keys). }
    rewrite (assoc_set_absent _ _ _ Hnone).
    rewrite map_app. cbn [map]. f_equal.
    + apply map_ext_in. intros s Hs. f_equal. rewrite Hsnoc.
      destruct (String.eqb_spec k s) as [<- | Hsk]; [contradiction | reflexivity].
    + rewrite Hsnoc, String.eqb_refl.
      assert (Hempty : ofAssetType k l = []).
      { unfold ofAssetType. clear - Hk'. subst labels.
        induction l as [| q l IH]; [reflexivity |].
        cbn [filter]. cbn [map In] in Hk'.
        destruct (String.eqb_spec (AssetType_str (Position.assetType q)) k)
          as [E | E]; [tauto |].
        apply IH. tauto. }
      now rewrite Hempty.
Qed.

End AllocationGroups.

(** X18: the sector breakdown has exactly one group for each sector of the
    positions; the value of a group is the sum of the market values of the
    positions of its sector and its count their number; when the market
    values are finite the groups are in descending order of value. *)
Theorem X18_sector_groups (positions : list Position.t) :
  let groups := Allocation.calculateSectorAllocations positions in
  NoDup (map SectorAllocation.sector groups) /\
  (forall s, In s (map SectorAllocation.sector groups)
             <-> In s (map Position.sector positions)) /\
  Forall (fun g =>
            SectorAllocation.value g
            = Metrics.sumMarketValue (inSector (SectorAllocation.sector g) positions) /\
            SectorAllocation.count g
            = of_nat (List.length (inSector (SectorAllocation.sector g) positions)))
         groups /\
  (Forall (fun p => is_finite (Position.marketValue p)) positions ->
   StronglySorted (fun a b => (to_R (SectorAllocation.value b)
                               <= to_R (SectorAllocation.value a))%R)
                  groups).
Proof.
  cbv zeta. unfold Allocation.calculateSectorAllocations. cbv zeta.
  rewrite sectorMap_table, map_map.
  set (compareFn := fun a b : SectorAllocation.t => sub _ _).
  set (keys := SpecTx.first_seen (map Position.sector positions)).
  set (entries := map _ keys).
  pose proof (Array_sort_perm compareFn entries) as Hperm.
  assert (Hnames : map SectorAllocation.sector entries = keys).
  { unfold entries. rewrite map_map. cbn. apply map_id. }
  assert (Hsectors : Permutation (map SectorAllocation.sector
                                      (Array_sort compareFn entries)) keys).
  { rewrite <- Hnames. now apply Permutation_map. }
  split; [| split; [| split]].
  - apply (Permutation_NoDup (Permutation_sym Hsectors)), first_seen_NoDup.
  - intros s. rewrite <- (first_seen_In s (map Position.sector positions)).
    fold keys. split; intros H.
    + exact (Permutation_in s Hsectors H).
    + exact (Permutation_in s (Permutation_sym Hsectors) H).
  - apply Forall_sorted, Forall_map, Forall_forall. intros s _. cbn. now split.
  - intros Hfin.
    assert (Hok : Forall (fun g => is_finite (SectorAllocation.value g)) entries).
    { apply Forall_map, Forall_forall. intros s _. cbn.
      apply sumMarketValue_finite. unfold inSector.
      apply Forall_forall. intros q Hq. apply filter_In in Hq as [Hq _].
      rewrite Forall_forall in Hfin. now apply Hfin. }
    pose proof (Array_sort_ranked compareFn (fun g => to_R (SectorAllocation.value g))
                  (fun g => is_finite (SectorAllocation.value g))
                  (fun x y Hx Hy => gt_sub_iff (SectorAllocation.value x)
                                               (SectorAllocation.value y) Hx Hy)
                  entries Hok) as Hsorted.
    revert Hsorted. apply StronglySorted_weaken.
    intros a b [Hlt | [Heq _]]; lra.
Qed.

Lemma X18_sector_groups_witness :
  let positions :=
    [Position.mk "AAPL" "Apple Inc." (Fin 2%R) (Fin 100%R) (Fin 110%R) (Fin 220%R)
                 (Fin 20%R) (Fin 10%R) "Technology" stock;
     Position.mk "JPM" "JPMorgan Chase & Co." (Fin 1%R) (Fin 100%R) (Fin 125%R)
                 (Fin 125%R) (Fin 25%R) (Fin 25%R) "Financial Services" stock] in
  StronglySorted (fun a b => (to_R (SectorAllocation.value b)
                              <= to_R (SectorAllocation.value a))%R)
                 (Allocation.calculateSectorAllocations positions).
Proof.
  cbv zeta. apply X18_sector_groups. repeat constructor.
Defined.

(** X19: for positions of finite market value, the asset-type breakdown has
    exactly one group for each asset type of the positions, so five at
    most; the value of a group is the sum of the market values of the
    positions of its type, and the groups are in descending order of
    value. *)
Theorem X19_asset_groups (positions : list Position.t) :
  Forall (fun p => is_finite (Position.marketValue p)) positions ->
  let groups := Allocation.calculateAssetAllocations positions in
  NoDup (map AssetAllocation.assetType groups) /\
  (forall s, In s (map AssetAllocation.assetType groups)
             <-> exists p, In p positions /\
                           Allocation.AssetType_str (Position.assetType p) = s) /\
  (List.length groups <= 5)%nat /\
  Forall (fun g =>
            AssetAllocation.value g
            = Metrics.sumMarketValue
                (ofAssetType (AssetAllocation.assetType g) positions))
         groups /\
  StronglySorted (fun a b => (to_R (AssetAllocation.value b)
                              <= to_R (AssetAllocation.value a))%R)
                 groups.
Proof.
  intros Hfin. cbv zeta. unfold Allocation.calculateAssetAllocations. cbv zeta.
  rewrite (assetMap_table positions Hfin), map_map.
  set (compareFn := fun a b : AssetAllocation.t => sub _ _).
  set (labels := map (fun p => Allocation.AssetType_str (Position.assetType p))
                     positions).
  set (keys := SpecTx.first_seen labels).
  set (entries := map _ keys).
  pose proof (Array_sort_perm compareFn entries) as Hperm.
  assert (Hnames : map AssetAllocation.assetType entries = keys).
  { unfold entries. rewrite map_map. cbn. apply map_id. }
  assert (Htypes : Permutation (map AssetAllocation.assetType
                                    (Array_sort compareFn entries)) keys).
  { rewrite <- Hnames. now apply Permutation_map. }
  assert (Hnodup : NoDup (map AssetAllocation.assetType
                              (Array_sort compareFn entries))).
  { apply (Permutation_NoDup (Permutation_sym Htypes)), first_seen_NoDup. }
  assert (Hin : forall s, In s (map AssetAllocation.assetType
                                    (Array_sort compareFn entries))
                          <-> In s labels).
  { intros s. rewrite <- (first_seen_In s labels). fold keys. split; intros H.
    - exact (Permutation_in s Htypes H).
    - exact (Permutation_in s (Permutation_sym Htypes) H). }
  split; [exact Hnodup |]. split; [| split; [| split]].
  - intros s. rewrite Hin. unfold labels. rewrite in_map_iff.
    split; intros (p & H1 & H2); exists p; tauto.
  - rewrite <- (length_map AssetAllocation.assetType).
    apply (NoDup_incl_length (l' := ["stock"; "etf"; "bond"; "crypto"; "cash"]%string)
                             Hnodup).
    intros s Hs. apply Hin in Hs. unfold labels in Hs.
    apply in_map_iff in Hs as (p & <- & _).
    destruct (Position.assetType p); cbn; tauto.
  - apply Forall_sorted, Forall_map, Forall_forall. intros s _. reflexivity.
  - assert (Hok : Forall (fun g => is_finite (AssetAllocation.value g)) entries).
    { apply Forall_map, Forall_forall. intros s _. cbn.
      apply sumMarketValue_finite. unfold ofAssetType.
      apply Forall_forall. intros q Hq. apply filter_In in Hq as [Hq _].
      rewrite Forall_forall in Hfin. now apply Hfin. }
    pose proof (Array_sort_ranked compareFn (fun g => to_R (AssetAllocation.value g))
                  (fun g => is_finite (AssetAllocation.value g))
                  (fun x y Hx Hy => gt_sub_iff (AssetAllocation.value x)
                                               (AssetAllocation.value y) Hx Hy)
                  entries Hok) as Hsorted.
    revert Hsorted. apply StronglySorted_weaken.
    intros a b [Hlt | [Heq _]]; lra.
Qed.

Lemma X19_asset_groups_witness :
  let positions :=
    [Position.mk "AAPL" "Apple Inc." (Fin 2%R) (Fin 100%R) (Fin 110%R) (Fin 220%R)
                 (Fin 20%R) (Fin 10%R) "Technology" stock;
     Position.mk "SPY" "SPDR S&P 500 ETF" (Fin 1%R) (Fin 100%R) (Fin 125%R)
                 (Fin 125%R) (Fin 25%R) (Fin 25%R) "Diversified" etf] in
  (List.length (Allocation.calculateAssetAllocations positions) <= 5)%nat.
Proof.
  cbv zeta. apply X19_asset_groups. repeat constructor.
Defined.

(* ================================================================= *)
(** ** The whole of the mock portfolio *)

Section MockPortfolio.

Import Metrics Allocation Generator MockData.
Local Open Scope R_scope.

Variables (now : Z) (yearStart : Date) (rnd : nat -> R).
Hypothesis rnd_range : forall j, 0 <= rnd j < 1.

Lemma calculateMockMetrics_total_return (positions : list Position.t)
      (s : PortfolioSnapshot.t) (rest : list PortfolioSnapshot.t) :
  exists m,
    Metrics.calculateMockMetrics yearStart positions (s :: rest) = Ok m /\
    PerformanceMetrics.totalReturn m
      = sub (Metrics.sumMarketValue positions) (Metrics.sumCost positions) /\
    PerformanceMetrics.totalReturnPercent m
      = mul (div (PerformanceMetrics.totalReturn m) (Metrics.sumCost positions))
            (Fin 100).
Proof.
  unfold Metrics.calculateMockMetrics.
  assert (Hy : exists y,
             or_obj (find (fun s0 => date_ge (PortfolioSnapshot.date s0) yearStart)
                          (s :: rest))
                    (index (s :: rest) 0) = Some y).
  { destruct (find _ (s :: rest)) as [y |]; cbn; eauto. }
  destruct Hy as [y Hy]. rewrite Hy.
  rewrite dailyReturnsOf_spec.
  cbn [prop bind index Z.ltb Z.compare Z.to_nat nth_error].
  rewrite (reduce_pair_eta Metrics.drawdownStep).
  eexists. split; [reflexivity |].
  cbn [PerformanceMetrics.totalReturn PerformanceMetrics.totalReturnPercent].
  split; reflexivity.
Qed.

Lemma mock_positions_length : List.length (mock_positions rnd) = 10%nat.
Proof.
  unfold mock_positions, generateMockPositions.
  now destruct (mapPositions_spec rnd (Transactions.slice0 10 mockStocks) 0 0)
    as (_ & -> & _).
Qed.

Lemma mock_positions_nonempty : mock_positions rnd <> [].
Proof.
  intros E. pose proof mock_positions_length as Hlen.
  rewrite E in Hlen. discriminate Hlen.
Qed.

Lemma mock_history_length : List.length (mock_history now rnd) = 366%nat.
Proof.
  unfold mock_history. apply generateMockHistoricalSnapshots_length.
Qed.

Lemma generateMockPortfolioData_spec :
  exists transactions m,
    generateMockTransactions now rnd 20 = Ok (transactions, 270%nat) /\
    List.length transactions = 50%nat /\
    calculateMockMetrics yearStart (mock_positions rnd) (mock_history now rnd) = Ok m /\
    generateMockPortfolioData now yearStart rnd
    = Ok (PortfolioData.mk
            (PortfolioSnapshot.mk (Some now) (sumMarketValue (mock_positions rnd))
                                  (Fin 7500) (mock_positions rnd))
            (mock_history now rnd) transactions m
            (calculateSectorAllocations (mock_positions rnd))
            (calculateAssetAllocations (mock_positions rnd))).
Proof.
  destruct (generateMockTransactions_spec now rnd 20 rnd_range)
    as (transactions & Htx & Hlen & _).
  assert (Hk : snd (generateMockPositions rnd 0) = 20%nat).
  { unfold generateMockPositions.
    now destruct (mapPositions_spec rnd (Transactions.slice0 10 mockStocks) 0 0)
      as (-> & _). }
  pose proof mock_history_length as Hsnaps.
  destruct (mock_history now rnd) as [| s rest] eqn:Esnap; [discriminate Hsnaps |].
  destruct (calculateMockMetrics_returns yearStart (mock_positions rnd) s rest)
    as (m & _ & Hm & _).
  exists transactions, m. split; [exact Htx |]. split; [exact Hlen |].
  split; [exact Hm |].
  unfold generateMockPortfolioData.
  unfold mock_history in Esnap. unfold mock_positions in *.
  destruct (generateMockPositions rnd 0) as [ps k1].
  cbn [fst snd] in *. subst k1.
  rewrite Htx. cbn [bind].
  change (fun k => rnd (250 + 20 + k)%nat) with (fun k => rnd (270 + k)%nat).
  rewrite Esnap, Hm. reflexivity.
Qed.

(** Cost, value and their ratio for every position of the mock portfolio. *)
Lemma mock_positions_costs :
  Forall (fun p => exists v c : R,
              Position.marketValue p = Fin v /\
              mul (Position.costBasis p) (Position.quantity p) = Fin c /\
              0 < c /\ 0.925 * c <= v <= 1.075 * c)
         (mock_positions rnd).
Proof.
  apply Forall_forall. intros p Hp.
  apply In_nth_error in Hp as [idx Hp].
  apply generateMockPositions_nth in Hp as (s0 & Hs0 & ->).
  destruct (mockPosition_spec rnd (0 + 2 * idx) s0 idx rnd_range)
    as (q & c & Hq & Hc & ->).
  cbn [Position.marketValue Position.costBasis Position.quantity mul].
  pose proof (pos_INR idx) as Hidx.
  assert (HqR : 10 <= IZR q <= 59) by (split; apply IZR_le; lia).
  exists (c * IZR q), ((100 + 50 * INR idx) * IZR q).
  repeat split; trivial; nra.
Qed.

Lemma totals_of_costs (l : list Position.t) :
  Forall (fun p => exists v c : R,
              Position.marketValue p = Fin v /\
              mul (Position.costBasis p) (Position.quantity p) = Fin c /\
              0 < c /\ 0.925 * c <= v <= 1.075 * c) l ->
  exists V C : R,
    sumMarketValue l = Fin V /\ sumCost l = Fin C /\
    0 <= C /\ 0.925 * C <= V <= 1.075 * C /\ (l <> [] -> 0 < C).
Proof.
  unfold sumMarketValue, sumCost. rewrite !reduce_add_sum0.
  induction 1 as [| p l (v & c & Hv & Hc & Hc0 & Hvc) _
                        (V & C & HV & HC & HC0 & HVC & _)]; cbn [map].
  - exists 0, 0. rewrite !sum_nil. repeat split; try lra. congruence.
  - exists (v + V), (c + C). rewrite !sum_cons, Hv, Hc, HV, HC.
    repeat split; try lra.
Qed.

(** The total market value of the mock portfolio against its total cost. *)
Lemma mock_positions_totals :
  exists V C : R,
    sumMarketValue (mock_positions rnd) = Fin V /\
    sumCost (mock_positions rnd) = Fin C /\
    0 < C /\ 0.925 * C <= V <= 1.075 * C.
Proof.
  destruct (totals_of_costs (mock_positions rnd) mock_positions_costs)
    as (V & C & HV & HC & _ & HVC & HC0).
  specialize (HC0 mock_positions_nonempty).
  exists V, C. repeat split; trivial; lra.
Qed.

(** The values of the generated history, for a positive total. *)
Lemma mock_history_positive (T : R) :
  sumMarketValue (mock_positions rnd) = Fin T -> 0 < T ->
  Forall (fun s => exists v : R, PortfolioSnapshot.totalValue s = Fin v /\ 0 < v)
         (mock_history now rnd).
Proof.
  intros HT Hpos. unfold mock_history, generateMockHistoricalSnapshots.
  rewrite HT. apply genStep_Forall; [| constructor].
  intros i k Hi.
  assert (Hle : (i <= daysBack)%nat).
  { pose proof loopIndices_bounded as Hb. rewrite Forall_forall in Hb. now apply Hb. }
  assert (Hrnd' : forall j, 0 <= rnd (270 + j) < 1) by (intros j; apply rnd_range).
  pose proof (genStep_values now (fun k => rnd (270 + k)%nat) (mock_positions rnd)
                T i k Hrnd' Hle) as H.
  revert H. apply Forall_impl.
  intros s (v & g & c & Hv & _ & Hg & Hvg & _).
  exists v. split; [exact Hv | nra].
Qed.

Lemma values_of_positive (l : list PortfolioSnapshot.t) :
  Forall (fun s => exists v : R, PortfolioSnapshot.totalValue s = Fin v /\ 0 < v) l ->
  map PortfolioSnapshot.totalValue l
  = map Fin (map (fun s => to_R (PortfolioSnapshot.totalValue s)) l) /\
  Forall (fun x => 0 < x) (map (fun s => to_R (PortfolioSnapshot.totalValue s)) l).
Proof.
  induction 1 as [| s l (v & Hv & Hv0) _ [IH1 IH2]]; cbn [map].
  - split; [reflexivity | constructor].
  - rewrite Hv. cbn [to_R]. split; [now rewrite IH1 | now constructor].
Qed.

End MockPortfolio.

(** X20: for draws in [0, 1), [generateMockPortfolioData] never throws; it
    gives ten positions of positive total market value with a cash balance
    of 7500, fifty transactions and 366 snapshots, and the asset-type
    breakdown is the one group of the stocks, at 100 percent. *)
Theorem X20_mock_portfolio_is_well_formed (now : Z) (yearStart : Date)
        (rnd : nat -> R) :
  (forall j, (0 <= rnd j < 1)%R) ->
  exists data,
    MockData.generateMockPortfolioData now yearStart rnd = Ok data /\
    List.length (PortfolioSnapshot.positions (PortfolioData.currentSnapshot data))
    = 10%nat /\
    (exists T : R,
        PortfolioSnapshot.totalValue (PortfolioData.currentSnapshot data) = Fin T /\
        (0 < T)%R /\
        PortfolioData.assetAllocations data
        = [AssetAllocation.mk "stock" (Fin T) (Fin 100%R)]) /\
    PortfolioSnapshot.cashBalance (PortfolioData.currentSnapshot data) = Fin 7500%R /\
    List.length (PortfolioData.transactions data) = 50%nat /\
    List.length (PortfolioData.historicalSnapshots data) = 366%nat.
Proof.
  intros Hrnd.
  destruct (generateMockPortfolioData_spec now yearStart rnd Hrnd)
    as (transactions & m & _ & Hlen & _ & ->).
  eexists. split; [reflexivity |].
  cbn [PortfolioData.currentSnapshot PortfolioData.assetAllocations
       PortfolioData.transactions PortfolioData.historicalSnapshots
       PortfolioData.sectorAllocations PortfolioSnapshot.positions
       PortfolioSnapshot.totalValue PortfolioSnapshot.cashBalance].
  destruct (mock_positions_totals rnd Hrnd) as (V & C & HV & HC & HC0 & HVC).
  assert (HV0 : (0 < V)%R) by lra.
  pose proof (generateMockPositions_well_formed rnd 0 Hrnd) as Hwf.
  fold (mock_positions rnd) in Hwf.
  pose proof (mock_positions_length rnd) as Hten.
  set (positions := mock_positions rnd) in *.
  assert (Hfin : Forall (fun p => is_finite (Position.marketValue p)) positions).
  { revert Hwf. apply Forall_impl. intros p (_ & _ & _ & v & g & -> & _). exact I. }
  split; [exact Hten |]. split; [| split; [reflexivity |
    split; [exact Hlen | apply mock_history_length]]].
  exists V. split; [exact HV |]. split; [exact HV0 |].
    unfold Allocation.calculateAssetAllocations. cbv zeta.
    rewrite (assetMap_table positions Hfin).
    assert (Hlabels : map (fun p => Allocation.AssetType_str (Position.assetType p))
                          positions
                      = repeat "stock"%string (List.length positions)).
    { clear - Hwf. induction Hwf as [| p l (Hp & _) _ IH]; [reflexivity |].
      cbn [map List.length repeat]. now rewrite IH, Hp. }
    rewrite Hlabels, Hten.
    cbn [repeat SpecTx.first_seen filter String.eqb Ascii.eqb Bool.eqb negb map
         Array_sort sort_insert].
    assert (Hall : ofAssetType "stock" positions = positions).
    { unfold ofAssetType. clear - Hwf.
      induction Hwf as [| p l (Hp & _) _ IH]; [reflexivity |].
      cbn [filter]. rewrite Hp. cbn. now rewrite IH. }
    rewrite Hall, HV. do 2 f_equal. ncompute. f_equal. field. lra.
Qed.

Lemma X20_mock_portfolio_witness :
  exists data,
    MockData.generateMockPortfolioData 0%Z (Some 0%Z) (fun _ => (1 / 2)%R) = Ok data /\
    List.length (PortfolioData.historicalSnapshots data) = 366%nat.
Proof.
  destruct (X20_mock_portfolio_is_well_formed 0%Z (Some 0%Z) (fun _ => (1 / 2)%R))
    as (data & Hdata & _ & _ & _ & _ & Hlen).
  - intros j. lra.
  - now exists data.
Defined.

(** X21: for draws in [0, 1), the metrics of the mock portfolio are finite
    where it matters: the total return percent lies between -7.5 and 7.5,
    and the maximum drawdown between 0 and 100. *)
Theorem X21_mock_metrics_ranges (now : Z) (yearStart : Date) (rnd : nat -> R) :
  (forall j, (0 <= rnd j < 1)%R) ->
  exists data (r d : R),
    MockData.generateMockPortfolioData now yearStart rnd = Ok data /\
    PerformanceMetrics.totalReturnPercent (PortfolioData.metrics data) = Fin r /\
    (-7.5 <= r <= 7.5)%R /\
    PerformanceMetrics.maxDrawdown (PortfolioData.metrics data) = Fin d /\
    (0 <= d <= 100)%R.
Proof.
  intros Hrnd.
  destruct (generateMockPortfolioData_spec now yearStart rnd Hrnd)
    as (transactions & m & _ & _ & Hm & ->).
  destruct (mock_positions_totals rnd Hrnd) as (V & C & HV & HC & HC0 & HVC).
  pose proof (mock_history_positive now rnd Hrnd V HV ltac:(lra)) as Hpos.
  pose proof (mock_history_length now rnd) as Hlen.
  set (positions := mock_positions rnd) in *.
  destruct (mock_history now rnd) as [| s rest]; [discriminate Hlen |].
  destruct (values_of_positive (s :: rest) Hpos) as [Hmap Hvals].
  destruct (calculateMockMetrics_returns yearStart positions s rest)
    as (m1 & _ & Hm1 & _ & _ & _ & _ & _ & _ & Hmd).
  destruct (calculateMockMetrics_total_return yearStart positions s rest)
    as (m2 & Hm2 & Hret & Hpct).
  assert (m1 = m) by congruence. assert (m2 = m) by congruence. subst m1 m2.
  cbn [map] in Hmap, Hvals.
  destruct (drawdown_scan _ _ (s :: rest) Hmap Hvals) as [d (Hscan & Hmax)].
  assert (Hs : PortfolioSnapshot.totalValue s
               = Fin (to_R (PortfolioSnapshot.totalValue s))) by now injection Hmap.
  rewrite Hs, Hscan in Hmd. cbn [fst] in Hmd.
  eexists. exists ((V - C) / C * 100)%R, d.
  split; [reflexivity |]. cbn [PortfolioData.metrics].
  split; [| split; [| split; [exact Hmd |]]].
  - rewrite Hpct, Hret, HV, HC. ncompute. reflexivity.
  - assert (Hratio : (-0.075 <= (V - C) / C <= 0.075)%R).
    { split.
      - apply Rmult_le_reg_r with C; [lra |]. field_simplify; lra.
      - apply Rmult_le_reg_r with C; [lra |]. field_simplify; lra. }
    lra.
  - destruct Hmax as [[i (Hi & ->)] _]. now apply drawdown_at_bounds.
Qed.

Lemma X21_mock_metrics_witness :
  exists data (d : R),
    MockData.generateMockPortfolioData 0%Z (Some 0%Z) (fun _ => (1 / 2)%R) = Ok data /\
    PerformanceMetrics.maxDrawdown (PortfolioData.metrics data) = Fin d /\
    (0 <= d <= 100)%R.
Proof.
  destruct (X21_mock_metrics_ranges 0%Z (Some 0%Z) (fun _ => (1 / 2)%R))
    as (data & r & d & Hdata & _ & _ & Hd & Hrange).
  - intros j. lra.
  - now exists data, d.
Defined.

(* ================================================================= *)
(** ** Winners, losers and the best performers of the holdings page *)

Section WinnersAndLosers.

Import HoldingsPage.
Local Open Scope R_scope.

(** The gains above 0, the gains below 0 and all the gains. *)
Lemma gains_split (positions : list Position.t) :
  Forall (fun p => is_finite (Position.gainLoss p)) positions ->
  exists w L : R,
    reduce (fun sum p => add sum (Position.gainLoss p)) (Fin 0) (winners positions)
      = Fin w /\
    reduce (fun sum p => add sum (Position.gainLoss p)) (Fin 0) (losers positions)
      = Fin L /\
    reduce (fun sum p => add sum (Position.gainLoss p)) (Fin 0) positions
      = Fin (w + L) /\
    0 <= w /\ L <= 0 /\
    (w = 0 /\ L = 0 <-> Forall (fun p => Position.gainLoss p = Fin 0) positions).
Proof.
  unfold winners, losers. rewrite !reduce_add_sum0.
  induction 1 as [| p l Hp _ (w & L & Hw & HL & Hall & Hw0 & HL0 & Hzero)].
  - exists 0, 0. cbn [filter map]. rewrite !sum_nil.
    repeat split; try lra; try constructor. f_equal. lra.
  - destruct (Position.gainLoss p) as [g | | |] eqn:Eg; try contradiction.
    assert (E1 : gt (Fin g) (Fin 0) = true <-> 0 < g).
    { cbn. rcases g 0; split; intros; try lra; try discriminate; trivial. }
    assert (E2 : gt (Fin 0) (Fin g) = true <-> g < 0).
    { cbn. rcases 0 g; split; intros; try lra; try discriminate; trivial. }
    cbn [filter map]. rewrite Eg, sum_cons, Hall.
    destruct (gt (Fin g) (Fin 0)) eqn:G1; destruct (gt (Fin 0) (Fin g)) eqn:G2;
      cbn [map]; rewrite ?sum_cons, ?Eg, ?Hw, ?HL; cbn [add].
    + assert (0 < g) by now apply E1. assert (g < 0) by now apply E2. lra.
    + assert (Hg : 0 < g) by now apply E1.
      exists (g + w), L.
      split; [reflexivity |]. split; [reflexivity |]. split; [f_equal; lra |].
      split; [lra |]. split; [lra |]. split.
      * intros [Hx _]. lra.
      * intros Hx. inversion Hx as [| ? ? Hg' _]. rewrite Eg in Hg'.
        injection Hg' as Hg'. lra.
    + assert (Hg : g < 0) by now apply E2.
      exists w, (g + L).
      split; [reflexivity |]. split; [reflexivity |]. split; [f_equal; lra |].
      split; [lra |]. split; [lra |]. split.
      * intros [_ Hx]. lra.
      * intros Hx. inversion Hx as [| ? ? Hg' _]. rewrite Eg in Hg'.
        injection Hg' as Hg'. lra.
    + assert (Hg : g = 0).
      { destruct (total_order_T g 0) as [[Hlt | Heq] | Hgt]; trivial.
        - apply E2 in Hlt. discriminate.
        - apply E1 in Hgt. discriminate. }
      exists w, L.
      split; [reflexivity |]. split; [reflexivity |]. split; [f_equal; lra |].
      split; [lra |]. split; [lra |]. rewrite Hzero. split.
      * intros Hl. constructor; [rewrite Eg; f_equal; lra | exact Hl].
      * intros Hx. now inversion Hx.
Qed.

Lemma In_split_pair {A : Type} (R : A -> A -> Prop) (l1 l2 : list A) (x y : A) :
  StronglySorted R (l1 ++ l2) -> In x l1 -> In y l2 -> R x y.
Proof.
  intros Hs Hx Hy.
  apply in_split in Hx as (a & b & ->). apply in_split in Hy as (c & d & ->).
  apply (StronglySorted_pair R x y a (b ++ c) d).
  now rewrite <- !app_assoc in *.
Qed.

End WinnersAndLosers.

(** X22: for positions of finite gain, the value of the winners and the
    value of the losers are finite and not negative; when every gain is 0,
    and so also when no position is shown, the two bars have the width
    [NaN]; otherwise the two widths lie between 0 and 100. *)
Theorem X22_winners_and_losers (filteredPositions : list Position.t) :
  Forall (fun p => is_finite (Position.gainLoss p)) filteredPositions ->
  exists w l : R,
    HoldingsPage.winnersValue filteredPositions = Fin w /\
    HoldingsPage.losersValue filteredPositions = Fin l /\
    (0 <= w)%R /\ (0 <= l)%R /\
    (Forall (fun p => Position.gainLoss p = Fin 0%R) filteredPositions ->
     HoldingsPage.winnersWidth filteredPositions = NaN /\
     HoldingsPage.losersWidth filteredPositions = NaN) /\
    (~ Forall (fun p => Position.gainLoss p = Fin 0%R) filteredPositions ->
     exists a b : R,
       HoldingsPage.winnersWidth filteredPositions = Fin a /\
       HoldingsPage.losersWidth filteredPositions = Fin b /\
       (0 <= a <= 100)%R /\ (0 <= b <= 100)%R).
Proof.
  intros Hfin.
  destruct (gains_split filteredPositions Hfin)
    as (w & L & Hw & HL & Hall & Hw0 & HL0 & Hzero).
  unfold HoldingsPage.winnersWidth, HoldingsPage.losersWidth,
    HoldingsPage.winnersValue, HoldingsPage.losersValue.
  rewrite Hw, HL. cbn [Math_abs].
  assert (Habs : Rabs L = (- L)%R) by (apply Rabs_left1; lra).
  rewrite Habs.
  exists w, (- L)%R.
  split; [reflexivity |]. split; [reflexivity |]. split; [lra |]. split; [lra |].
  split.
  - intros H. apply Hzero in H as [-> ->]. split; ncompute; reflexivity.
  - intros Hnz.
    assert (Hpos : (0 < w + - L)%R).
    { destruct (Rle_lt_dec (w + - L) 0) as [Hle | Hlt]; [| exact Hlt].
      exfalso. apply Hnz, Hzero. split; lra. }
    assert (Hinv : (0 < / (w + - L))%R) by now apply Rinv_0_lt_compat.
    assert (Hone : ((w + - L) * / (w + - L) = 1)%R) by (apply Rinv_r; lra).
    exists (w / (w + - L) * 100)%R, (- L / (w + - L) * 100)%R.
    split; [ncompute; reflexivity |]. split; [ncompute; reflexivity |].
    unfold Rdiv. split; split; nra.
Qed.

Lemma X22_winners_and_losers_witness :
  let positions :=
    [Position.mk "AAPL" "Apple Inc." (Fin 2%R) (Fin 100%R) (Fin 110%R) (Fin 220%R)
                 (Fin 20%R) (Fin 10%R) "Technology" stock;
     Position.mk "JPM" "JPMorgan Chase & Co." (Fin 1%R) (Fin 100%R) (Fin 70%R)
                 (Fin 70%R) (Fin (-30)%R) (Fin (-30)%R) "Financial Services" stock] in
  exists a b : R,
    HoldingsPage.winnersWidth positions = Fin a /\
    HoldingsPage.losersWidth positions = Fin b /\
    (0 <= a <= 100)%R.
Proof.
  intros positions.
  destruct (X22_winners_and_losers positions) as (w & l & _ & _ & _ & _ & _ & H).
  - repeat constructor.
  - destruct H as (a & b & Ha & Hb & Hab & _).
    + intros Hz. inversion Hz as [| ? ? Hg _]. cbn in Hg. injection Hg as Hg. lra.
    + now exists a, b.
Defined.

(** X23: the best performers of the holdings page are at most five of the
    positions shown; when the gain percents are finite they come in
    descending order of gain percent, and no position left out has a higher
    gain percent than one of them. *)
Theorem X23_top_performers (filteredPositions : list Position.t) :
  (List.length (HoldingsPage.topPerformers filteredPositions) <= 5)%nat /\
  exists rest : list Position.t,
    Permutation (HoldingsPage.topPerformers filteredPositions ++ rest)
                filteredPositions /\
    (List.length filteredPositions <= 5 -> rest = [])%nat /\
    (Forall (fun p => is_finite (Position.gainLossPercent p)) filteredPositions ->
     StronglySorted (fun a b => (to_R (Position.gainLossPercent b)
                                 <= to_R (Position.gainLossPercent a))%R)
                    (HoldingsPage.topPerformers filteredPositions) /\
     forall t r, In t (HoldingsPage.topPerformers filteredPositions) -> In r rest ->
                 (to_R (Position.gainLossPercent r)
                  <= to_R (Position.gainLossPercent t))%R).
Proof.
  unfold HoldingsPage.topPerformers, Transactions.slice0.
  set (compareFn := fun a b : Position.t => sub _ _).
  pose proof (Array_sort_perm compareFn filteredPositions) as Hperm.
  split; [apply firstn_le_length |].
  exists (skipn 5 (Array_sort compareFn filteredPositions)).
  rewrite firstn_skipn. split; [exact Hperm |]. split.
  - intros Hlen. apply skipn_all2.
    now rewrite (Permutation_length Hperm).
  - intros Hfin.
    pose proof (Array_sort_ranked compareFn
                  (fun p => to_R (Position.gainLossPercent p))
                  (fun p => is_finite (Position.gainLossPercent p))
                  (fun x y Hx Hy => gt_sub_iff (Position.gainLossPercent x)
                                               (Position.gainLossPercent y) Hx Hy)
                  filteredPositions Hfin) as Hsorted.
    apply (StronglySorted_weaken _
             (fun a b => (to_R (Position.gainLossPercent b)
                          <= to_R (Position.gainLossPercent a))%R)) in Hsorted.
    2: { intros a b [Hlt | [Heq _]]; lra. }
    split; [now apply StronglySorted_firstn |].
    intros t r Ht Hr.
    rewrite <- (firstn_skipn 5 (Array_sort compareFn filteredPositions)) in Hsorted.
    exact (In_split_pair _ _ _ t r Hsorted Ht Hr).
Qed.

Lemma X23_top_performers_witness :
  let positions :=
    [Position.mk "AAPL" "Apple Inc." (Fin 2%R) (Fin 100%R) (Fin 110%R) (Fin 220%R)
                 (Fin 20%R) (Fin 10%R) "Technology" stock;
     Position.mk "JPM" "JPMorgan Chase & Co." (Fin 1%R) (Fin 100%R) (Fin 125%R)
                 (Fin 125%R) (Fin 25%R) (Fin 25%R) "Financial Services" stock] in
  exists rest : list Position.t,
    rest = [] /\
    StronglySorted (fun a b => (to_R (Position.gainLossPercent b)
                                <= to_R (Position.gainLossPercent a))%R)
                   (HoldingsPage.topPerformers positions).
Proof.
  intros positions.
  destruct (X23_top_performers positions) as (_ & rest & _ & Hrest & Hsorted).
  exists rest. split.
  - apply Hrest. cbn. lia.
  - apply Hsorted. repeat constructor.
Defined.

(** X24: the comparison of the research page shows, in the order of the
    table, the stocks whose symbol is selected; when the symbols of the
    table are pairwise distinct it shows no more stocks than there are
    selected symbols, so four at most after any clicks on a selection that
    started with four symbols or fewer, none of them twice. *)
Theorem X24_comparison_within_selection (stocks : list StockData.t)
        (selectedStocks clicks : list string) :
  NoDup (map StockData.symbol stocks) ->
  NoDup selectedStocks -> (List.length selectedStocks <= 4)%nat ->
  let selection := fold_left ResearchPage.handleStockSelection clicks selectedStocks in
  SpecTx.subseq (ResearchPage.comparisonStocks stocks selection) stocks /\
  (forall s, In s (ResearchPage.comparisonStocks stocks selection)
             <-> In s stocks /\ In (StockData.symbol s) selection) /\
  (List.length (ResearchPage.comparisonStocks stocks selection)
   <= List.length selection)%nat /\
  (List.length (ResearchPage.comparisonStocks stocks selection) <= 4)%nat.
Proof.
  intros Hstocks Hnodup Hlen. cbv zeta.
  assert (Hsel : NoDup (fold_left ResearchPage.handleStockSelection clicks
                                  selectedStocks) /\
                 (List.length (fold_left ResearchPage.handleStockSelection clicks
                                         selectedStocks) <= 4)%nat).
  { clear Hstocks. revert selectedStocks Hnodup Hlen.
    induction clicks as [| c clicks IH]; intros sel Hnodup Hlen; [now split |].
    cbn [fold_left].
    destruct (handleStockSelection_invariant sel c Hnodup Hlen) as [H1 H2].
    now apply IH. }
  set (selection := fold_left ResearchPage.handleStockSelection clicks selectedStocks)
    in *.
  unfold ResearchPage.comparisonStocks.
  assert (Hin : forall s,
             In s (filter (fun s0 => existsb (String.eqb (StockData.symbol s0)) selection)
                          stocks)
             <-> In s stocks /\ In (StockData.symbol s) selection).
  { intros s. now rewrite filter_In, existsb_eqb_In. }
  assert (Hle : (List.length
                   (filter (fun s0 => existsb (String.eqb (StockData.symbol s0)) selection)
                           stocks)
                 <= List.length selection)%nat).
  { rewrite <- (length_map StockData.symbol).
    apply NoDup_incl_length.
    - clear - Hstocks. induction stocks as [| s l IH]; [constructor |].
      cbn [map] in Hstocks. inversion Hstocks as [| ? ? Hnotin Hl]; subst.
      cbn [filter]. destruct (existsb _ selection); [| now apply IH].
      cbn [map]. constructor; [| now apply IH].
      intros H. apply Hnotin. apply in_map_iff in H as (s' & <- & Hs').
      apply filter_In in Hs' as [Hs' _]. now apply in_map.
    - intros x Hx. apply in_map_iff in Hx as (s & <- & Hs). now apply Hin in Hs. }
  split; [apply filter_subseq |]. split; [exact Hin |]. split; [exact Hle | lia].
Qed.

Lemma X24_comparison_witness :
  let row := fun symbol : string =>
    StockData.mk symbol symbol "Technology" (Fin 1%R) (Fin 0%R) (Fin 0%R) (Fin 1%R)
                 (Fin 1%R) (Fin 0%R) (Fin 1%R) (Fin 1%R) (Fin 1%R) in
  (List.length
     (ResearchPage.comparisonStocks
        [row "AAPL"%string; row "MSFT"%string; row "NVDA"%string]
        (fold_left ResearchPage.handleStockSelection ["NVDA"; "AAPL"]%string
                   ["AAPL"; "MSFT"]%string)) <= 4)%nat.
Proof.
  intros row.
  apply (X24_comparison_within_selection
           [row "AAPL"%string; row "MSFT"%string; row "NVDA"%string]
           ["AAPL"; "MSFT"]%string ["NVDA"; "AAPL"]%string).
  - repeat constructor; cbn; intuition discriminate.
  - repeat constructor; cbn; intuition discriminate.
  - cbn. lia.
Defined.

(* ================================================================= *)
(** ** The statistics of the mock ledger *)

Section MockLedgerStatistics.

Import Transaction Transactions TransactionsPage.
Local Open Scope R_scope.


End MockLedgerStatistics.


